(** * IV tracker calculations of pokemon-ranger

    A shallow embedding of [src/utils/trackerCalculations.ts]: the IV
    interval narrowing, the nature inference, the hidden power resolver,
    the route variable cast and the two text parsers, with the properties
    the specification states about them. *)

From Stdlib Require Import ZArith List String Ascii Bool QArith Qround Lia.
From stdpp Require Import gmap strings.
Import ListNotations.

Local Open Scope Z_scope.

(** ** JavaScript numbers

    The values the tracker handles are integers (IVs, levels, stat
    values), the two infinities that [Math.min()] and [Math.max()] return
    on no argument, and [NaN] as [parseInt] returns it.  [Num z] is the
    double that holds the integer [z]; a double that is no integer, and
    the sign of zero, are not values of this type. *)

Inductive number : Type :=
| Num (z : Z)
| Infinity
| NegInfinity
| NaN.

Definition number_eq_dec (a b : number) : {a = b} + {a <> b}.
Proof. decide equality. apply Z.eq_dec. Defined.

(** [Number.isFinite]. *)
Definition isFinite (n : number) : bool :=
  match n with Num _ => true | _ => false end.

(** [a === b] on numbers: [NaN] differs from itself. *)
Definition strict_eq (a b : number) : bool :=
  match a, b with
  | Num x, Num y => x =? y
  | Infinity, Infinity => true
  | NegInfinity, NegInfinity => true
  | _, _ => false
  end.

(** [a !== b]. *)
Definition strict_neq (a b : number) : bool := negb (strict_eq a b).

(** [!n]: zero and [NaN] are the falsy numbers. *)
Definition falsy (n : number) : bool :=
  match n with Num 0 => true | NaN => true | _ => false end.

(** [Math.min(a, b)] and [Math.max(a, b)]. *)
Definition Math_min2 (a b : number) : number :=
  match a, b with
  | NaN, _ | _, NaN => NaN
  | NegInfinity, _ | _, NegInfinity => NegInfinity
  | Infinity, x | x, Infinity => x
  | Num x, Num y => Num (Z.min x y)
  end.

Definition Math_max2 (a b : number) : number :=
  match a, b with
  | NaN, _ | _, NaN => NaN
  | Infinity, _ | _, Infinity => Infinity
  | NegInfinity, x | x, NegInfinity => x
  | Num x, Num y => Num (Z.max x y)
  end.

(** [Math.min(...l)] and [Math.max(...l)]: on the empty list they are
    [Infinity] and [-Infinity]. *)
Definition Math_min (l : list number) : number := fold_right Math_min2 Infinity l.
Definition Math_max (l : list number) : number := fold_right Math_max2 NegInfinity l.

(** [x % 2 === r] for [r] an integer: the remainder takes the sign of [x]. *)
Definition rem2_is (x : number) (r : Z) : bool :=
  match x with Num z => Z.rem z 2 =? r | _ => false end.

(** The double nearest to an integer, as the reading of a numeric text
    gives it: 53 significant bits, a tie going to the even significand,
    and an infinity once the rounded magnitude reaches 2^1024.  Up to
    2^53 in magnitude every integer is its own double. *)
Definition roundToDouble (z : Z) : number :=
  let magnitude := Z.abs z in
  let excess := Z.log2 magnitude + 1 - 53 in
  if excess <=? 0 then Num z
  else
    let significand := Z.shiftr magnitude excess in
    let remainder := magnitude - Z.shiftl significand excess in
    let half := Z.shiftl 1 (excess - 1) in
    let rounded :=
      Z.shiftl
        (if (half <? remainder) || ((remainder =? half) && Z.odd significand)
         then significand + 1 else significand)
        excess in
    if 2 ^ 1024 <=? rounded then (if z <? 0 then NegInfinity else Infinity)
    else Num (Z.sgn z * rounded).

#[global] Arguments roundToDouble : simpl never.

(** The double nearest to the rational [numerator / denominator], for a
    positive denominator, as a significand and a binary exponent: the
    double is [significand * 2 ^ exponent].  The significand has at most
    53 bits, the exponent is at least -1074 (below the normal range the
    doubles are evenly spaced), and a tie goes to the even
    significand. *)
Definition nearestDouble (numerator denominator : Z) : Z * Z :=
  let magnitude := Z.abs numerator in
  if magnitude =? 0 then (0, 0)
  else
    let difference := Z.log2 magnitude - Z.log2 denominator in
    let floorLog2 :=
      if magnitude * 2 ^ Z.max 0 (- difference) <? denominator * 2 ^ Z.max 0 difference
      then difference - 1 else difference in
    let exponent := Z.max (floorLog2 - 52) (-1074) in
    let scaled := magnitude * 2 ^ Z.max 0 (- exponent) in
    let divisor := denominator * 2 ^ Z.max 0 exponent in
    let quotient := scaled / divisor in
    let remainder := scaled mod divisor in
    let significand :=
      if (divisor <? 2 * remainder) || ((2 * remainder =? divisor) && Z.odd quotient)
      then quotient + 1 else quotient in
    (Z.sgn numerator * significand, exponent).

(** ** Strings

    Strings are modelled by their bytes; the white space and the letter
    case of characters outside ASCII are not represented. *)

(** The white space [trim] and [parseInt] strip: tab, line feed, vertical
    tab, form feed, carriage return and space. *)
Definition isStrWhiteSpaceChar (c : ascii) : bool :=
  let n := nat_of_ascii c in
  ((9 <=? n) && (n <=? 13) || (n =? 32))%nat.

Fixpoint trimStart (s : string) : string :=
  match s with
  | EmptyString => EmptyString
  | String c rest => if isStrWhiteSpaceChar c then trimStart rest else s
  end.

Fixpoint trimEnd (s : string) : string :=
  match s with
  | EmptyString => EmptyString
  | String c rest =>
      match trimEnd rest with
      | EmptyString => if isStrWhiteSpaceChar c then EmptyString else String c EmptyString
      | rest' => String c rest'
      end
  end.

(** [s.trim()]. *)
Definition trim (s : string) : string := trimEnd (trimStart s).

Definition toLowerCaseChar (c : ascii) : ascii :=
  let n := nat_of_ascii c in
  if ((65 <=? n) && (n <=? 90))%nat then ascii_of_nat (n + 32) else c.

(** [s.toLowerCase()]. *)
Fixpoint toLowerCase (s : string) : string :=
  match s with
  | EmptyString => EmptyString
  | String c rest => String (toLowerCaseChar c) (toLowerCase rest)
  end.

(** [s.split(sep)] for a one-character separator: never empty, and one
    segment longer than the number of separators in [s]. *)
Fixpoint split (sep : ascii) (s : string) : list string :=
  match s with
  | EmptyString => [EmptyString]
  | String c rest =>
      if Ascii.eqb c sep then EmptyString :: split sep rest
      else
        match split sep rest with
        | segment :: segments => String c segment :: segments
        | [] => [String c EmptyString]
        end
  end.

(** The value of a decimal digit character. *)
Definition digit_of (c : ascii) : option Z :=
  let n := nat_of_ascii c in
  if ((48 <=? n) && (n <=? 57))%nat then Some (Z.of_nat (n - 48)) else None.

(** The digits a string starts with, and what follows them. *)
Fixpoint span_digits (s : string) : list Z * string :=
  match s with
  | EmptyString => ([], EmptyString)
  | String c rest =>
      match digit_of c with
      | Some d => let '(ds, rest') := span_digits rest in (d :: ds, rest')
      | None => ([], s)
      end
  end.

(** The number a list of decimal digits writes, most significant first. *)
Definition digits_value (ds : list Z) : Z := fold_left (fun acc d => acc * 10 + d) ds 0.

(** [parseInt(string, 10)]: leading white space, an optional sign, then
    the longest run of decimal digits; [NaN] when that run is empty,
    and otherwise the double nearest to the integer the digits write.
    (Past the twentieth significant digit an implementation may read
    the digits as zeros; they are read as they are here.) *)
Definition parseInt_10 (string : string) : number :=
  let trimmed := trimStart string in
  let '(sign, unsigned) :=
    match trimmed with
    | String "-" rest => (-1, rest)
    | String "+" rest => (1, rest)
    | _ => (1, trimmed)
    end in
  match fst (span_digits unsigned) with
  | [] => NaN
  | digits => roundToDouble (sign * digits_value digits)
  end.

(** ** Values and JSON text *)

#[local] Set Warnings "-register-all".

(** The values [JSON.parse] and [castRouteVariableAsType] return.  A
    number is a [VNumber] when it is an integer, an infinity or [NaN];
    a double that is no integer is the [VFraction] of its odd
    significand and its negative binary exponent, the double being
    [significand * 2 ^ exponent]. *)
Inductive JSValue : Type :=
| VUndefined
| VNull
| VBoolean (b : bool)
| VNumber (n : number)
| VFraction (significand exponent : Z)
| VString (s : string)
| VArray (elements : list JSValue)
| VObject (members : list (string * JSValue)).

Definition quotationMark : ascii := ascii_of_nat 34.
Definition reverseSolidus : ascii := ascii_of_nat 92.

(** JSON white space: tab, line feed, carriage return and space. *)
Definition isJSONWhiteSpace (c : ascii) : bool :=
  let n := nat_of_ascii c in
  ((n =? 9) || (n =? 10) || (n =? 13) || (n =? 32))%nat.

Fixpoint skipWhiteSpace (s : string) : string :=
  match s with
  | EmptyString => EmptyString
  | String c rest => if isJSONWhiteSpace c then skipWhiteSpace rest else s
  end.

(** [s] without the prefix [p], when it starts with it. *)
Fixpoint stripPrefix (p s : string) : option string :=
  match p, s with
  | EmptyString, _ => Some s
  | String a p', String b s' => if Ascii.eqb a b then stripPrefix p' s' else None
  | String _ _, EmptyString => None
  end.

Definition hexDigit_of (c : ascii) : option Z :=
  let n := nat_of_ascii c in
  if ((48 <=? n) && (n <=? 57))%nat then Some (Z.of_nat (n - 48))
  else if ((65 <=? n) && (n <=? 70))%nat then Some (Z.of_nat (n - 55))
  else if ((97 <=? n) && (n <=? 102))%nat then Some (Z.of_nat (n - 87))
  else None.

Definition byte_of (z : Z) : ascii := ascii_of_nat (Z.to_nat z).

(** The UTF-8 bytes of a UTF-16 code unit. *)
Definition utf8 (code : Z) : string :=
  if code <? 128 then String (byte_of code) EmptyString
  else if code <? 2048 then
    String (byte_of (192 + code / 64)) (String (byte_of (128 + code mod 64)) EmptyString)
  else
    String (byte_of (224 + code / 4096))
      (String (byte_of (128 + (code / 64) mod 64))
         (String (byte_of (128 + code mod 64)) EmptyString)).

(** The character a one-letter escape stands for. *)
Definition simpleEscape (c : ascii) : option ascii :=
  if Ascii.eqb c quotationMark then Some quotationMark
  else if Ascii.eqb c reverseSolidus then Some reverseSolidus
  else if Ascii.eqb c "/" then Some "/"%char
  else if Ascii.eqb c "b" then Some (ascii_of_nat 8)
  else if Ascii.eqb c "f" then Some (ascii_of_nat 12)
  else if Ascii.eqb c "n" then Some (ascii_of_nat 10)
  else if Ascii.eqb c "r" then Some (ascii_of_nat 13)
  else if Ascii.eqb c "t" then Some (ascii_of_nat 9)
  else None.

(** The characters of a string literal after its opening quotation mark,
    and the text after the closing one. *)
Fixpoint parseStringChars (s : string) : option (string * string) :=
  match s with
  | EmptyString => None
  | String c rest =>
      if Ascii.eqb c quotationMark then Some (EmptyString, rest)
      else if Ascii.eqb c reverseSolidus then
        match rest with
        | EmptyString => None
        | String e rest1 =>
            if Ascii.eqb e "u" then
              match rest1 with
              | String h1 (String h2 (String h3 (String h4 rest2))) =>
                  match hexDigit_of h1, hexDigit_of h2, hexDigit_of h3, hexDigit_of h4 with
                  | Some d1, Some d2, Some d3, Some d4 =>
                      match parseStringChars rest2 with
                      | Some (chars, after) =>
                          Some (utf8 (((d1 * 16 + d2) * 16 + d3) * 16 + d4) +:+ chars, after)
                      | None => None
                      end
                  | _, _, _, _ => None
                  end
              | _ => None
              end
            else
              match simpleEscape e with
              | Some ch =>
                  match parseStringChars rest1 with
                  | Some (chars, after) => Some (String ch chars, after)
                  | None => None
                  end
              | None => None
              end
        end
      else if (nat_of_ascii c <? 32)%nat then None
      else
        match parseStringChars rest with
        | Some (chars, after) => Some (String c chars, after)
        | None => None
        end
  end.

(** The number value of the rational [numerator / denominator]: its
    nearest double, an infinity from 2^1024 on. *)
Definition JSON_number (numerator denominator : Z) : JSValue :=
  let '(significand, exponent) := nearestDouble numerator denominator in
  if significand =? 0 then VNumber (Num 0)
  else if 0 <=? exponent then
    if 2 ^ 1024 <=? Z.abs significand * 2 ^ exponent
    then VNumber (if significand <? 0 then NegInfinity else Infinity)
    else VNumber (Num (significand * 2 ^ exponent))
  else
    let twos := Z.log2 (Z.land (Z.abs significand) (- Z.abs significand)) in
    if - exponent <=? twos then VNumber (Num (significand / 2 ^ (- exponent)))
    else VFraction (significand / 2 ^ twos) (exponent + twos).

(** A number literal after its sign: an integer part without a
    superfluous leading zero, an optional fraction and an optional
    exponent.  Its value is the double nearest to the decimal number
    the literal writes. *)
Definition parseUnsignedNumber (sign : Z) (s : string) : option (JSValue * string) :=
  match s with
  | EmptyString => None
  | String c rest =>
      match digit_of c with
      | None => None
      | Some d =>
          let '(intDigits, rest) :=
            if d =? 0 then ([0], rest)
            else let '(ds, rest') := span_digits rest in (d :: ds, rest') in
          let fraction :=
            match rest with
            | String "." rest1 =>
                match span_digits rest1 with
                | ([], _) => None
                | (fs, rest2) => Some (Some fs, rest2)
                end
            | _ => Some (None, rest)
            end in
          match fraction with
          | None => None
          | Some (fraction, rest) =>
              let exponent :=
                match rest with
                | String ("e" | "E") rest1 =>
                    let '(esign, rest2) :=
                      match rest1 with
                      | String "-" r => (-1, r)
                      | String "+" r => (1, r)
                      | _ => (1, rest1)
                      end in
                    match span_digits rest2 with
                    | ([], _) => None
                    | (es, rest3) => Some (Some (esign * digits_value es), rest3)
                    end
                | _ => Some (None, rest)
                end in
              match exponent with
              | None => None
              | Some (exponent, rest) =>
                  match fraction, exponent with
                  | None, None =>
                      Some (VNumber (roundToDouble (sign * digits_value intDigits)), rest)
                  | _, _ =>
                      let fs := default [] fraction in
                      let significand := sign * digits_value (intDigits ++ fs) in
                      let power := default 0 exponent - Z.of_nat (length fs) in
                      Some (if 0 <=? power then JSON_number (significand * 10 ^ power) 1
                            else JSON_number significand (10 ^ (- power)),
                            rest)
                  end
              end
          end
      end
  end.

(** A number literal, with its optional minus sign. *)
Definition parseNumberLiteral (s : string) : option (JSValue * string) :=
  match s with
  | EmptyString => None
  | String c rest =>
      if Ascii.eqb c "-" then parseUnsignedNumber (-1) rest
      else parseUnsignedNumber 1 s
  end.

(** A JSON value at the head of [s], and the text after it.  The fuel
    bounds the nesting and the number of elements read; [JSON_parse]
    gives enough of it for the whole text. *)
Fixpoint parseValue (fuel : nat) (s : string) : option (JSValue * string) :=
  match fuel with
  | O => None
  | S fuel =>
      match s with
      | EmptyString => None
      | String c rest =>
          if Ascii.eqb c "[" then
            match skipWhiteSpace rest with
            | String c' after =>
                if Ascii.eqb c' "]" then Some (VArray [], after)
                else parseElements fuel rest []
            | EmptyString => parseElements fuel rest []
            end
          else if Ascii.eqb c "{" then
            match skipWhiteSpace rest with
            | String c' after =>
                if Ascii.eqb c' "}" then Some (VObject [], after)
                else parseMembers fuel rest []
            | EmptyString => parseMembers fuel rest []
            end
          else if Ascii.eqb c quotationMark then
            match parseStringChars rest with
            | Some (chars, after) => Some (VString chars, after)
            | None => None
            end
          else if Ascii.eqb c "t" then
            after ← stripPrefix "true" s; Some (VBoolean true, after)
          else if Ascii.eqb c "f" then
            after ← stripPrefix "false" s; Some (VBoolean false, after)
          else if Ascii.eqb c "n" then
            after ← stripPrefix "null" s; Some (VNull, after)
          else parseNumberLiteral s
      end
  end
with parseElements (fuel : nat) (s : string) (acc : list JSValue)
    : option (JSValue * string) :=
  match fuel with
  | O => None
  | S fuel =>
      match parseValue fuel (skipWhiteSpace s) with
      | None => None
      | Some (element, rest) =>
          match skipWhiteSpace rest with
          | String "," after => parseElements fuel after (element :: acc)
          | String "]" after => Some (VArray (rev (element :: acc)), after)
          | _ => None
          end
      end
  end
with parseMembers (fuel : nat) (s : string) (acc : list (string * JSValue))
    : option (JSValue * string) :=
  match fuel with
  | O => None
  | S fuel =>
      match skipWhiteSpace s with
      | String c rest =>
          if Ascii.eqb c quotationMark then
            match parseStringChars rest with
            | None => None
            | Some (key, rest1) =>
                match skipWhiteSpace rest1 with
                | String ":" rest2 =>
                    match parseValue fuel (skipWhiteSpace rest2) with
                    | None => None
                    | Some (value, rest3) =>
                        match skipWhiteSpace rest3 with
                        | String "," after => parseMembers fuel after ((key, value) :: acc)
                        | String "}" after => Some (VObject (rev ((key, value) :: acc)), after)
                        | _ => None
                        end
                    end
                | _ => None
                end
            end
          else None
      | EmptyString => None
      end
  end.

(** [JSON.parse(text)]; [None] is the [SyntaxError] it raises. *)
Definition JSON_parse (text : string) : option JSValue :=
  match parseValue (2 * String.length text + 2) (skipWhiteSpace text) with
  | Some (value, rest) =>
      match skipWhiteSpace rest with
      | EmptyString => Some value
      | String _ _ => None
      end
  | None => None
  end.

Definition digitChar (d : Z) : ascii := ascii_of_nat (48 + Z.to_nat d).

(** The decimal digits of a natural number, most significant first. *)
Fixpoint decimalDigits (fuel : nat) (n : Z) : list Z :=
  if n <? 10 then [n]
  else
    match fuel with
    | O => [n mod 10]
    | S fuel => decimalDigits fuel (n / 10) ++ [n mod 10]
    end.

(** The decimal writing of an integer: a minus sign when it is
    negative, then its digits. *)
Definition decimalText (z : Z) : string :=
  (if z <? 0 then "-"%string else EmptyString)
  +:+ string_of_list_ascii
        (map digitChar (decimalDigits (Z.to_nat (Z.log2 (Z.abs z))) (Z.abs z))).

(** The numbers whose text [JSON.stringify] writes digit for digit: the
    integers of magnitude at most 2^53, each of which a double holds
    exactly; and the values that are not finite, written [null].  For
    a greater integer the source writes the shortest digits that read
    back as the same double, followed by zeros or, from 1e21 on, by an
    exponent; that writing is outside this development. *)
Definition exactlyWritten (n : number) : bool :=
  match n with Num z => Z.abs z <=? 2 ^ 53 | _ => true end.

(** The text of one exactly written number in an array. *)
Definition elementText (n : number) : string :=
  match n with Num z => decimalText z | _ => "null"%string end.

(** [JSON.stringify(a)] on an array of exactly written numbers; [None]
    on any other array, whose text is outside this development. *)
Definition JSON_stringify_numbers (a : list number) : option string :=
  if forallb exactlyWritten a
  then Some ("[" +:+ String.concat "," (map elementText a) +:+ "]")
  else None.

(** The values a destructuring pattern [[x, y, ...]] iterates over: the
    elements of an array, the characters of a string, and a [TypeError]
    ([None]) on a value that is not iterable. *)
Definition iterate (value : JSValue) : option (list JSValue) :=
  match value with
  | VArray elements => Some elements
  | VString s => Some (map (fun c => VString (String c EmptyString)) (list_ascii_of_string s))
  | _ => None
  end.

(** ** Stats, natures and intervals *)

Inductive Stat : Type := hp | attack | defense | spAttack | spDefense | speed.

Definition Stat_eq_dec (a b : Stat) : {a = b} + {a <> b}.
Proof. decide equality. Defined.

Definition Stat_eqb (a b : Stat) : bool := if Stat_eq_dec a b then true else false.

(** Modelled from the spec: the constant [STATS] of [constants.ts], the
    fixed six-element enumeration in the order hp, attack, defense,
    spAttack, spDefense, speed. *)
Definition STATS : list Stat := [hp; attack; defense; spAttack; spDefense; speed].

(** [Record<Stat, T>]: an object with one entry per stat, read as
    [r[stat]]; [Object.entries] lists the entries in the order of
    [STATS], in which every such record of the module is built. *)
Definition StatRecord (T : Type) : Type := Stat -> T.

Definition Object_entries {T} (r : StatRecord T) : list (Stat * T) :=
  map (fun stat => (stat, r stat)) STATS.

(** [StatLine]: the six stat values of one level. *)
Definition StatLine : Type := StatRecord number.

(** [a === b] and [a !== b] for a component of a [ConfirmedNature]
    ([Stat | null]) against a stat. *)
Definition is_stat (o : option Stat) (stat : Stat) : bool :=
  match o with Some s => Stat_eqb s stat | None => false end.

Definition ConfirmedNature : Type := option Stat * option Stat.

Inductive NatureType : Type := key_negative | key_neutral | key_positive.

#[global] Instance NatureType_eq_dec : EqDecision NatureType.
Proof. solve_decision. Defined.

Definition Interval : Type := number * number.

(** The sentinel [[-1, -1]]. *)
Definition sentinel : Interval := (Num (-1), Num (-1)).

Record IVRangeSet : Type := {
  negative : Interval;
  neutral : Interval;
  positive : Interval;
  combined : Interval;
}.

Record NatureDefinition : Type := { plus : Stat; minus : Stat }.

(** Modelled from the spec: [NATURE_MODIFIERS] of [calculations.ts], the
    multiplicative modifiers 0.9 / 1.0 / 1.1 for a decreased, neutral and
    increased stat, indexed 0, 1, 2 as [calculatePossibleStats] reads
    them. *)
Definition NATURE_MODIFIERS : list (NatureType * Q) :=
  [(key_negative, 9 # 10); (key_neutral, 1 # 1); (key_positive, 11 # 10)]%Q.

(** Modelled from the spec: [range] of [utils.ts], the integers from
    [from] to [to], both included, in increasing order; empty when
    [to < from].  The module calls it on finite integer bounds only; on
    any other bound the model gives the empty list. *)
Definition range (from to : number) : list number :=
  match from, to with
  | Num a, Num b =>
      map (fun i => Num (a + Z.of_nat i)) (seq 0 (Z.to_nat (b - a + 1)))
  | _, _ => []
  end.

(** [o !== null] for an optional stat. *)
Definition is_Some_b {T} (o : option T) : bool :=
  match o with Some _ => true | None => false end.

(** [[...new Set(l)]]: the distinct values in the order of their first
    occurrence. *)
Fixpoint Set_values_from (seen l : list number) : list number :=
  match l with
  | [] => []
  | x :: rest =>
      if existsb (fun y => if number_eq_dec x y then true else false) seen
      then Set_values_from seen rest
      else x :: Set_values_from (x :: seen) rest
  end.

Definition Set_values (l : list number) : list number := Set_values_from [] l.

(** [p > q] on probabilities. *)
Definition Qgtb (p q : Q) : bool := negb (Qle_bool p q).

Definition HIDDEN_POWER_TYPES : list string :=
  ["Fighting"; "Flying"; "Poison"; "Ground"; "Rock"; "Bug"; "Ghost"; "Steel";
   "Fire"; "Water"; "Grass"; "Electric"; "Psychic"; "Ice"; "Dragon"; "Dark"]%string.

(** [StatLSBSet]: one flag per stat, in the order hp, attack, defense,
    spAttack, spDefense, speed. *)
Definition StatLSBSet : Type := (bool * bool * bool * bool * bool * bool)%type.

(** The 64 combinations [new CartesianProduct([false, true], ...)] of
    js-combinatorics enumerates, the first component varying fastest. *)
Definition CartesianProduct : list StatLSBSet :=
  f ← [false; true]; e ← [false; true]; d ← [false; true];
  c ← [false; true]; b ← [false; true]; a ← [false; true];
  [(a, b, c, d, e, f)].

(** ** The tracker *)

Record Tracker : Type := {
  generation : Z;
  startingLevel : Z;
  evolution : Z;
  (** one row of base stats per evolution stage *)
  baseStats : list StatLine;
  (** starting level, then level, to the effort values reached there *)
  evSegments : gmap Z (gmap Z StatLine);
  (** evolution stage, then level, to the observed stat line, each in
      the order [Object.entries] lists the keys *)
  recordedStats : list (Z * list (Z * option StatLine));
  (** [-1] where no static IV is set *)
  staticIVs : StatRecord number;
  staticNature : option string;
  directInput : bool;
  directInputIVs : StatRecord number;
  manualPositiveNature : option Stat;
  manualNegativeNature : option Stat;
}.

(** [arr[i]] on an array; [None] is [undefined]. *)
Definition array_get {T} (arr : list T) (i : Z) : option T :=
  if i <? 0 then None else arr !! Z.to_nat i.

(** [tracker.evSegments[tracker.startingLevel]?.[level]?.[stat] ?? 0]. *)
Definition evAt (tracker : Tracker) (level : Z) (stat : Stat) : number :=
  match evSegments tracker !! startingLevel tracker with
  | Some segment =>
      match segment !! level with
      | Some statLine => statLine stat
      | None => Num 0
      end
  | None => Num 0
  end.

(** ** Possible values and calculation sets *)

Record StatValuePossibilitySet : Type := {
  possible : list number;
  valid : list number;
}.

(** [StatRange | undefined]: the IVs a damage calculation allows under
    one regime, [None] when it allows none. *)
Definition StatRange : Type := option Interval.

(** [CombinedIVResult], read as [damageResult[key]]. *)
Definition CombinedIVResult : Type := NatureType -> StatRange.

Module RouteState.
(** The part of [RouteState] the calculations read: the trackers in the
    order of [Object.values(state.trackers)], each with its [name], and
    the route variables with their type tag and raw value. *)
Record t : Type := {
  trackers : list (string * Tracker);
  variables : gmap string (string * option string);
}.
End RouteState.

Record TrackerCalculations : Type := {
  ivRanges : StatRecord IVRangeSet;
  confirmedNature : ConfirmedNature;
  variables : gmap string JSValue;
  hiddenPowerType : option (option string);
  tracker : Tracker;
}.

(** Modelled from ECMAScript: the names of the properties of
    [Object.prototype], those of its Annex B included.  A read
    [object[name]] of an object literal without an own property of that
    name finds the inherited one. *)
Definition Object_prototype_names : list string :=
  ["constructor"; "__defineGetter__"; "__defineSetter__"; "hasOwnProperty";
   "__lookupGetter__"; "__lookupSetter__"; "isPrototypeOf"; "propertyIsEnumerable";
   "toString"; "valueOf"; "__proto__"; "toLocaleString"]%string.

(** What [useCalculationSet] returns: a calculation set, [null], or the
    member of [Object.prototype] of the given name, which is neither. *)
Inductive CalculationSetRead : Type :=
| ReadSet (calculationSet : TrackerCalculations)
| ReadInherited (name : string)
| ReadNull.

(** ** Example data

    The usual stat formulas of the games from the third generation on, in
    exact arithmetic, two natures, and small trackers: they instantiate
    the parameters above in the examples. *)

Definition exampleHP (level : Z) (baseStat iv ev : number) (generation : Z) : number :=
  match baseStat, iv, ev with
  | Num b, Num i, Num e => Num ((2 * b + i + e / 4) * level / 100 + level + 10)
  | _, _, _ => NaN
  end.

Definition exampleGen1Stat (level : Z) (baseStat iv ev : number) : number :=
  match baseStat, iv, ev with
  | Num b, Num i, Num e => Num (((b + i) * 2 + e / 4) * level / 100 + 5)
  | _, _, _ => NaN
  end.

Definition exampleStat (level : Z) (baseStat iv ev : number) (modifier : Q) : number :=
  match baseStat, iv, ev with
  | Num b, Num i, Num e =>
      Num (Qfloor (inject_Z ((2 * b + i + e / 4) * level / 100 + 5) * modifier))
  | _, _, _ => NaN
  end.

Definition exampleNATURES (nature : string) : option NatureDefinition :=
  if String.eqb nature "adamant" then Some {| plus := attack; minus := spAttack |}
  else if String.eqb nature "hardy" then Some {| plus := attack; minus := attack |}
  else None.

Definition exampleTYPE_NAMES : list string :=
  ["normal"; "fighting"; "flying"; "poison"; "ground"; "rock"; "bug"; "ghost"; "steel";
   "fire"; "water"; "grass"; "electric"; "psychic"; "ice"; "dragon"; "dark"]%string.

Definition statLineOf (values : list Z) : StatLine :=
  fun stat =>
    Num (nth (match stat with
              | hp => 0 | attack => 1 | defense => 2
              | spAttack => 3 | spDefense => 4 | speed => 5
              end)%nat values 0).

(** A tracker of the fifth generation with the base stats of the first
    calculator of the route page, no static or direct input, and the
    given observations. *)
Definition observedTracker (observations : list (Z * list (Z * option StatLine))) : Tracker :=
  {| generation := 5;
     startingLevel := 5;
     evolution := 0;
     baseStats := [statLineOf [45; 60; 45; 25; 45; 55]; statLineOf [65; 80; 65; 35; 65; 60]];
     evSegments := ∅;
     recordedStats := observations;
     staticIVs := fun _ => Num (-1);
     staticNature := None;
     directInput := false;
     directInputIVs := fun _ => Num (-1);
     manualPositiveNature := None;
     manualNegativeNature := None |}.

(** The same tracker in direct-input mode: every IV entered as 20, and
    the increased and decreased stats pinned by hand. *)
Definition directInputTracker (manualPositive manualNegative : option Stat) : Tracker :=
  {| generation := 5;
     startingLevel := 5;
     evolution := 0;
     baseStats := [statLineOf [45; 60; 45; 25; 45; 55]];
     evSegments := ∅;
     recordedStats := [];
     staticIVs := fun _ => Num (-1);
     staticNature := None;
     directInput := true;
     directInputIVs := fun _ => Num 20;
     manualPositiveNature := manualPositive;
     manualNegativeNature := manualNegative |}.

(** The same tracker with every IV known to be 31 and an Adamant
    nature. *)
Definition staticTracker : Tracker :=
  {| generation := 5;
     startingLevel := 5;
     evolution := 0;
     baseStats := [statLineOf [45; 60; 45; 25; 45; 55]];
     evSegments := ∅;
     recordedStats := [];
     staticIVs := fun _ => Num 31;
     staticNature := Some "adamant"%string;
     directInput := false;
     directInputIVs := fun _ => Num (-1);
     manualPositiveNature := None;
     manualNegativeNature := None |}.

(** A tracker of the second generation with one observation. *)
Definition earlyTracker : Tracker :=
  {| generation := 2;
     startingLevel := 5;
     evolution := 0;
     baseStats := [statLineOf [45; 60; 45; 25; 45; 55]];
     evSegments := ∅;
     recordedStats := [(0, [(5, Some (statLineOf [20; 11; 9; 7; 9; 10]))])];
     staticIVs := fun _ => Num (-1);
     staticNature := None;
     directInput := false;
     directInputIVs := fun _ => Num (-1);
     manualPositiveNature := None;
     manualNegativeNature := None |}.

(** A route with one tracker and one variable. *)
Definition exampleState : RouteState.t :=
  {| RouteState.trackers := [("starter"%string, observedTracker [])];
     RouteState.variables := {[ "badges"%string := ("number"%string, Some "3"%string) ]} |}.

(** An [IVRangeSet] with the same interval in every place. *)
Definition uniformRanges (interval : Interval) : IVRangeSet :=
  {| negative := interval; neutral := interval; positive := interval; combined := interval |}.

Section TrackerCalculations.

(** The stat formulas of [calculations.ts] and the nature table of
    [constants.ts] are parameters of the development: every result below
    holds whatever they compute. *)
Variable calculateHP : Z -> number -> number -> number -> Z -> number.
Variable calculateGen1Stat : Z -> number -> number -> number -> number.
Variable calculateStat : Z -> number -> number -> number -> Q -> number.
Variable NATURES : string -> option NatureDefinition.

(** The fixed list of type names of [pokemonTypes.ts] is a parameter as
    well. *)
Variable TYPE_NAMES : list string.

(** So is the overlap test of [utils.ts]. *)
Variable rangesOverlap : Interval -> Interval -> bool.

Definition calculateStatOrHP (stat : Stat) (level : Z) (baseStat iv ev : number)
    (modifier : Q) (generation : Z) : number :=
  if Stat_eqb stat hp then calculateHP level baseStat iv ev generation
  else if generation <=? 2 then calculateGen1Stat level baseStat iv ev
  else calculateStat level baseStat iv ev modifier.

(** [tracker.staticNature && NATURES[tracker.staticNature]], read for its
    truth value and its two stats: an absent or empty name and a name
    without an entry all count as no definition. *)
Definition staticNatureDefinition (tracker : Tracker) : option NatureDefinition :=
  match staticNature tracker with
  | None => None
  | Some EmptyString => None
  | Some nature => NATURES nature
  end.

(** The three [clamp] flags of [calculatePossibleIVRange]. *)
Definition clampNegative (d : option NatureDefinition) (stat : Stat) : bool :=
  match d with
  | None => true
  | Some d => Stat_eqb (minus d) stat && negb (Stat_eqb (plus d) stat)
  end.

Definition clampPositive (d : option NatureDefinition) (stat : Stat) : bool :=
  match d with
  | None => true
  | Some d => negb (Stat_eqb (minus d) stat) && Stat_eqb (plus d) stat
  end.

Definition clampNeutral (d : option NatureDefinition) (stat : Stat) : bool :=
  match d with
  | None => true
  | Some d =>
      (Stat_eqb (minus d) stat && Stat_eqb (plus d) stat)
      || (negb (Stat_eqb (minus d) stat) && negb (Stat_eqb (plus d) stat))
  end.

(** The three [restrict] flags of the direct-input branch. *)
Definition restrictPositive (tracker : Tracker) (stat : Stat) : bool :=
  match manualPositiveNature tracker with
  | None => false
  | Some p => negb (Stat_eqb p stat) || is_stat (manualNegativeNature tracker) stat
  end.

Definition restrictNeutral (tracker : Tracker) (stat : Stat) : bool :=
  (is_stat (manualPositiveNature tracker) stat
   || is_stat (manualNegativeNature tracker) stat)
  && negb (is_stat (manualPositiveNature tracker) stat
           && is_stat (manualNegativeNature tracker) stat).

Definition restrictNegative (tracker : Tracker) (stat : Stat) : bool :=
  match manualNegativeNature tracker with
  | None => false
  | Some n => negb (Stat_eqb n stat) || is_stat (manualPositiveNature tracker) stat
  end.

(** [matchingStats] of the innermost reducer: the IVs of the running
    interval whose stat value at [level] is the recorded one. *)
Definition matchingStatsOf (stat : Stat) (tracker : Tracker) (baseStat : number)
    (modifier : Q) (min max : number) (level : Z) (statLine : StatLine) : list number :=
  List.filter
    (fun possibleIV =>
       strict_eq
         (calculateStatOrHP stat level baseStat possibleIV
            (evAt tracker level stat) modifier (generation tracker))
         (statLine stat))
    (range min max).

(** The innermost reducer of the observed-data branch: one recorded
    [(level, statLine)] entry folded into the running interval
    [[min, max]] of one regime. *)
Definition narrowObservation (stat : Stat) (tracker : Tracker) (baseStat : number)
    (modifier : Q) (acc : Interval) (entry : Z * option StatLine) : Interval :=
  let '(min, max) := acc in
  let '(level, statLine) := entry in
  if negb (isFinite min) || negb (isFinite max) || strict_eq min (Num (-1))
  then (Num (-1), Num (-1))
  else
    match statLine with
    | None => (min, max)
    | Some statLine =>
        if falsy (statLine stat) then (min, max)
        else
          let matchingStats :=
            matchingStatsOf stat tracker baseStat modifier min max level statLine in
          if (length matchingStats =? 0)%nat then (Num (-1), Num (-1))
          else
            let minMatchingStat := Math_min matchingStats in
            let maxMatchingStat := Math_max matchingStats in
            (Math_max2 min minMatchingStat, Math_min2 max maxMatchingStat)
    end.

(** The reducer over the evolution stages: [tracker.baseStats[evo][stat]]
    raises a [TypeError] ([None]) when the tracker has no base stats for
    the stage. *)
Definition narrowEvolution (stat : Stat) (tracker : Tracker) (modifier : Q)
    (acc : option Interval) (entry : Z * list (Z * option StatLine)) : option Interval :=
  let '(evo, statSegments) := entry in
  acc ← acc;
  row ← array_get (baseStats tracker) evo;
  Some (fold_left (narrowObservation stat tracker (row stat) modifier) statSegments acc).

(** The interval of one regime: the fold over every recorded observation
    from [[0, 31]]. *)
Definition narrowRegime (stat : Stat) (tracker : Tracker) (modifier : Q) : option Interval :=
  fold_left (narrowEvolution stat tracker modifier) (recordedStats tracker)
    (Some (Num 0, Num 31)).

(** The object the reducer over [NATURE_MODIFIERS] builds from [{}]: a
    key that was never written reads as [undefined] ([None]). *)
Definition modifierSetOf (stat : Stat) (tracker : Tracker)
    : option (NatureType -> option Interval) :=
  fold_left
    (fun modifierSet '(key, modifier) =>
       modifierSet ← modifierSet;
       interval ← narrowRegime stat tracker modifier;
       Some (fun k => if decide (k = key) then Some interval else modifierSet k))
    NATURE_MODIFIERS
    (Some (fun _ => None)).

Definition calculatePossibleIVRange (stat : Stat) (tracker : Tracker) : option IVRangeSet :=
  let staticIV := staticIVs tracker stat in
  let staticNatureDefinition := staticNatureDefinition tracker in
  if strict_neq staticIV (Num (-1)) then
    Some {|
      positive := if clampPositive staticNatureDefinition stat
                  then (staticIV, staticIV) else (Num (-1), Num (-1));
      neutral := if clampNeutral staticNatureDefinition stat
                 then (staticIV, staticIV) else (Num (-1), Num (-1));
      negative := if clampNegative staticNatureDefinition stat
                  then (staticIV, staticIV) else (Num (-1), Num (-1));
      combined := (staticIV, staticIV);
    |}
  else if directInput tracker then
    let directInputIV := directInputIVs tracker stat in
    Some {|
      positive := if clampPositive staticNatureDefinition stat
                     || negb (restrictPositive tracker stat)
                  then (directInputIV, directInputIV) else (Num (-1), Num (-1));
      neutral := if clampNeutral staticNatureDefinition stat
                    || negb (restrictNeutral tracker stat)
                 then (directInputIV, directInputIV) else (Num (-1), Num (-1));
      negative := if clampNegative staticNatureDefinition stat
                     || negb (restrictNegative tracker stat)
                  then (directInputIV, directInputIV) else (Num (-1), Num (-1));
      combined := (directInputIV, directInputIV);
    |}
  else
    modifierSet ← modifierSetOf stat tracker;
    negative ← modifierSet key_negative;
    neutral ← modifierSet key_neutral;
    positive ← modifierSet key_positive;
    Some {|
      positive := positive;
      negative := negative;
      neutral := neutral;
      combined :=
        (Math_min (List.filter (fun value => strict_neq value (Num (-1)))
                     [fst positive; fst negative; fst neutral]),
         Math_max (List.filter (fun value => strict_neq value (Num (-1)))
                     [snd positive; snd negative; snd neutral]));
    |}.

(** [STATS.reduce((acc, stat) => ({ ...acc, [stat]: f(stat) }), {})]: the
    record of the six results, or the exception the first failing call
    raises. *)
Definition statRecordOf {T} (f : Stat -> option T) : option (StatRecord T) :=
  v_hp ← f hp;
  v_attack ← f attack;
  v_defense ← f defense;
  v_spAttack ← f spAttack;
  v_spDefense ← f spDefense;
  v_speed ← f speed;
  Some (fun stat =>
          match stat with
          | hp => v_hp
          | attack => v_attack
          | defense => v_defense
          | spAttack => v_spAttack
          | spDefense => v_spDefense
          | speed => v_speed
          end).

Definition calculatePossibleNature (ivRanges : StatRecord IVRangeSet) (tracker : Tracker)
    : ConfirmedNature :=
  match staticNatureDefinition tracker with
  | Some staticNatureDefinition =>
      (Some (minus staticNatureDefinition), Some (plus staticNatureDefinition))
  | None =>
      let confirmedNegative :=
        match manualNegativeNature tracker with
        | Some manual => Some manual
        | None =>
            fst <$> List.find
              (fun '(stat, value) =>
                 negb (Stat_eqb stat hp)
                 && strict_eq (fst (positive value)) (Num (-1))
                 && strict_eq (fst (neutral value)) (Num (-1)))
              (Object_entries ivRanges)
        end in
      let confirmedPositive :=
        match manualPositiveNature tracker with
        | Some manual => Some manual
        | None =>
            fst <$> List.find
              (fun '(stat, value) =>
                 negb (Stat_eqb stat hp)
                 && strict_eq (fst (negative value)) (Num (-1))
                 && strict_eq (fst (neutral value)) (Num (-1)))
              (Object_entries ivRanges)
        end in
      let possibleNegatives :=
        List.filter
          (fun '(stat, value) =>
             negb (Stat_eqb stat hp) && strict_neq (fst (negative value)) (Num (-1)))
          (Object_entries ivRanges) in
      let possiblePositives :=
        List.filter
          (fun '(stat, value) =>
             negb (Stat_eqb stat hp) && strict_neq (fst (positive value)) (Num (-1)))
          (Object_entries ivRanges) in
      if (length possibleNegatives =? 0)%nat || (length possiblePositives =? 0)%nat
      then (Some attack, Some attack)
      else
        let negativeByExclusion :=
          if is_Some_b confirmedPositive && (length possibleNegatives =? 1)%nat
          then fst <$> head possibleNegatives else None in
        let positiveByExclusion :=
          if is_Some_b confirmedNegative && (length possiblePositives =? 1)%nat
          then fst <$> head possiblePositives else None in
        (match confirmedNegative with Some s => Some s | None => negativeByExclusion end,
         match confirmedPositive with Some s => Some s | None => positiveByExclusion end)
  end.

(** The second reducer of [calculateAllPossibleIVRanges]: the regimes the
    confirmed nature leaves for [stat], and the combined interval over
    them. *)
Definition relevantRangesOf (confirmedNegative confirmedPositive : option Stat)
    (stat : Stat) (ivRanges : IVRangeSet) : list Interval :=
  (if is_Some_b confirmedPositive
      && (negb (is_stat confirmedPositive stat) || is_stat confirmedNegative stat)
   then [] else [positive ivRanges])
  ++ (if (is_stat confirmedPositive stat || is_stat confirmedNegative stat)
         && negb (is_stat confirmedPositive stat && is_stat confirmedNegative stat)
      then [] else [neutral ivRanges])
  ++ (if is_Some_b confirmedNegative
         && (negb (is_stat confirmedNegative stat) || is_stat confirmedPositive stat)
      then [] else [negative ivRanges]).

Definition recombine (confirmedNegative confirmedPositive : option Stat)
    (stat : Stat) (ivRanges : IVRangeSet) : IVRangeSet :=
  let relevantRanges := relevantRangesOf confirmedNegative confirmedPositive stat ivRanges in
  {| negative := negative ivRanges;
     neutral := neutral ivRanges;
     positive := positive ivRanges;
     combined :=
       (Math_min (List.filter (fun value => strict_neq value (Num (-1)))
                    (map fst relevantRanges)),
        Math_max (List.filter (fun value => strict_neq value (Num (-1)))
                    (map snd relevantRanges))) |}.

Definition calculateAllPossibleIVRanges (tracker : Tracker) : option (StatRecord IVRangeSet) :=
  preliminaryResults ← statRecordOf (fun stat => calculatePossibleIVRange stat tracker);
  let '(confirmedNegative, confirmedPositive) :=
    if generation tracker <=? 2 then (Some attack, Some attack)
    else calculatePossibleNature preliminaryResults tracker in
  statRecordOf
    (fun stat =>
       Some (recombine confirmedNegative confirmedPositive stat (preliminaryResults stat))).

(** ** Hidden power *)

Definition getIVValuesInSection (section : Interval) : list number :=
  let '(start, end_) := section in
  if strict_eq start (Num (-1)) || strict_eq end_ (Num (-1)) then []
  else range start end_.

Definition getUniqueIVValuesInRangeSet (ivRange : IVRangeSet) (stat : Stat)
    (confirmedNature : ConfirmedNature) : list number :=
  let '(negativeNature, positiveNature) := confirmedNature in
  if is_stat negativeNature stat then getIVValuesInSection (negative ivRange)
  else if is_stat positiveNature stat then getIVValuesInSection (positive ivRange)
  else
    Set_values
      ((if is_Some_b negativeNature then [] else getIVValuesInSection (negative ivRange))
       ++ getIVValuesInSection (neutral ivRange)
       ++ (if is_Some_b positiveNature then [] else getIVValuesInSection (positive ivRange))).

(** The quotient of two list lengths is an exact rational here; the
    source computes it, and the product below, in doubles. *)
Definition calculateOddnessProbababilityOfStat (ivRange : IVRangeSet) (stat : Stat)
    (confirmedNature : ConfirmedNature) (odd : bool) : Q :=
  let values := getUniqueIVValuesInRangeSet ivRange stat confirmedNature in
  if (length values =? 0)%nat then 0%Q
  else
    (Z.of_nat (length (List.filter (fun x => rem2_is x (if odd then 1 else 0)) values))
     # Pos.of_nat (length values))%Q.

Definition calculateHiddenPowerProbability (ivs : StatRecord IVRangeSet)
    (confirmedNature : ConfirmedNature)
    (hpOdd attackOdd defenseOdd spAttackOdd spDefenseOdd speedOdd : bool) : Q :=
  (calculateOddnessProbababilityOfStat (ivs hp) hp confirmedNature hpOdd
   * calculateOddnessProbababilityOfStat (ivs attack) attack confirmedNature attackOdd
   * calculateOddnessProbababilityOfStat (ivs defense) defense confirmedNature defenseOdd
   * calculateOddnessProbababilityOfStat (ivs spAttack) spAttack confirmedNature spAttackOdd
   * calculateOddnessProbababilityOfStat (ivs spDefense) spDefense confirmedNature spDefenseOdd
   * calculateOddnessProbababilityOfStat (ivs speed) speed confirmedNature speedOdd)%Q.

(** The probability of one combination, its six flags spread over the
    parameters. *)
Definition probabilityOf (ivs : StatRecord IVRangeSet) (confirmedNature : ConfirmedNature)
    (combination : StatLSBSet) : Q :=
  let '(hpOdd, attackOdd, defenseOdd, spAttackOdd, spDefenseOdd, speedOdd) := combination in
  calculateHiddenPowerProbability ivs confirmedNature
    hpOdd attackOdd defenseOdd spAttackOdd spDefenseOdd speedOdd.

(** The reducer that keeps the first combination of strictly greater
    probability. *)
Definition mostProbable (acc value : Q * option StatLSBSet) : Q * option StatLSBSet :=
  if Qgtb (fst value) (fst acc) then value else acc.

Definition mostProbableCombination (ivs : StatRecord IVRangeSet)
    (confirmedNature : ConfirmedNature) : Q * option StatLSBSet :=
  fold_left mostProbable
    (map (fun combination => (probabilityOf ivs confirmedNature combination, Some combination))
       CartesianProduct)
    (0%Q, None).

(** The index into [HIDDEN_POWER_TYPES] of a combination. *)
Definition hiddenPowerIndex (combination : StatLSBSet) : Z :=
  let '(hp', atk, def, spAtk, spDef, speed') :=
    match combination with
    | (a, b, c, d, e, f) =>
        let bit (value : bool) : Z := if value then 1 else 0 in
        (bit a, bit b, bit c, bit d, bit e, bit f)
    end in
  ((hp' + atk * 2 + def * 4 + speed' * 8 + spAtk * 16 + spDef * 32) * 15) / 63.

(** The result is [None] for [null]; otherwise it is the array read
    [HIDDEN_POWER_TYPES[index]], itself [None] where the read would be
    [undefined]. *)
Definition calculateHiddenPowerType (ivs : StatRecord IVRangeSet)
    (confirmedNature : ConfirmedNature) : option (option string) :=
  match snd (mostProbableCombination ivs confirmedNature) with
  | None => None
  | Some combination => Some (array_get HIDDEN_POWER_TYPES (hiddenPowerIndex combination))
  end.

(** ** Route variables and text parsers *)

(** The type tag is the string the [switch] compares. *)
Definition castRouteVariableAsType (type : string) (value : option string) : JSValue :=
  match value with
  | None => VUndefined
  | Some value =>
      if String.eqb type "number" then VNumber (parseInt_10 value)
      else if String.eqb type "boolean" then VBoolean (String.eqb value "true")
      else VString value
  end.

(** The object [{ hp, attack, defense, spAttack, spDefense, speed }] of
    the first six values of a list; a missing one is [undefined]. *)
Definition statLineOfElements (elements : list JSValue) : StatRecord JSValue :=
  fun stat =>
    nth (match stat with
         | hp => 0 | attack => 1 | defense => 2
         | spAttack => 3 | spDefense => 4 | speed => 5
         end)%nat elements VUndefined.

(** [arrayToStatLine]: destructuring the argument raises a [TypeError]
    ([None]) when it is not iterable. *)
Definition arrayToStatLine (value : JSValue) : option (StatRecord JSValue) :=
  statLineOfElements <$> iterate value.

(** [parseStatLine] returns the stat line and the messages [onError] was
    called with, in call order. *)
Definition parseStatLine (rawStats : string) : StatRecord JSValue * list string :=
  match JSON_parse rawStats ≫= arrayToStatLine with
  | Some statLine => (statLine, [])
  | None =>
      (statLineOfElements (repeat (VNumber (Num 0)) 6),
       ["Unable to parse stat line: " +:+ rawStats])
  end.

(** [parseTypeDefinition] returns the type names and the segments
    [onError] was called with.  The empty string is the one falsy
    segment. *)
Definition parseTypeDefinition (rawTypes : string) : list string * list string :=
  let typeSegments := map (fun x => toLowerCase (trim x)) (split "/" rawTypes) in
  let invalidSegment :=
    List.find (fun segment => negb (existsb (String.eqb segment) TYPE_NAMES)) typeSegments in
  match invalidSegment with
  | Some (String _ _ as invalidSegment) => ([], [invalidSegment])
  | _ => (typeSegments, [])
  end.

(** ** Possible stat values *)

(** [rangeSet[key]]. *)
Definition regimeOf (rangeSet : IVRangeSet) (key : NatureType) : Interval :=
  match key with
  | key_negative => negative rangeSet
  | key_neutral => neutral rangeSet
  | key_positive => positive rangeSet
  end.

(** [[NATURE_MODIFIERS[i]]], for the indices 0, 1 and 2 the source
    reads. *)
Definition modifierAt (i : nat) : list (NatureType * Q) :=
  match NATURE_MODIFIERS !! i with Some entry => [entry] | None => [] end.

Definition calculatePossibleStatValues (stat : Stat) (level : Z) (baseStat minIV maxIV ev : number)
    (possibleModifiers : list Q) (generation : Z) : StatValuePossibilitySet :=
  let possibleValues :=
    flat_map
      (fun iv =>
         map (fun modifier => calculateStatOrHP stat level baseStat iv ev modifier generation)
           possibleModifiers)
      (range (Num 0) (Num 31)) in
  let validValues :=
    flat_map
      (fun iv =>
         map (fun modifier => calculateStatOrHP stat level baseStat iv ev modifier generation)
           possibleModifiers)
      (range minIV maxIV) in
  {| possible := Set_values possibleValues; valid := Set_values validValues |}.

(** The modifiers [calculatePossibleStats] folds over, after its five
    conditional reassignments. *)
Definition relevantModifiersOf (stat : Stat) (confirmedNature : ConfirmedNature)
    : list (NatureType * Q) :=
  let '(confirmedNegative, confirmedPositive) := confirmedNature in
  let relevantModifiers := if Stat_eqb stat hp then modifierAt 1 else NATURE_MODIFIERS in
  let relevantModifiers :=
    if is_Some_b confirmedNegative && negb (is_stat confirmedNegative stat)
    then List.filter (fun '(key, _) => negb (bool_decide (key = key_negative))) relevantModifiers
    else relevantModifiers in
  let relevantModifiers :=
    if is_Some_b confirmedPositive && negb (is_stat confirmedPositive stat)
    then List.filter (fun '(key, _) => negb (bool_decide (key = key_positive))) relevantModifiers
    else relevantModifiers in
  let relevantModifiers :=
    if is_stat confirmedPositive stat && negb (is_stat confirmedNegative stat)
    then modifierAt 2 else relevantModifiers in
  let relevantModifiers :=
    if is_stat confirmedNegative stat && is_stat confirmedPositive stat
    then modifierAt 1 else relevantModifiers in
  let relevantModifiers :=
    if is_stat confirmedNegative stat && negb (is_stat confirmedPositive stat)
    then modifierAt 0 else relevantModifiers in
  relevantModifiers.

(** [tracker.baseStats[evolution ?? tracker.evolution]?.[stat] ?? 0],
    [stage] being the argument [evolution]. *)
Definition baseStatAt (tracker : Tracker) (stage : option Z) (stat : Stat) : number :=
  match array_get (baseStats tracker) (default (evolution tracker) stage) with
  | Some row => row stat
  | None => Num 0
  end.

Definition calculatePossibleStats (stat : Stat) (level : Z) (ivRanges : StatRecord IVRangeSet)
    (confirmedNature : ConfirmedNature) (tracker : Tracker) (evolution : option Z)
    : StatValuePossibilitySet :=
  fold_left
    (fun combinedSet '(key, modifier) =>
       let values := regimeOf (ivRanges stat) key in
       if strict_eq (fst values) (Num (-1)) then combinedSet
       else
         let calculatedValues :=
           calculatePossibleStatValues stat level (baseStatAt tracker evolution stat)
             (fst values) (snd values) (evAt tracker level stat) [modifier]
             (generation tracker) in
         {| possible := possible combinedSet ++ possible calculatedValues;
            valid := valid combinedSet ++ valid calculatedValues |})
    (relevantModifiersOf stat confirmedNature)
    {| possible := []; valid := [] |}.

(** ** Nature adjustments *)

Definition getPossibleNatureAdjustmentsForStat (rangeSet : IVRangeSet) (stat : Stat)
    (confirmedNature : ConfirmedNature) : bool * bool * bool :=
  let '(confirmedNegative, confirmedPositive) := confirmedNature in
  let isNegativeValid := strict_neq (fst (negative rangeSet)) (Num (-1)) in
  let isNeutralValid := strict_neq (fst (neutral rangeSet)) (Num (-1)) in
  let isPositiveValid := strict_neq (fst (positive rangeSet)) (Num (-1)) in
  if is_stat confirmedPositive stat && negb (is_stat confirmedNegative stat)
  then (false, false, true)
  else if is_stat confirmedNegative stat && negb (is_stat confirmedPositive stat)
  then (true, false, false)
  else
    (isNegativeValid && negb (is_Some_b confirmedNegative),
     isNeutralValid,
     isPositiveValid && negb (is_Some_b confirmedPositive)).

(** A value of [values] that is [undefined] ([None]) is dropped like the
    value of a regime that is not possible. *)
Definition filterByPossibleNatureAdjustmentsForStat {T} (rangeSet : IVRangeSet) (stat : Stat)
    (confirmedNature : ConfirmedNature) (values : option T * option T * option T) : list T :=
  let '(negative, neutral, positive) :=
    getPossibleNatureAdjustmentsForStat rangeSet stat confirmedNature in
  let '(value0, value1, value2) := values in
  omap id
    [if negative then value0 else None;
     if neutral then value1 else None;
     if positive then value2 else None].

(** The multipliers 1.1, 0.9 and 1 as rationals. *)
Definition getNatureMultiplier (stat : Stat) (nature : NatureDefinition) : Q :=
  if Stat_eqb (plus nature) stat && negb (Stat_eqb (minus nature) stat) then (11 # 10)%Q
  else if Stat_eqb (minus nature) stat && negb (Stat_eqb (plus nature) stat) then (9 # 10)%Q
  else (1 # 1)%Q.

Definition isIVWithinValues (calculatedValue : StatRange) (ivRange : Interval) : bool :=
  match calculatedValue with
  | None => false
  | Some (from, to) => rangesOverlap (from, to) ivRange
  end.

Definition isIVWithinRange (damageResult : CombinedIVResult) (confirmedNature : ConfirmedNature)
    (stat : Stat) (ivRanges : IVRangeSet) : bool :=
  let '(confirmedNegative, confirmedPositive) := confirmedNature in
  if is_stat confirmedNegative stat && negb (is_stat confirmedPositive stat)
  then isIVWithinValues (damageResult key_negative) (negative ivRanges)
  else if is_stat confirmedPositive stat && negb (is_stat confirmedNegative stat)
  then isIVWithinValues (damageResult key_positive) (positive ivRanges)
  else
    let '(negative, neutral, positive) :=
      getPossibleNatureAdjustmentsForStat ivRanges stat (confirmedNegative, confirmedPositive) in
    existsb
      (fun '(key, _) => isIVWithinValues (damageResult key) (regimeOf ivRanges key))
      (List.filter (fun '(_, value) => value)
         [(key_negative, negative); (key_neutral, neutral); (key_positive, positive)]).

(** ** Calculation sets *)

(** [buildTrackerCalculationSet]; [None] is the exception of
    [calculateAllPossibleIVRanges]. *)
Definition buildTrackerCalculationSet (state : RouteState.t) (tracker : Tracker)
    : option TrackerCalculations :=
  ivRanges ← calculateAllPossibleIVRanges tracker;
  let confirmedNature :=
    if generation tracker <=? 2 then (Some attack, Some attack)
    else calculatePossibleNature ivRanges tracker in
  let variables :=
    fold_left
      (fun acc '(key, (type, value)) => <[key := castRouteVariableAsType type value]> acc)
      (map_to_list (RouteState.variables state)) ∅ in
  let hiddenPowerType := calculateHiddenPowerType ivRanges confirmedNature in
  Some {| ivRanges := ivRanges;
          confirmedNature := confirmedNature;
          variables := variables;
          hiddenPowerType := hiddenPowerType;
          tracker := tracker |}.

Definition buildAllTrackerCalculationSets (state : RouteState.t)
    : option (gmap string TrackerCalculations) :=
  fold_left
    (fun acc '(name, tracker) =>
       acc ← acc;
       calculationSet ← buildTrackerCalculationSet state tracker;
       Some (<[name := calculationSet]> acc))
    (RouteState.trackers state)
    (Some ∅).

(** [useCalculationSet], the context value being an argument, an object
    with the calculation set or [null] ([None]) of each name: [null] for
    an undefined or empty source; otherwise [calculationSets[source] ??
    null], a read that goes on to [Object.prototype] when the object
    has no own property [source]. *)
Definition useCalculationSet (calculationSets : gmap string (option TrackerCalculations))
    (source : option string) : CalculationSetRead :=
  match source with
  | None => ReadNull
  | Some EmptyString => ReadNull
  | Some source =>
      match calculationSets !! source with
      | Some (Some calculationSet) => ReadSet calculationSet
      | Some None => ReadNull
      | None =>
          if existsb (String.eqb source) Object_prototype_names
          then ReadInherited source else ReadNull
      end
  end.

(** ** Predicates of the statements *)

(** The tracker with other recorded stats: what an edit of the stat
    lines changes. *)
Definition withRecordedStats (tracker : Tracker)
    (recorded : list (Z * list (Z * option StatLine))) : Tracker :=
  {| generation := generation tracker;
     startingLevel := startingLevel tracker;
     evolution := evolution tracker;
     baseStats := baseStats tracker;
     evSegments := evSegments tracker;
     recordedStats := recorded;
     staticIVs := staticIVs tracker;
     staticNature := staticNature tracker;
     directInput := directInput tracker;
     directInputIVs := directInputIVs tracker;
     manualPositiveNature := manualPositiveNature tracker;
     manualNegativeNature := manualNegativeNature tracker |}.

(** The regime a fully confirmed nature leaves to a stat: the decreased
    one for the lowered stat, the increased one for the raised stat, the
    neutral one for every other stat. *)
Definition confirmedRegime (confirmedNegative confirmedPositive stat : Stat) : NatureType :=
  if Stat_eqb confirmedNegative stat then key_negative
  else if Stat_eqb confirmedPositive stat then key_positive
  else key_neutral.

(** The flag of one regime in the triple
    [getPossibleNatureAdjustmentsForStat] returns. *)
Definition adjustmentAt (adjustments : bool * bool * bool) (key : NatureType) : bool :=
  let '(negative, neutral, positive) := adjustments in
  match key with
  | key_negative => negative
  | key_neutral => neutral
  | key_positive => positive
  end.

(** [values[i]] for the index of a regime in the triple of values
    [filterByPossibleNatureAdjustmentsForStat] takes. *)
Definition valueAt {T} (values : option T * option T * option T) (key : NatureType)
    : option T :=
  let '(value0, value1, value2) := values in
  match key with
  | key_negative => value0
  | key_neutral => value1
  | key_positive => value2
  end.

(** A finite number between two integer bounds. *)
Definition between (lo hi : Z) (x : number) : Prop :=
  exists z, x = Num z /\ lo <= z <= hi.

(** The values an interval stands for: none for the sentinel. *)
Definition contains (interval : Interval) (iv : Z) : Prop :=
  interval <> sentinel
  /\ exists a b, interval = (Num a, Num b) /\ a <= iv <= b.

(** One interval inside another, as sets of IVs. *)
Definition subinterval (inner outer : Interval) : Prop :=
  forall iv, contains inner iv -> contains outer iv.

(** The invariant of an interval of an [IVRangeSet]: a sub-range
    [[min, max]] of [[0, 31]] with [min <= max], or the sentinel. *)
Definition wellFormed (interval : Interval) : Prop :=
  (exists a b, interval = (Num a, Num b) /\ 0 <= a /\ a <= b /\ b <= 31)
  \/ interval = sentinel.

(** A string made of white space only. *)
Fixpoint allStrWhiteSpace (s : string) : bool :=
  match s with
  | EmptyString => true
  | String c rest => isStrWhiteSpaceChar c && allStrWhiteSpace rest
  end.

(** A string with a parseable leading integer: white space, an optional
    sign, then a decimal digit. *)
Definition hasLeadingInteger (value : string) : Prop :=
  exists whiteSpace sign digit rest,
    value = whiteSpace +:+ sign +:+ String digit rest
    /\ allStrWhiteSpace whiteSpace = true
    /\ (sign = EmptyString \/ sign = "+"%string \/ sign = "-"%string)
    /\ is_Some (digit_of digit).

(** A text that cannot begin a JSON value: after JSON white space it
    is empty, or its first character is none of [[], [{], the quotation
    mark, [t], [f], [n], [-] and the ten digits. *)
Definition cannotBeginValue (text : string) : Prop :=
  match skipWhiteSpace text with
  | EmptyString => True
  | String c _ =>
      Ascii.eqb c "[" = false /\ Ascii.eqb c "{" = false
      /\ Ascii.eqb c quotationMark = false /\ Ascii.eqb c "t" = false
      /\ Ascii.eqb c "f" = false /\ Ascii.eqb c "n" = false
      /\ Ascii.eqb c "-" = false /\ digit_of c = None
  end.

(** The values [JSON.parse] returns that a destructuring pattern cannot
    iterate: [null], a boolean, a number and an object. *)
Definition notIterable (value : JSValue) : Prop :=
  match value with
  | VNull | VBoolean _ | VNumber _ | VFraction _ _ | VObject _ => True
  | VUndefined | VString _ | VArray _ => False
  end.

(** The value [JSON.parse] reads back for a number [JSON.stringify]
    wrote. *)
Definition json_of_number (n : number) : JSValue :=
  match n with Num z => VNumber (Num z) | _ => VNull end.

(** A text that goes on with the next element or closes the array. *)
Definition terminated (rest : string) : Prop :=
  exists tail, rest = String "," tail \/ rest = String "]" tail.

(** * Properties *)

(** ** Numbers, ranges and extrema *)

Lemma range_between from to x :
  In x (range from to) ->
  exists a b, from = Num a /\ to = Num b /\ between a b x.
Proof.
  destruct from as [a| | |], to as [b| | |]; simpl; try contradiction.
  intros Hin. apply in_map_iff in Hin as (i & <- & Hi).
  apply in_seq in Hi. exists a, b. repeat split; try reflexivity.
  exists (a + Z.of_nat i). split; [reflexivity | lia].
Qed.

Lemma range_complete a b z : a <= z <= b -> In (Num z) (range (Num a) (Num b)).
Proof.
  intros Hz. simpl. apply in_map_iff. exists (Z.to_nat (z - a)). split.
  - f_equal. lia.
  - apply in_seq. lia.
Qed.

Lemma Math_extrema_between (l : list number) lo hi :
  l <> [] ->
  (forall x, In x l -> between lo hi x) ->
  exists m M, Math_min l = Num m /\ Math_max l = Num M
              /\ lo <= m /\ m <= M /\ M <= hi
              /\ In (Num m) l /\ In (Num M) l
              /\ forall z, In (Num z) l -> m <= z <= M.
Proof.
  induction l as [|x l IH]; [congruence|]. intros _ Hall.
  destruct (Hall x (or_introl eq_refl)) as (z & -> & Hz).
  destruct l as [|y l].
  - exists z, z. simpl. do 2 (split; [reflexivity|]). do 3 (split; [lia|]).
    do 2 (split; [now left|]). intros z' [[= <-]|[]]. lia.
  - destruct IH as (m & M & Hm & HM & ? & ? & ? & Hinm & HinM & Hbound);
      [congruence | intros; apply Hall; now right |].
    exists (Z.min z m), (Z.max z M).
    change (Math_min (Num z :: y :: l)) with (Math_min2 (Num z) (Math_min (y :: l))).
    change (Math_max (Num z :: y :: l)) with (Math_max2 (Num z) (Math_max (y :: l))).
    rewrite Hm, HM. simpl. do 2 (split; [reflexivity|]). do 3 (split; [lia|]).
    split; [|split].
    + destruct (Z.min_spec z m) as [[_ ->]|[_ ->]]; [now left | now right].
    + destruct (Z.max_spec z M) as [[_ ->]|[_ ->]]; [now right | now left].
    + intros z' [[= <-]|Hin]; [lia|]. apply Hbound in Hin. lia.
Qed.

(** ** One observation folded into a running interval *)

Lemma matchingStatsOf_between stat tracker baseStat modifier a b level
    (statLine : StatLine) x :
  In x (matchingStatsOf stat tracker baseStat modifier (Num a) (Num b) level statLine) ->
  between a b x.
Proof.
  unfold matchingStatsOf. intros Hin. apply filter_In in Hin as [Hin _].
  apply range_between in Hin as (a' & b' & [= <-] & [= <-] & Hx). exact Hx.
Qed.

(** What [narrowObservation] returns: the interval it was given, the
    sentinel, or the least and the greatest matching IV, which lie inside
    the interval it was given. *)
Lemma narrowObservation_cases stat tracker baseStat modifier acc entry :
  narrowObservation stat tracker baseStat modifier acc entry = acc
  \/ narrowObservation stat tracker baseStat modifier acc entry = sentinel
  \/ exists a b a' b',
       acc = (Num a, Num b)
       /\ narrowObservation stat tracker baseStat modifier acc entry = (Num a', Num b')
       /\ a <= a' /\ a' <= b' /\ b' <= b.
Proof.
  destruct acc as [min max], entry as [level statLine]. unfold narrowObservation.
  destruct min as [a| | |], max as [b| | |]; simpl; try (right; left; reflexivity).
  destruct (a =? -1); simpl; [right; left; reflexivity|].
  destruct statLine as [statLine|]; [|now left].
  destruct (falsy (statLine stat)); [now left|].
  destruct (matchingStatsOf stat tracker baseStat modifier (Num a) (Num b) level statLine)
    as [|x l] eqn:Hmatching; [right; left; reflexivity|].
  right; right. rewrite <- Hmatching.
  destruct (Math_extrema_between
              (matchingStatsOf stat tracker baseStat modifier (Num a) (Num b) level statLine) a b)
    as (m & M & -> & -> & ? & ? & ? & _).
  - rewrite Hmatching. congruence.
  - intros y Hy. eapply matchingStatsOf_between, Hy.
  - exists a, b, m, M. rewrite Hmatching. simpl.
    rewrite Z.max_r, Z.min_r by lia. repeat split; lia.
Qed.

Lemma narrowObservation_skip stat tracker baseStat modifier a b level
    (statLine : option StatLine) :
  a <> -1 ->
  match statLine with Some statLine => falsy (statLine stat) = true | None => True end ->
  narrowObservation stat tracker baseStat modifier (Num a, Num b) (level, statLine)
  = (Num a, Num b).
Proof.
  intros Ha Hskip. unfold narrowObservation. simpl.
  destruct (Z.eqb_spec a (-1)); [contradiction|].
  destruct statLine as [statLine|]; [now rewrite Hskip | reflexivity].
Qed.

Lemma narrowObservation_no_match stat tracker baseStat modifier a b level
    (statLine : StatLine) :
  a <> -1 -> falsy (statLine stat) = false ->
  matchingStatsOf stat tracker baseStat modifier (Num a) (Num b) level statLine = [] ->
  narrowObservation stat tracker baseStat modifier (Num a, Num b) (level, Some statLine)
  = sentinel.
Proof.
  intros Ha Htruthy Hnone. unfold narrowObservation. simpl.
  destruct (Z.eqb_spec a (-1)); [contradiction|].
  rewrite Htruthy, Hnone. reflexivity.
Qed.

(** With a match, the result runs from the least to the greatest
    matching IV. *)
Lemma narrowObservation_match stat tracker baseStat modifier a b level
    (statLine : StatLine) :
  a <> -1 -> falsy (statLine stat) = false ->
  matchingStatsOf stat tracker baseStat modifier (Num a) (Num b) level statLine <> [] ->
  exists m M,
    narrowObservation stat tracker baseStat modifier (Num a, Num b) (level, Some statLine)
    = (Num m, Num M)
    /\ a <= m /\ m <= M /\ M <= b
    /\ In (Num m) (matchingStatsOf stat tracker baseStat modifier (Num a) (Num b) level statLine)
    /\ In (Num M) (matchingStatsOf stat tracker baseStat modifier (Num a) (Num b) level statLine)
    /\ forall z,
         In (Num z) (matchingStatsOf stat tracker baseStat modifier (Num a) (Num b) level statLine) ->
         m <= z <= M.
Proof.
  intros Ha Htruthy Hsome.
  destruct (Math_extrema_between _ a b Hsome)
    as (m & M & Hm & HM & ? & ? & ? & Hinm & HinM & Hbound);
    [intros y Hy; eapply matchingStatsOf_between, Hy|].
  exists m, M.
  split; [|do 3 (split; [lia|]); split; [exact Hinm | split; [exact HinM | exact Hbound]]].
  unfold narrowObservation. simpl.
  destruct (Z.eqb_spec a (-1)); [contradiction|]. rewrite Htruthy.
  destruct (matchingStatsOf stat tracker baseStat modifier (Num a) (Num b) level statLine)
    eqn:Hmatching; [congruence|].
  cbn [length Nat.eqb]. rewrite Hm, HM. simpl. now rewrite Z.max_r, Z.min_r by lia.
Qed.

Lemma narrowObservation_sentinel stat tracker baseStat modifier entry :
  narrowObservation stat tracker baseStat modifier sentinel entry = sentinel.
Proof. destruct entry. reflexivity. Qed.

Lemma fold_narrowObservation_sentinel stat tracker baseStat modifier observations :
  fold_left (narrowObservation stat tracker baseStat modifier) observations sentinel = sentinel.
Proof.
  induction observations as [|entry observations IH]; [reflexivity|].
  cbn [fold_left]. rewrite narrowObservation_sentinel. exact IH.
Qed.

Lemma fold_narrowEvolution_None stat tracker modifier stages :
  fold_left (narrowEvolution stat tracker modifier) stages None = None.
Proof.
  induction stages as [|[evo statSegments] stages IH]; [reflexivity|]. exact IH.
Qed.

Lemma narrowObservation_subset stat tracker baseStat modifier acc entry iv :
  contains (narrowObservation stat tracker baseStat modifier acc entry) iv ->
  contains acc iv.
Proof.
  destruct (narrowObservation_cases stat tracker baseStat modifier acc entry)
    as [Heq|[Hs|(a & b & a' & b' & Hacc & Hr & Hlo & Hmid & Hhi)]].
  - now rewrite Heq.
  - rewrite Hs. intros [Hne _]. congruence.
  - rewrite Hr, Hacc. intros [Hne (x & y & [= <- <-] & Hiv)]. split.
    + intros Hsentinel. apply Hne. rewrite <- Hr, Hacc, Hsentinel.
      apply narrowObservation_sentinel.
    + exists a, b. split; [reflexivity | lia].
Qed.

(** Over a whole stage the running interval only loses values. *)
Lemma fold_narrowObservation_subset stat tracker baseStat modifier observations acc iv :
  contains (fold_left (narrowObservation stat tracker baseStat modifier) observations acc) iv ->
  contains acc iv.
Proof.
  revert acc. induction observations as [|entry observations IH]; intros acc; [easy|].
  cbn [fold_left]. intros H. eapply narrowObservation_subset, IH, H.
Qed.

Lemma narrowObservation_wellFormed stat tracker baseStat modifier acc entry :
  wellFormed acc ->
  wellFormed (narrowObservation stat tracker baseStat modifier acc entry).
Proof.
  intros [(x & y & Hxy & ? & ? & ?)| ->].
  - destruct (narrowObservation_cases stat tracker baseStat modifier acc entry)
      as [->|[->|(a & b & a' & b' & Heq & -> & Hlo & Hmid & Hhi)]].
    + left. exists x, y. repeat split; assumption.
    + now right.
    + rewrite Heq in Hxy. injection Hxy as <- <-. left. exists a', b'. repeat split; lia.
  - right. apply narrowObservation_sentinel.
Qed.

Lemma fold_narrowObservation_wellFormed stat tracker baseStat modifier observations acc :
  wellFormed acc ->
  wellFormed (fold_left (narrowObservation stat tracker baseStat modifier) observations acc).
Proof.
  revert acc. induction observations as [|entry observations IH]; intros acc Hacc; [easy|].
  cbn [fold_left]. apply IH, narrowObservation_wellFormed, Hacc.
Qed.

Lemma fold_narrowEvolution_wellFormed stat tracker modifier stages acc interval :
  wellFormed acc ->
  fold_left (narrowEvolution stat tracker modifier) stages (Some acc) = Some interval ->
  wellFormed interval.
Proof.
  revert acc. induction stages as [|[evo statSegments] stages IH]; intros acc Hacc.
  - simpl. now intros [= <-].
  - cbn [fold_left]. unfold narrowEvolution at 2. simpl.
    destruct (array_get (baseStats tracker) evo) as [row|]; simpl.
    + apply IH, fold_narrowObservation_wellFormed, Hacc.
    + rewrite fold_narrowEvolution_None. discriminate.
Qed.

(** Every regime interval of the observed-data branch keeps the
    invariant. *)
Lemma narrowRegime_wellFormed stat tracker modifier interval :
  narrowRegime stat tracker modifier = Some interval -> wellFormed interval.
Proof.
  apply fold_narrowEvolution_wellFormed. left. exists 0, 31. repeat split; lia.
Qed.

(** The observed-data branch never fails on a tracker that has base
    stats for every evolution stage it has observations of. *)
Lemma narrowRegime_total stat tracker modifier :
  (forall evo statSegments,
      In (evo, statSegments) (recordedStats tracker) ->
      is_Some (array_get (baseStats tracker) evo)) ->
  is_Some (narrowRegime stat tracker modifier).
Proof.
  unfold narrowRegime. generalize (Num 0, Num 31).
  induction (recordedStats tracker) as [|[evo statSegments] stages IH]; intros acc Hbase.
  - now exists acc.
  - cbn [fold_left]. unfold narrowEvolution at 2. simpl.
    destruct (Hbase evo statSegments (or_introl eq_refl)) as [row ->]. simpl.
    apply IH. intros evo' segs Hin. apply (Hbase evo' segs). now right.
Qed.

(** ** An observation added anywhere *)

Lemma matchingStatsOf_mono stat tracker baseStat modifier a1 b1 a2 b2 level
    (statLine : StatLine) x :
  a2 <= a1 -> b1 <= b2 ->
  In x (matchingStatsOf stat tracker baseStat modifier (Num a1) (Num b1) level statLine) ->
  In x (matchingStatsOf stat tracker baseStat modifier (Num a2) (Num b2) level statLine).
Proof.
  unfold matchingStatsOf. intros Ha Hb Hin. apply filter_In in Hin as [Hin Hmatch].
  apply filter_In. split; [|exact Hmatch].
  apply range_between in Hin as (a & b & [= <-] & [= <-] & z & -> & Hz).
  apply range_complete. lia.
Qed.

Lemma contains_bounds a b iv :
  0 <= a -> (contains (Num a, Num b) iv <-> a <= iv <= b).
Proof.
  intros Ha. split.
  - intros [_ (x & y & [= <- <-] & Hiv)]. exact Hiv.
  - intros Hiv. split; [unfold sentinel; intros [= -> _]; lia|]. now exists a, b.
Qed.

(** The reducer is monotone in the running interval. *)
Lemma narrowObservation_mono stat tracker baseStat modifier acc1 acc2 entry :
  wellFormed acc1 -> wellFormed acc2 -> subinterval acc1 acc2 ->
  subinterval (narrowObservation stat tracker baseStat modifier acc1 entry)
    (narrowObservation stat tracker baseStat modifier acc2 entry).
Proof.
  intros [(a1 & b1 & -> & Ha1 & Hab1 & Hb1)| ->] Hwf2 Hsub.
  2: { rewrite narrowObservation_sentinel. intros iv [Hne _]. congruence. }
  destruct Hwf2 as [(a2 & b2 & -> & Ha2 & Hab2 & Hb2)| ->].
  2: { destruct (Hsub a1) as [Hne _]; [apply contains_bounds; lia | congruence]. }
  assert (a2 <= a1 /\ b1 <= b2) as [Hlo Hhi].
  { pose proof (proj1 (contains_bounds a2 b2 a1 Ha2) (Hsub a1 ltac:(apply contains_bounds; lia))).
    pose proof (proj1 (contains_bounds a2 b2 b1 Ha2) (Hsub b1 ltac:(apply contains_bounds; lia))).
    lia. }
  destruct entry as [level [statLine|]].
  2: { rewrite !narrowObservation_skip by (lia || exact I). exact Hsub. }
  destruct (falsy (statLine stat)) eqn:Htruthy.
  { rewrite !narrowObservation_skip by (lia || exact Htruthy). exact Hsub. }
  destruct (matchingStatsOf stat tracker baseStat modifier (Num a1) (Num b1) level statLine)
    as [|x l] eqn:Hmatching.
  { rewrite (narrowObservation_no_match _ _ _ _ a1) by (lia || assumption).
    intros iv [Hne _]. congruence. }
  destruct (narrowObservation_match stat tracker baseStat modifier a1 b1 level statLine)
    as (m1 & M1 & Hstep1 & ? & ? & ? & Hin1 & HIn1 & _);
    [lia | exact Htruthy | congruence |].
  apply (matchingStatsOf_mono _ _ _ _ _ _ a2 b2) in Hin1, HIn1; [|lia..].
  destruct (narrowObservation_match stat tracker baseStat modifier a2 b2 level statLine)
    as (m2 & M2 & Hstep2 & ? & ? & ? & _ & _ & Hbound2); [lia | exact Htruthy | |].
  { intros Hnone. rewrite Hnone in Hin1. contradiction. }
  apply Hbound2 in Hin1, HIn1. rewrite Hstep1, Hstep2.
  intros iv Hiv. apply contains_bounds in Hiv; [|lia]. apply contains_bounds; lia.
Qed.

Lemma fold_narrowObservation_mono stat tracker baseStat modifier observations acc1 acc2 :
  wellFormed acc1 -> wellFormed acc2 -> subinterval acc1 acc2 ->
  subinterval (fold_left (narrowObservation stat tracker baseStat modifier) observations acc1)
    (fold_left (narrowObservation stat tracker baseStat modifier) observations acc2).
Proof.
  revert acc1 acc2.
  induction observations as [|entry observations IH]; intros acc1 acc2 Hwf1 Hwf2 Hsub;
    [exact Hsub|].
  cbn [fold_left]. apply IH; try apply narrowObservation_wellFormed; try assumption.
  now apply narrowObservation_mono.
Qed.

(** Within a stage, one more observation, wherever its level puts it
    among the others, never widens the interval the stage ends with. *)
Lemma observation_inserted stat tracker baseStat modifier before entry after acc :
  wellFormed acc ->
  subinterval
    (fold_left (narrowObservation stat tracker baseStat modifier) (before ++ entry :: after) acc)
    (fold_left (narrowObservation stat tracker baseStat modifier) (before ++ after) acc).
Proof.
  intros Hwf. rewrite !fold_left_app. cbn [fold_left].
  apply fold_narrowObservation_mono.
  - apply narrowObservation_wellFormed, fold_narrowObservation_wellFormed, Hwf.
  - apply fold_narrowObservation_wellFormed, Hwf.
  - intros iv. apply narrowObservation_subset.
Qed.

Lemma fold_narrowEvolution_mono stat tracker modifier stages acc1 acc2 interval1 :
  wellFormed acc1 -> wellFormed acc2 -> subinterval acc1 acc2 ->
  fold_left (narrowEvolution stat tracker modifier) stages (Some acc1) = Some interval1 ->
  exists interval2,
    fold_left (narrowEvolution stat tracker modifier) stages (Some acc2) = Some interval2
    /\ subinterval interval1 interval2.
Proof.
  revert acc1 acc2.
  induction stages as [|[evo statSegments] stages IH]; intros acc1 acc2 Hwf1 Hwf2 Hsub.
  - simpl. intros [= <-]. now exists acc2.
  - cbn [fold_left]. unfold narrowEvolution at 2 4. simpl.
    destruct (array_get (baseStats tracker) evo) as [row|]; simpl.
    + apply IH; try apply fold_narrowObservation_wellFormed; try assumption.
      now apply fold_narrowObservation_mono.
    + rewrite fold_narrowEvolution_None. discriminate.
Qed.

(** Over the whole fold of a regime: an observation added to a stage
    leaves the fold defined where it was, with a result inside the one
    without the observation. *)
Lemma regime_observation_inserted stat tracker modifier
    earlier evo before entry after later acc interval' :
  wellFormed acc ->
  fold_left (narrowEvolution stat tracker modifier)
    (earlier ++ (evo, before ++ entry :: after) :: later) (Some acc) = Some interval' ->
  exists interval,
    fold_left (narrowEvolution stat tracker modifier)
      (earlier ++ (evo, before ++ after) :: later) (Some acc) = Some interval
    /\ subinterval interval' interval.
Proof.
  intros Hwf. rewrite !fold_left_app.
  destruct (fold_left (narrowEvolution stat tracker modifier) earlier (Some acc))
    as [acc'|] eqn:Hearlier.
  - apply fold_narrowEvolution_wellFormed in Hearlier; [|exact Hwf].
    cbn [fold_left]. unfold narrowEvolution at 2 4. simpl.
    destruct (array_get (baseStats tracker) evo) as [row|]; simpl.
    + apply fold_narrowEvolution_mono; try apply fold_narrowObservation_wellFormed;
        try assumption.
      now apply observation_inserted.
    + rewrite fold_narrowEvolution_None. discriminate.
  - cbn [fold_left]. simpl. rewrite fold_narrowEvolution_None. discriminate.
Qed.

(** C3. In the observed-data branch the sentinel is permanent: an
    observation folded into a finite running interval in which no IV
    matches it gives the sentinel; from the sentinel, folding any further
    observations of the stage gives the sentinel again; and over any
    further evolution stages the fold gives the sentinel whenever the
    tracker has base stats for them, and never any other interval. *)
Theorem sentinel_is_permanent stat tracker modifier :
  (forall baseStat a b level (statLine : StatLine),
      a <> -1 -> falsy (statLine stat) = false ->
      matchingStatsOf stat tracker baseStat modifier (Num a) (Num b) level statLine = [] ->
      narrowObservation stat tracker baseStat modifier (Num a, Num b) (level, Some statLine)
      = sentinel)
  /\ (forall baseStat observations,
         fold_left (narrowObservation stat tracker baseStat modifier) observations sentinel
         = sentinel)
  /\ (forall stages,
         (forall evo statSegments,
             In (evo, statSegments) stages -> is_Some (array_get (baseStats tracker) evo)) ->
         fold_left (narrowEvolution stat tracker modifier) stages (Some sentinel)
         = Some sentinel)
  /\ (forall stages interval,
         fold_left (narrowEvolution stat tracker modifier) stages (Some sentinel)
         = Some interval ->
         interval = sentinel).
Proof.
  repeat split.
  - intros baseStat a b level statLine. apply narrowObservation_no_match.
  - intros. apply fold_narrowObservation_sentinel.
  - induction stages as [|[evo statSegments] stages IH]; [reflexivity|].
    intros Hbase. simpl.
    destruct (Hbase evo statSegments (or_introl eq_refl)) as [row ->]. simpl.
    rewrite fold_narrowObservation_sentinel. apply IH.
    intros evo' segs Hin. apply (Hbase evo' segs). now right.
  - induction stages as [|[evo statSegments] stages IH]; intros interval.
    + simpl. now intros [= <-].
    + simpl. destruct (array_get (baseStats tracker) evo) as [row|]; simpl.
      * rewrite fold_narrowObservation_sentinel. apply IH.
      * rewrite fold_narrowEvolution_None. discriminate.
Qed.

(** C6. Folding one more observation into a running interval never
    widens it: the result is the same interval, or the sentinel, or a
    strictly narrower integer interval inside it; so every IV of the
    result is an IV of the interval before. *)
Theorem narrowing_is_monotonic stat tracker baseStat modifier acc entry :
  (narrowObservation stat tracker baseStat modifier acc entry = acc
   \/ narrowObservation stat tracker baseStat modifier acc entry = sentinel
   \/ exists a b a' b',
        acc = (Num a, Num b)
        /\ narrowObservation stat tracker baseStat modifier acc entry = (Num a', Num b')
        /\ a <= a' /\ a' <= b' /\ b' <= b /\ (a < a' \/ b' < b))
  /\ (forall iv,
         contains (narrowObservation stat tracker baseStat modifier acc entry) iv ->
         contains acc iv).
Proof.
  destruct (narrowObservation_cases stat tracker baseStat modifier acc entry)
    as [Heq|[Hs|(a & b & a' & b' & Hacc & Hr & Hlo & Hmid & Hhi)]].
  - split; [now left|]. now rewrite Heq.
  - split; [right; now left|]. rewrite Hs. intros iv [Hne _]. congruence.
  - split.
    + destruct (Z.eq_dec a a') as [<-|Ha]; [destruct (Z.eq_dec b b') as [<-|Hb]|].
      * left. congruence.
      * right; right. exists a, b, a, b'. repeat split; auto; lia.
      * right; right. exists a, b, a', b'. repeat split; auto; lia.
    + rewrite Hr, Hacc. intros iv [Hne (x & y & [= <- <-] & Hiv)].
      split.
      * intros Hsentinel. apply Hne. rewrite <- Hr, Hacc, Hsentinel.
        apply narrowObservation_sentinel.
      * exists a, b. split; [reflexivity | lia].
Qed.

(** ** The combined interval *)

(** The combined interval over a list of regime intervals that keep the
    invariant is a sub-range of [[0, 31]], unless every one of them is
    the sentinel: then no bound is left after the filter, and the result
    is [[Infinity, -Infinity]]. *)
Lemma combined_of_wellFormed (ranges : list Interval) :
  Forall wellFormed ranges ->
  let combined :=
    (Math_min (List.filter (fun value => strict_neq value (Num (-1))) (map fst ranges)),
     Math_max (List.filter (fun value => strict_neq value (Num (-1))) (map snd ranges))) in
  (exists a b, combined = (Num a, Num b) /\ 0 <= a /\ a <= b /\ b <= 31)
  \/ (Forall (fun interval => interval = sentinel) ranges
      /\ combined = (Infinity, NegInfinity)).
Proof.
  induction 1 as [|interval ranges Hwf _ IH]; [right; split; [constructor | reflexivity]|].
  cbn zeta in IH |- *.
  destruct Hwf as [(a & b & -> & ? & ? & ?)| ->].
  - left. cbn [map fst snd List.filter].
    assert (strict_neq (Num a) (Num (-1)) = true) as ->
        by (unfold strict_neq; simpl; destruct (Z.eqb_spec a (-1)); [lia | reflexivity]).
    assert (strict_neq (Num b) (Num (-1)) = true) as ->
        by (unfold strict_neq; simpl; destruct (Z.eqb_spec b (-1)); [lia | reflexivity]).
    unfold Math_min, Math_max in IH |- *. cbn [fold_right].
    destruct IH as [(a' & b' & [= -> ->] & ? & ? & ?)|[_ [= -> ->]]].
    + exists (Z.min a a'), (Z.max b b'). simpl. repeat split; lia.
    + exists a, b. simpl. repeat split; lia.
  - cbn [map fst snd List.filter sentinel]. simpl strict_neq. cbn iota.
    destruct IH as [IH|[Hall IH]]; [left; exact IH | right].
    split; [constructor; [reflexivity | exact Hall] | exact IH].
Qed.

Lemma modifierSetOf_Some stat tracker modifierSet :
  modifierSetOf stat tracker = Some modifierSet ->
  exists negative neutral positive,
    narrowRegime stat tracker (9 # 10) = Some negative
    /\ narrowRegime stat tracker (1 # 1) = Some neutral
    /\ narrowRegime stat tracker (11 # 10) = Some positive
    /\ modifierSet key_negative = Some negative
    /\ modifierSet key_neutral = Some neutral
    /\ modifierSet key_positive = Some positive.
Proof.
  unfold modifierSetOf, NATURE_MODIFIERS. cbn [fold_left]. simpl.
  destruct (narrowRegime stat tracker (9 # 10)) as [negative|]; [|discriminate].
  destruct (narrowRegime stat tracker (1 # 1)) as [neutral|]; [|discriminate].
  destruct (narrowRegime stat tracker (11 # 10)) as [positive|]; [|discriminate].
  simpl. intros [= <-]. exists negative, neutral, positive. repeat split.
Qed.

(** In the observed-data branch the three regime intervals keep the
    invariant, and so does the combined interval unless the three of
    them are the sentinel. *)
Lemma observed_ranges_invariant stat tracker ranges :
  staticIVs tracker stat = Num (-1) ->
  directInput tracker = false ->
  calculatePossibleIVRange stat tracker = Some ranges ->
  wellFormed (negative ranges) /\ wellFormed (neutral ranges) /\ wellFormed (positive ranges)
  /\ (wellFormed (combined ranges)
      \/ (negative ranges = sentinel /\ neutral ranges = sentinel
          /\ positive ranges = sentinel /\ combined ranges = (Infinity, NegInfinity))).
Proof.
  intros Hstatic Hdirect. unfold calculatePossibleIVRange. rewrite Hstatic, Hdirect. simpl.
  destruct (modifierSetOf stat tracker) as [modifierSet|] eqn:Hset; [|discriminate].
  apply modifierSetOf_Some in Hset
    as (negative & neutral & positive & Hn & Hu & Hp & Hkn & Hku & Hkp).
  simpl. rewrite Hkn, Hku, Hkp. simpl. intros [= <-]. simpl.
  apply narrowRegime_wellFormed in Hn, Hu, Hp.
  repeat split; try assumption.
  assert (Forall wellFormed [positive; negative; neutral]) as Hregimes
      by (repeat (apply List.Forall_cons; [assumption|]); apply List.Forall_nil).
  destruct (combined_of_wellFormed _ Hregimes) as [Hvalid|[Hall Hcombined]].
  - left. left. exact Hvalid.
  - right. inversion Hall as [|? ? -> Hall']. inversion Hall' as [|? ? -> Hall''].
    inversion Hall'' as [|? ? -> _]. repeat split.
Qed.

(** The second pass of [calculateAllPossibleIVRanges] keeps the regime
    intervals and recomputes the combined one over the regimes the
    confirmed nature leaves: a sub-range of [[0, 31]], or
    [[Infinity, -Infinity]] when each of them is the sentinel. *)
Lemma recombine_invariant confirmedNegative confirmedPositive stat ranges :
  wellFormed (negative ranges) -> wellFormed (neutral ranges) -> wellFormed (positive ranges) ->
  negative (recombine confirmedNegative confirmedPositive stat ranges) = negative ranges
  /\ neutral (recombine confirmedNegative confirmedPositive stat ranges) = neutral ranges
  /\ positive (recombine confirmedNegative confirmedPositive stat ranges) = positive ranges
  /\ (wellFormed (combined (recombine confirmedNegative confirmedPositive stat ranges))
      \/ combined (recombine confirmedNegative confirmedPositive stat ranges)
         = (Infinity, NegInfinity)).
Proof.
  intros Hn Hu Hp. do 3 (split; [reflexivity|]).
  assert (Forall wellFormed (relevantRangesOf confirmedNegative confirmedPositive stat ranges))
    as Hrelevant.
  { unfold relevantRangesOf.
    repeat (apply Forall_app; split);
      match goal with |- Forall _ (if ?c then _ else _) => destruct c end;
      repeat (apply List.Forall_cons; [assumption|]); apply List.Forall_nil. }
  destruct (combined_of_wellFormed _ Hrelevant) as [Hvalid|[_ Hcombined]].
  - left. left. exact Hvalid.
  - right. exact Hcombined.
Qed.

(** Every branch of [calculatePossibleIVRange], for a static and a
    direct-input IV between 0 and 31: the regime intervals keep the
    invariant, and so does the combined interval outside the one case
    of observed data that contradict the three regimes. *)
Lemma calculatePossibleIVRange_invariant stat tracker ranges :
  staticIVs tracker stat = Num (-1) \/ between 0 31 (staticIVs tracker stat) ->
  (directInput tracker = true -> between 0 31 (directInputIVs tracker stat)) ->
  calculatePossibleIVRange stat tracker = Some ranges ->
  wellFormed (negative ranges) /\ wellFormed (neutral ranges) /\ wellFormed (positive ranges)
  /\ (wellFormed (combined ranges)
      \/ (negative ranges = sentinel /\ neutral ranges = sentinel
          /\ positive ranges = sentinel /\ combined ranges = (Infinity, NegInfinity))).
Proof.
  intros Hstatic Hdirect Hranges.
  assert (forall z (c : bool), 0 <= z <= 31 ->
             wellFormed (if c then (Num z, Num z) else (Num (-1), Num (-1)))) as Hclamped.
  { intros z [|] Hz; [left; exists z, z; repeat split; lia | now right]. }
  destruct Hstatic as [Hstatic|(z & Hz & Hstatic)].
  - destruct (directInput tracker) eqn:Hmode.
    + destruct (Hdirect eq_refl) as (d & Hd & Hbounds).
      revert Hranges. unfold calculatePossibleIVRange. rewrite Hstatic, Hmode, Hd. simpl.
      intros [= <-]. simpl. repeat split; try (apply Hclamped; lia).
      left. left. exists d, d. repeat split; lia.
    + exact (observed_ranges_invariant stat tracker ranges Hstatic Hmode Hranges).
  - revert Hranges. unfold calculatePossibleIVRange. rewrite Hz.
    assert (strict_neq (Num z) (Num (-1)) = true) as ->
        by (unfold strict_neq; simpl; destruct (Z.eqb_spec z (-1)); [lia | reflexivity]).
    intros [= <-]. simpl. repeat split; try (apply Hclamped; lia).
    left. left. exists z, z. repeat split; lia.
Qed.

Lemma statRecordOf_Some {T} (f : Stat -> option T) (record : StatRecord T) :
  statRecordOf f = Some record -> forall stat, f stat = Some (record stat).
Proof.
  unfold statRecordOf.
  destruct (f hp) eqn:?, (f attack) eqn:?, (f defense) eqn:?, (f spAttack) eqn:?,
    (f spDefense) eqn:?, (f speed) eqn:?; simpl; try discriminate.
  intros [= <-] [| | | | |]; assumption.
Qed.

(** The same over the six stats, for [calculateAllPossibleIVRanges]: the
    regime intervals keep the invariant; the combined interval keeps
    it, or is [[Infinity, -Infinity]]. *)
Lemma calculateAllPossibleIVRanges_invariant tracker allRanges :
  (forall stat,
      staticIVs tracker stat = Num (-1) \/ between 0 31 (staticIVs tracker stat)) ->
  (directInput tracker = true -> forall stat, between 0 31 (directInputIVs tracker stat)) ->
  calculateAllPossibleIVRanges tracker = Some allRanges ->
  forall stat,
    wellFormed (negative (allRanges stat)) /\ wellFormed (neutral (allRanges stat))
    /\ wellFormed (positive (allRanges stat))
    /\ (wellFormed (combined (allRanges stat))
        \/ combined (allRanges stat) = (Infinity, NegInfinity)).
Proof.
  intros Hstatic Hdirect. unfold calculateAllPossibleIVRanges.
  destruct (statRecordOf (fun stat => calculatePossibleIVRange stat tracker))
    as [preliminaryResults|] eqn:Hpreliminary; [|discriminate].
  simpl.
  destruct (if generation tracker <=? 2 then _ else _)
    as [confirmedNegative confirmedPositive].
  intros Hall stat.
  apply statRecordOf_Some with (stat := stat) in Hall. injection Hall as <-.
  apply statRecordOf_Some with (stat := stat) in Hpreliminary.
  destruct (calculatePossibleIVRange_invariant stat tracker _ (Hstatic stat)
              (fun Hmode => Hdirect Hmode stat) Hpreliminary) as (Hn & Hu & Hp & _).
  destruct (recombine_invariant confirmedNegative confirmedPositive stat
              (preliminaryResults stat) Hn Hu Hp) as (-> & -> & -> & Hcombined).
  repeat split; assumption.
Qed.

(** ** Direct input *)

(** C2. In direct-input mode without a static nature the three [clamp]
    flags are set, so the [restrict] flags computed from the pinned
    stats are never consulted: every regime interval, also one the pins
    exclude, is the single entered IV. *)
Theorem directInput_ignores_pinned_stats stat tracker :
  staticIVs tracker stat = Num (-1) ->
  directInput tracker = true ->
  staticNature tracker = None ->
  calculatePossibleIVRange stat tracker
  = Some {| negative := (directInputIVs tracker stat, directInputIVs tracker stat);
            neutral := (directInputIVs tracker stat, directInputIVs tracker stat);
            positive := (directInputIVs tracker stat, directInputIVs tracker stat);
            combined := (directInputIVs tracker stat, directInputIVs tracker stat) |}.
Proof.
  intros Hstatic Hdirect Hnature.
  unfold calculatePossibleIVRange, staticNatureDefinition.
  rewrite Hstatic, Hdirect, Hnature. reflexivity.
Qed.

(** ** Nature inference *)

(** C5. Without a static nature definition, when the negative regime of
    every stat but HP starts at -1 (as the sentinel does), or the
    positive regime of every stat but HP does, [calculatePossibleNature]
    returns the pair [('attack', 'attack')]. *)
Theorem calculatePossibleNature_fallback ivRanges tracker :
  staticNatureDefinition tracker = None ->
  (forall stat, stat <> hp -> fst (negative (ivRanges stat)) = Num (-1))
  \/ (forall stat, stat <> hp -> fst (positive (ivRanges stat)) = Num (-1)) ->
  calculatePossibleNature ivRanges tracker = (Some attack, Some attack).
Proof.
  intros Hstatic Hnone. unfold calculatePossibleNature. rewrite Hstatic.
  cbv zeta.
  destruct Hnone as [Hnone|Hnone].
  - replace (List.filter _ (Object_entries ivRanges)) with (@nil (Stat * IVRangeSet)) at 1;
      [reflexivity|].
    unfold Object_entries, STATS. cbn [map List.filter].
    rewrite (Hnone attack), (Hnone defense), (Hnone spAttack), (Hnone spDefense),
      (Hnone speed) by discriminate.
    reflexivity.
  - match goal with
    | |- (if _ || (length ?l =? 0)%nat then _ else _) = _ =>
        replace l with (@nil (Stat * IVRangeSet)); [now rewrite orb_true_r|]
    end.
    unfold Object_entries, STATS. cbn [map List.filter].
    rewrite (Hnone attack), (Hnone defense), (Hnone spAttack), (Hnone spDefense),
      (Hnone speed) by discriminate.
    reflexivity.
Qed.

(** ** Hidden power *)

Lemma calculateOddnessProbababilityOfStat_nonneg ivRange stat confirmedNature odd :
  (0 <= calculateOddnessProbababilityOfStat ivRange stat confirmedNature odd)%Q.
Proof.
  unfold calculateOddnessProbababilityOfStat.
  destruct (length (getUniqueIVValuesInRangeSet ivRange stat confirmedNature) =? 0)%nat.
  - apply Qle_refl.
  - unfold Qle. simpl. lia.
Qed.

Lemma calculateHiddenPowerProbability_nonneg ivs confirmedNature a b c d e f :
  (0 <= calculateHiddenPowerProbability ivs confirmedNature a b c d e f)%Q.
Proof.
  unfold calculateHiddenPowerProbability.
  repeat apply Qmult_le_0_compat; apply calculateOddnessProbababilityOfStat_nonneg.
Qed.

Lemma probabilityOf_nonneg ivs confirmedNature combination :
  (0 <= probabilityOf ivs confirmedNature combination)%Q.
Proof.
  destruct combination as [[[[[a b] c] d] e] f].
  apply calculateHiddenPowerProbability_nonneg.
Qed.

Lemma mostProbable_cases acc value :
  (mostProbable acc value = value /\ (fst acc < fst value)%Q)
  \/ (mostProbable acc value = acc /\ (fst value <= fst acc)%Q).
Proof.
  unfold mostProbable, Qgtb.
  destruct (Qle_bool (fst value) (fst acc)) eqn:Hle; simpl.
  - right. split; [reflexivity|]. now apply Qle_bool_iff.
  - left. split; [reflexivity|]. apply Qnot_le_lt. intros H.
    apply Qle_bool_iff in H. congruence.
Qed.

(** The reducer returns the start value or one of the folded values, of
    a probability no smaller than any of them. *)
Lemma fold_mostProbable_max values acc :
  (fold_left mostProbable values acc = acc \/ In (fold_left mostProbable values acc) values)
  /\ (fst acc <= fst (fold_left mostProbable values acc))%Q
  /\ (forall value, In value values ->
        (fst value <= fst (fold_left mostProbable values acc))%Q).
Proof.
  revert acc. induction values as [|value values IH]; intros acc.
  - simpl. repeat split; [now left | apply Qle_refl | tauto].
  - cbn [fold_left].
    destruct (IH (mostProbable acc value)) as (Hin & Hle & Hmax).
    destruct (mostProbable_cases acc value) as [[Heq Hlt]|[Heq Hge]];
      rewrite Heq in Hin, Hle, Hmax |- *.
    + repeat split.
      * destruct Hin as [->|Hin]; right; [now left | now right].
      * eapply Qle_trans; [apply Qlt_le_weak, Hlt | exact Hle].
      * intros v [<-|Hv]; [exact Hle | now apply Hmax].
    + repeat split.
      * destruct Hin as [->|Hin]; [now left | right; now right].
      * exact Hle.
      * intros v [<-|Hv]; [eapply Qle_trans; eassumption | now apply Hmax].
Qed.

(** It keeps the start value when no folded value is more probable. *)
Lemma fold_mostProbable_keeps values acc :
  (forall value, In value values -> (fst value <= fst acc)%Q) ->
  fold_left mostProbable values acc = acc.
Proof.
  induction values as [|value values IH]; intros Hle; [reflexivity|].
  cbn [fold_left].
  destruct (mostProbable_cases acc value) as [[_ Hlt]|[-> _]].
  - exfalso. eapply Qlt_not_le; [exact Hlt|]. apply Hle. now left.
  - apply IH. intros v Hv. apply Hle. now right.
Qed.

Lemma CartesianProduct_complete (combination : StatLSBSet) : In combination CartesianProduct.
Proof.
  destruct combination as [[[[[[|] [|]] [|]] [|]] [|]] [|]];
    vm_compute; repeat (first [left; reflexivity | right]).
Qed.

Lemma hiddenPowerIndex_bounds combination : 0 <= hiddenPowerIndex combination <= 15.
Proof.
  destruct combination as [[[[[[|] [|]] [|]] [|]] [|]] [|]]; vm_compute; split; discriminate.
Qed.

Lemma HIDDEN_POWER_TYPES_defined index :
  0 <= index <= 15 ->
  exists name, array_get HIDDEN_POWER_TYPES index = Some name /\ In name HIDDEN_POWER_TYPES.
Proof.
  intros Hindex.
  assert (In index [0; 1; 2; 3; 4; 5; 6; 7; 8; 9; 10; 11; 12; 13; 14; 15]) as Hin
      by (simpl; lia).
  simpl in Hin.
  repeat (destruct Hin as [<-|Hin];
          [eexists; split; [reflexivity | simpl; tauto]|]).
  contradiction.
Qed.

(** C4. [calculateHiddenPowerType] returns [null] exactly when every one
    of the 64 parity combinations has probability zero; any other
    result is the name at an index between 0 and 15 of the 16 names of
    [HIDDEN_POWER_TYPES], the index being the one the weighted sum of
    the most probable combination gives. *)
Theorem calculateHiddenPowerType_null_iff ivs confirmedNature :
  length CartesianProduct = 64%nat
  /\ (calculateHiddenPowerType ivs confirmedNature = None
      <-> forall hpOdd attackOdd defenseOdd spAttackOdd spDefenseOdd speedOdd,
            (calculateHiddenPowerProbability ivs confirmedNature
               hpOdd attackOdd defenseOdd spAttackOdd spDefenseOdd speedOdd == 0)%Q)
  /\ (forall result,
         calculateHiddenPowerType ivs confirmedNature = Some result ->
         exists combination name,
           snd (mostProbableCombination ivs confirmedNature) = Some combination
           /\ 0 <= hiddenPowerIndex combination <= 15
           /\ result = Some name
           /\ array_get HIDDEN_POWER_TYPES (hiddenPowerIndex combination) = Some name
           /\ In name HIDDEN_POWER_TYPES)
  /\ length HIDDEN_POWER_TYPES = 16%nat.
Proof.
  split; [reflexivity|]. split; [|split; [|reflexivity]].
  - unfold calculateHiddenPowerType, mostProbableCombination.
    set (values := map _ CartesianProduct).
    split.
    + intros Hnull a b c d e f.
      destruct (fold_mostProbable_max values (0%Q, None)) as (Hin & _ & Hmax).
      destruct Hin as [Heq|Hin].
      * apply Qle_antisym; [|apply calculateHiddenPowerProbability_nonneg].
        specialize (Hmax (probabilityOf ivs confirmedNature (a, b, c, d, e, f),
                          Some (a, b, c, d, e, f))).
        rewrite Heq in Hmax. apply Hmax.
        apply in_map_iff. exists (a, b, c, d, e, f). split; [reflexivity|].
        apply CartesianProduct_complete.
      * apply in_map_iff in Hin as (combination & Heq & _).
        rewrite <- Heq in Hnull. discriminate.
    + intros Hzero. rewrite fold_mostProbable_keeps; [reflexivity|].
      intros value Hin. apply in_map_iff in Hin as ([[[[[a b] c] d] e] f] & <- & _).
      simpl. rewrite (Hzero a b c d e f). apply Qle_refl.
  - intros result. unfold calculateHiddenPowerType.
    destruct (snd (mostProbableCombination ivs confirmedNature)) as [combination|];
      [|discriminate].
    intros [= <-].
    destruct (HIDDEN_POWER_TYPES_defined (hiddenPowerIndex combination)
                (hiddenPowerIndex_bounds combination)) as (name & Hname & Hin).
    exists combination, name. repeat split;
      try apply hiddenPowerIndex_bounds; assumption.
Qed.

(** ** Decimal digits *)

Lemma append_cons c (s1 s2 : string) : String c s1 +:+ s2 = String c (s1 +:+ s2).
Proof. reflexivity. Qed.

Lemma append_empty (s : string) : EmptyString +:+ s = s.
Proof. reflexivity. Qed.

Lemma append_assoc (s1 s2 s3 : string) : (s1 +:+ s2) +:+ s3 = s1 +:+ s2 +:+ s3.
Proof.
  induction s1 as [|c s1 IH]; [reflexivity|].
  rewrite !append_cons. f_equal. exact IH.
Qed.

Lemma length_append (s1 s2 : string) :
  String.length (s1 +:+ s2) = (String.length s1 + String.length s2)%nat.
Proof.
  induction s1 as [|c s1 IH]; [reflexivity|].
  rewrite append_cons. simpl. f_equal. exact IH.
Qed.

Lemma digits_value_snoc ds d : digits_value (ds ++ [d]) = digits_value ds * 10 + d.
Proof. unfold digits_value. now rewrite fold_left_app. Qed.

Lemma digit_cases d : 0 <= d <= 9 -> In d [0; 1; 2; 3; 4; 5; 6; 7; 8; 9].
Proof. simpl. lia. Qed.

Lemma digit_of_digitChar d : 0 <= d <= 9 -> digit_of (digitChar d) = Some d.
Proof.
  intros Hd. apply digit_cases in Hd. simpl in Hd.
  repeat (destruct Hd as [<-|Hd]; [reflexivity|]). contradiction.
Qed.

(** The fuel [decimalText] gives is enough: [n < 10 * 2 ^ fuel]. *)
Lemma decimalDigits_spec fuel n :
  0 <= n < 10 * 2 ^ Z.of_nat fuel ->
  digits_value (decimalDigits fuel n) = n
  /\ Forall (fun d => 0 <= d <= 9) (decimalDigits fuel n)
  /\ exists d ds, decimalDigits fuel n = d :: ds /\ (d = 0 -> n = 0 /\ ds = []).
Proof.
  revert n. induction fuel as [|fuel IH]; intros n Hn.
  - simpl in Hn |- *. destruct (Z.ltb_spec n 10); [|lia].
    repeat split; [repeat constructor; lia|]. exists n, []. auto.
  - cbn [decimalDigits]. destruct (Z.ltb_spec n 10).
    + repeat split; [repeat constructor; lia|]. exists n, []. auto.
    + destruct (IH (n / 10)) as (Hvalue & Hdigits & d & ds & Heq & Hzero).
      { split; [apply Z.div_pos; lia|].
        apply Z.div_lt_upper_bound; [lia|].
        rewrite Nat2Z.inj_succ, Z.pow_succ_r in Hn by lia. lia. }
      repeat split.
      * rewrite digits_value_snoc, Hvalue.
        pose proof (Z.div_mod n 10). lia.
      * apply Forall_app. split; [exact Hdigits|].
        apply List.Forall_cons; [|apply List.Forall_nil].
        pose proof (Z.mod_pos_bound n 10). lia.
      * exists d, (ds ++ [n mod 10]). rewrite Heq. split; [reflexivity|].
        intros Hd. destruct (Hzero Hd) as [Hdiv _].
        assert (n / 10 > 0) by (apply Z.lt_gt, Z.div_str_pos; lia). lia.
Qed.

Lemma decimalText_fuel n :
  0 <= n -> 0 <= n < 10 * 2 ^ Z.of_nat (Z.to_nat (Z.log2 n)).
Proof.
  intros Hn. split; [exact Hn|].
  rewrite Z2Nat.id by apply Z.log2_nonneg.
  destruct (Z.eq_dec n 0) as [->|]; [simpl; lia|].
  pose proof (Z.log2_spec n ltac:(lia)) as [_ Hlt].
  rewrite Z.pow_succ_r in Hlt by apply Z.log2_nonneg. lia.
Qed.

(** Reading back the digits [decimalText] wrote, up to a character
    that is no digit. *)
Lemma span_digits_written ds rest :
  Forall (fun d => 0 <= d <= 9) ds ->
  fst (span_digits rest) = [] ->
  span_digits (string_of_list_ascii (map digitChar ds) +:+ rest) = (ds, snd (span_digits rest)).
Proof.
  intros Hds Hrest. induction Hds as [|d ds Hd _ IH].
  - simpl. rewrite append_empty. destruct (span_digits rest). simpl in Hrest |- *. now subst.
  - cbn [map string_of_list_ascii]. rewrite append_cons. cbn [span_digits].
    rewrite (digit_of_digitChar d Hd), IH. reflexivity.
Qed.

(** ** Rounding to a double *)

(** An integer of magnitude at most 2^53 is its own double. *)
Lemma roundToDouble_exact z : Z.abs z <= 2 ^ 53 -> roundToDouble z = Num z.
Proof.
  intros Hz. unfold roundToDouble.
  destruct (Z.eq_dec (Z.abs z) (2 ^ 53)) as [Hmax|Hless].
  - assert (z = 2 ^ 53 \/ z = - 2 ^ 53) as [-> | ->] by lia; vm_compute; reflexivity.
  - assert (Z.log2 (Z.abs z) + 1 - 53 <= 0) as Hexcess.
    { destruct (Z.eq_dec (Z.abs z) 0) as [->|Hpositive]; [simpl; lia|].
      assert (Z.log2 (Z.abs z) < 53); [|lia].
      apply Z.log2_lt_pow2; lia. }
    apply Z.leb_le in Hexcess. now rewrite Hexcess.
Qed.

Lemma roundToDouble_not_NaN z : roundToDouble z <> NaN.
Proof.
  unfold roundToDouble. cbv zeta.
  destruct (_ <=? 0); [discriminate|].
  destruct (2 ^ 1024 <=? _); [destruct (z <? 0); discriminate | discriminate].
Qed.

(** ** The route variable cast *)

Lemma trimStart_split s :
  exists whiteSpace,
    s = whiteSpace +:+ trimStart s /\ allStrWhiteSpace whiteSpace = true.
Proof.
  induction s as [|c s (whiteSpace & Heq & Hws)].
  - exists EmptyString. auto.
  - simpl. destruct (isStrWhiteSpaceChar c) eqn:Hc.
    + exists (String c whiteSpace). rewrite append_cons, <- Heq. simpl.
      rewrite Hc, Hws. auto.
    + exists EmptyString. auto.
Qed.

Lemma span_digits_nonempty s :
  fst (span_digits s) <> [] ->
  exists digit rest, s = String digit rest /\ is_Some (digit_of digit).
Proof.
  destruct s as [|c s]; simpl; [congruence|].
  destruct (digit_of c) as [d|] eqn:Hc; [|simpl; congruence].
  intros _. exists c, s. rewrite Hc. eauto.
Qed.

(** [parseInt(value, 10)] is [NaN] exactly on the strings without a
    leading integer. *)
Lemma parseInt_10_NaN value : parseInt_10 value = NaN <-> ~ hasLeadingInteger value.
Proof.
  unfold parseInt_10. split.
  - intros HNaN (whiteSpace & sign & digit & rest & -> & Hws & Hsign & [d Hd]).
    assert (trimStart (whiteSpace +:+ sign +:+ String digit rest)
            = sign +:+ String digit rest) as Htrim.
    { clear HNaN. induction whiteSpace as [|c whiteSpace IH].
      - simpl. destruct Hsign as [->|[->| ->]]; simpl; [|reflexivity..].
        destruct (isStrWhiteSpaceChar digit) eqn:Hc; [|reflexivity].
        exfalso. revert Hd Hc. unfold digit_of, isStrWhiteSpaceChar.
        destruct (48 <=? nat_of_ascii digit)%nat eqn:H48; [|discriminate].
        apply Nat.leb_le in H48. intros _ Hc.
        apply orb_true_iff in Hc as [Hc|Hc].
        + apply andb_true_iff in Hc as [_ Hc]. apply Nat.leb_le in Hc. lia.
        + apply Nat.eqb_eq in Hc. lia.
      - simpl in Hws. apply andb_true_iff in Hws as [Hc Hws].
        simpl. rewrite Hc. apply IH, Hws. }
    rewrite Htrim in HNaN.
    destruct Hsign as [->|[->| ->]]; simpl in HNaN; rewrite ?Hd in HNaN.
    + destruct digit as [[|] [|] [|] [|] [|] [|] [|] [|]]; simpl in HNaN;
        try discriminate; rewrite ?Hd in HNaN;
        destruct (span_digits rest); exact (roundToDouble_not_NaN _ HNaN).
    + destruct (span_digits rest); exact (roundToDouble_not_NaN _ HNaN).
    + destruct (span_digits rest); exact (roundToDouble_not_NaN _ HNaN).
  - intros Hnone.
    destruct (trimStart_split value) as (whiteSpace & Heq & Hws).
    set (trimmed := trimStart value) in Heq |- *.
    assert (forall sign unsigned,
               trimmed = sign +:+ unsigned ->
               sign = EmptyString \/ sign = "+"%string \/ sign = "-"%string ->
               fst (span_digits unsigned) = []) as Hdigits.
    { intros sign unsigned Htrimmed Hsign.
      destruct (fst (span_digits unsigned)) as [|d ds] eqn:Hspan; [reflexivity|].
      exfalso. apply Hnone.
      destruct (span_digits_nonempty unsigned) as (digit & rest & -> & Hdigit);
        [rewrite Hspan; discriminate|].
      exists whiteSpace, sign, digit, rest. rewrite <- Htrimmed. auto. }
    destruct trimmed as [|c rest] eqn:Htrimmed.
    + reflexivity.
    + destruct (Ascii.eqb_spec c "-") as [->|Hminus];
        [|destruct (Ascii.eqb_spec c "+") as [->|Hplus]].
      * now rewrite (Hdigits "-"%string rest) by auto.
      * now rewrite (Hdigits "+"%string rest) by auto.
      * assert (fst (span_digits (String c rest)) = []) as Hspan
            by (apply (Hdigits EmptyString); auto).
        destruct c as [[|] [|] [|] [|] [|] [|] [|] [|]];
          try congruence; now rewrite Hspan.
Qed.

Lemma append_empty_r (s : string) : s +:+ EmptyString = s.
Proof. induction s as [|c s IH]; [reflexivity|]. rewrite append_cons. now f_equal. Qed.

Lemma span_digits_all ds :
  Forall (fun d => 0 <= d <= 9) ds ->
  span_digits (string_of_list_ascii (map digitChar ds)) = (ds, EmptyString).
Proof.
  intros Hds. rewrite <- (append_empty_r (string_of_list_ascii _)).
  now rewrite span_digits_written.
Qed.

Lemma digitChar_plain d :
  0 <= d <= 9 ->
  isStrWhiteSpaceChar (digitChar d) = false
  /\ digitChar d <> "-"%char /\ digitChar d <> "+"%char.
Proof.
  intros Hd. apply digit_cases in Hd. simpl in Hd.
  repeat (destruct Hd as [<-|Hd]; [repeat split; discriminate|]). contradiction.
Qed.

Lemma parseInt_10_unsigned c rest :
  isStrWhiteSpaceChar c = false -> c <> "-"%char -> c <> "+"%char ->
  parseInt_10 (String c rest)
  = match fst (span_digits (String c rest)) with
    | [] => NaN
    | digits => roundToDouble (1 * digits_value digits)
    end.
Proof.
  intros Hws Hminus Hplus. unfold parseInt_10. cbn [trimStart]. rewrite Hws.
  destruct c as [[|] [|] [|] [|] [|] [|] [|] [|]]; congruence.
Qed.

Lemma parseInt_10_digits d ds :
  0 <= d <= 9 -> Forall (fun d => 0 <= d <= 9) ds ->
  parseInt_10 (string_of_list_ascii (map digitChar (d :: ds)))
  = roundToDouble (digits_value (d :: ds))
  /\ parseInt_10 (String "-" (string_of_list_ascii (map digitChar (d :: ds))))
     = roundToDouble (- digits_value (d :: ds)).
Proof.
  intros Hd Hds.
  assert (Hspan := span_digits_all (d :: ds) (List.Forall_cons _ d ds Hd Hds)).
  split.
  - destruct (digitChar_plain d Hd) as (Hws & Hminus & Hplus).
    cbn [map string_of_list_ascii] in Hspan |- *.
    rewrite parseInt_10_unsigned, Hspan by assumption. cbn [fst]. f_equal; lia.
  - unfold parseInt_10. cbn [trimStart]. cbv iota beta.
    change (isStrWhiteSpaceChar "-") with false. cbv iota.
    rewrite Hspan. cbn [fst]. f_equal; lia.
Qed.

(** [parseInt] of the decimal writing of an integer of magnitude at
    most 2^53 is that integer. *)
Lemma parseInt_10_decimalText z :
  Z.abs z <= 2 ^ 53 -> parseInt_10 (decimalText z) = Num z.
Proof.
  intros Hz. rewrite <- (roundToDouble_exact z Hz). unfold decimalText.
  destruct (decimalDigits_spec _ _ (decimalText_fuel (Z.abs z) (Z.abs_nonneg z)))
    as (Hvalue & Hdigits & d & ds & Heq & _).
  rewrite Heq in Hvalue, Hdigits |- *. inversion Hdigits as [|? ? Hd Hds]; subst.
  destruct (parseInt_10_digits d ds Hd Hds) as [Hplus Hminus].
  destruct (Z.ltb_spec z 0).
  - change ("-" +:+ ?s)%string with (String "-" s). rewrite Hminus, Hvalue. f_equal. lia.
  - rewrite append_empty, Hplus, Hvalue. f_equal. lia.
Qed.

(** C9. [castRouteVariableAsType] returns [undefined] on an undefined
    value whatever the type tag; on a string it returns
    [parseInt(value, 10)] for the tag ['number'] (the integer itself
    when the string is the decimal writing of an integer of magnitude
    at most 2^53, which a double holds exactly), the boolean that
    tells whether the string is ["true"] for the tag ['boolean'], and
    the string itself for any other tag. *)
Theorem castRouteVariableAsType_spec :
  (forall type, castRouteVariableAsType type None = VUndefined)
  /\ (forall value,
         castRouteVariableAsType "number" (Some value) = VNumber (parseInt_10 value))
  /\ (forall z,
         Z.abs z <= 2 ^ 53 ->
         castRouteVariableAsType "number" (Some (decimalText z)) = VNumber (Num z))
  /\ (forall value,
         castRouteVariableAsType "boolean" (Some value) = VBoolean true
         <-> value = "true"%string)
  /\ (forall value,
         value <> "true"%string ->
         castRouteVariableAsType "boolean" (Some value) = VBoolean false)
  /\ (forall type value,
         type <> "number"%string -> type <> "boolean"%string ->
         castRouteVariableAsType type (Some value) = VString value).
Proof.
  split; [reflexivity|]. split; [reflexivity|]. split; [|split; [|split]].
  - intros z Hz. simpl. now rewrite parseInt_10_decimalText.
  - intros value. simpl. split.
    + intros [= H]. now apply String.eqb_eq.
    + intros ->. reflexivity.
  - intros value Hne. simpl. apply String.eqb_neq in Hne. now rewrite Hne.
  - intros type value Hnumber Hboolean. unfold castRouteVariableAsType.
    apply String.eqb_neq in Hnumber, Hboolean. now rewrite Hnumber, Hboolean.
Qed.

(** C10. For the tag ['number'] and a string without a parseable leading
    integer, [castRouteVariableAsType] returns [NaN]: a number value,
    not an error, and not zero. *)
Theorem castRouteVariableAsType_NaN value :
  ~ hasLeadingInteger value ->
  castRouteVariableAsType "number" (Some value) = VNumber NaN.
Proof.
  intros Hnone. simpl. f_equal. now apply parseInt_10_NaN.
Qed.

(** ** Reading back a stringified array of numbers *)

Lemma decimalText_digits z :
  exists d ds,
    decimalText z
    = (if z <? 0 then "-"%string else EmptyString)
      +:+ string_of_list_ascii (map digitChar (d :: ds))
    /\ 0 <= d <= 9 /\ Forall (fun d => 0 <= d <= 9) ds
    /\ digits_value (d :: ds) = Z.abs z
    /\ (d = 0 -> ds = []).
Proof.
  unfold decimalText.
  destruct (decimalDigits_spec _ _ (decimalText_fuel (Z.abs z) (Z.abs_nonneg z)))
    as (Hvalue & Hdigits & d & ds & Heq & Hzero).
  rewrite Heq in Hvalue, Hdigits |- *. inversion Hdigits as [|? ? Hd Hds]; subst.
  exists d, ds. split; [reflexivity|]. repeat (split; [assumption|]).
  intros Hd0. apply (Hzero Hd0).
Qed.

Lemma parseUnsignedNumber_written sign d ds rest :
  0 <= d <= 9 -> Forall (fun d => 0 <= d <= 9) ds -> (d = 0 -> ds = []) ->
  terminated rest ->
  parseUnsignedNumber sign (string_of_list_ascii (map digitChar (d :: ds)) +:+ rest)
  = Some (VNumber (roundToDouble (sign * digits_value (d :: ds))), rest).
Proof.
  intros Hd Hds Hzero [tail Hrest].
  cbn [map string_of_list_ascii]. rewrite append_cons. unfold parseUnsignedNumber.
  rewrite (digit_of_digitChar d Hd).
  destruct (Z.eqb_spec d 0) as [->|Hnz].
  - rewrite (Hzero eq_refl). cbn [map string_of_list_ascii]. rewrite append_empty.
    destruct Hrest as [-> | ->]; reflexivity.
  - rewrite span_digits_written by (assumption || (destruct Hrest as [-> | ->]; reflexivity)).
    destruct Hrest as [-> | ->]; reflexivity.
Qed.

Lemma parseNumberLiteral_written z rest :
  Z.abs z <= 2 ^ 53 ->
  terminated rest ->
  parseNumberLiteral (decimalText z +:+ rest) = Some (VNumber (Num z), rest).
Proof.
  intros Hz Hrest. rewrite <- (roundToDouble_exact z Hz).
  destruct (decimalText_digits z) as (d & ds & -> & Hd & Hds & Hvalue & Hzero).
  destruct (Z.ltb_spec z 0).
  - rewrite append_assoc. change ("-" +:+ ?s)%string with (String "-" s).
    unfold parseNumberLiteral. change (Ascii.eqb "-" "-") with true. cbv iota.
    rewrite parseUnsignedNumber_written, Hvalue by assumption.
    now replace (-1 * Z.abs z) with z by lia.
  - rewrite append_empty. cbn [map string_of_list_ascii]. rewrite append_cons.
    unfold parseNumberLiteral.
    destruct (digitChar_plain d Hd) as (_ & Hminus & _).
    apply Ascii.eqb_neq in Hminus. rewrite Hminus.
    rewrite <- append_cons.
    change (String (digitChar d) (string_of_list_ascii (map digitChar ds)))
      with (string_of_list_ascii (map digitChar (d :: ds))).
    rewrite parseUnsignedNumber_written, Hvalue by assumption.
    now replace (1 * Z.abs z) with z by lia.
Qed.

(** The first character of a written number is a minus sign or a
    digit. *)
Lemma decimalText_head z :
  exists c text,
    decimalText z = String c text /\ (c = "-"%char \/ is_Some (digit_of c)).
Proof.
  destruct (decimalText_digits z) as (d & ds & -> & Hd & _).
  destruct (z <? 0).
  - eexists _, _. split; [reflexivity | now left].
  - rewrite append_empty. eexists _, _. split; [reflexivity|].
    right. rewrite (digit_of_digitChar d Hd). eauto.
Qed.

Lemma number_head_plain c :
  c = "-"%char \/ is_Some (digit_of c) ->
  isJSONWhiteSpace c = false
  /\ Ascii.eqb c "[" = false /\ Ascii.eqb c "]" = false /\ Ascii.eqb c "{" = false
  /\ Ascii.eqb c quotationMark = false /\ Ascii.eqb c "t" = false
  /\ Ascii.eqb c "f" = false /\ Ascii.eqb c "n" = false.
Proof.
  intros [->|[d Hd]]; [repeat split|].
  assert (48 <= nat_of_ascii c <= 57)%nat as Hc.
  { unfold digit_of in Hd.
    destruct (48 <=? nat_of_ascii c)%nat eqn:H48; [|discriminate].
    destruct (nat_of_ascii c <=? 57)%nat eqn:H57; [|discriminate].
    apply Nat.leb_le in H48, H57. lia. }
  repeat split;
    try (apply Ascii.eqb_neq; intros ->; vm_compute in Hc; lia).
  unfold isJSONWhiteSpace.
  repeat (apply orb_false_iff; split); apply Nat.eqb_neq; lia.
Qed.

(** One element of a written array, read back. *)
Lemma parseValue_element fuel n rest :
  exactlyWritten n = true ->
  terminated rest ->
  skipWhiteSpace (elementText n +:+ rest) = elementText n +:+ rest
  /\ parseValue (S fuel) (elementText n +:+ rest) = Some (json_of_number n, rest)
  /\ exists c text, elementText n +:+ rest = String c text /\ Ascii.eqb c "]" = false.
Proof.
  intros Hwritten Hrest.
  destruct n as [z| | |]; try (repeat split; eexists _, _; split; reflexivity).
  cbn [elementText json_of_number].
  apply Z.leb_le in Hwritten.
  rewrite <- (parseNumberLiteral_written z rest Hwritten Hrest).
  destruct (decimalText_head z) as (c & text & -> & Hc).
  destruct (number_head_plain c Hc) as (Hws & H1 & H2 & H3 & H4 & H5 & H6 & H7).
  rewrite append_cons. cbn [skipWhiteSpace parseValue].
  rewrite Hws, H1, H3, H4, H5, H6, H7. repeat split.
  eexists _, _. split; [reflexivity | exact H2].
Qed.

Lemma concat_cons sep (x y : string) (l : list string) :
  String.concat sep (x :: y :: l) = x +:+ sep +:+ String.concat sep (y :: l).
Proof. reflexivity. Qed.

Lemma parseElements_step fuel s acc :
  parseElements (S fuel) s acc
  = match parseValue fuel (skipWhiteSpace s) with
    | None => None
    | Some (element, rest) =>
        match skipWhiteSpace rest with
        | String "," after => parseElements fuel after (element :: acc)
        | String "]" after => Some (VArray (rev (element :: acc)), after)
        | _ => None
        end
    end.
Proof. reflexivity. Qed.

Lemma parseElements_written (a : list number) :
  a <> [] ->
  forallb exactlyWritten a = true ->
  forall fuel acc tail,
    (length a < fuel)%nat ->
    parseElements fuel (String.concat "," (map elementText a) +:+ String "]" tail) acc
    = Some (VArray (rev acc ++ map json_of_number a), tail).
Proof.
  induction a as [|n a IH]; [congruence|]. intros _ Hwritten fuel acc tail Hfuel.
  cbn [forallb] in Hwritten. apply andb_true_iff in Hwritten as [Hn Hwritten].
  destruct fuel as [|fuel]; [simpl in Hfuel; lia|].
  destruct fuel as [|fuel]; [simpl in Hfuel; lia|].
  destruct a as [|m a].
  - cbn [map String.concat].
    destruct (parseValue_element fuel n (String "]" tail) Hn) as (Hskip & Hvalue & _);
      [eexists; now right|].
    rewrite parseElements_step, Hskip, Hvalue. reflexivity.
  - cbn [map]. rewrite concat_cons, !append_assoc.
    change ("," +:+ ?s)%string with (String "," s).
    destruct (parseValue_element fuel n
                (String "," (String.concat "," (elementText m :: map elementText a)
                             +:+ String "]" tail)) Hn)
      as (Hskip & Hvalue & _); [eexists; now left|].
    rewrite parseElements_step, Hskip, Hvalue.
    change (skipWhiteSpace (String "," ?s)) with (String "," s). cbv iota beta.
    change (elementText m :: map elementText a) with (map elementText (m :: a)).
    rewrite IH by (congruence || exact Hwritten || (simpl in Hfuel |- *; lia)).
    cbn [rev]. now rewrite <- app_assoc.
Qed.

Lemma elementText_length n : (1 <= String.length (elementText n))%nat.
Proof.
  destruct n as [z| | |]; try (simpl; lia).
  cbn [elementText]. destruct (decimalText_head z) as (c & text & -> & _). simpl. lia.
Qed.

Lemma concat_length (l : list number) :
  (length l <= String.length (String.concat "," (map elementText l)))%nat.
Proof.
  induction l as [|n l IH]; [simpl; lia|].
  destruct l as [|m l].
  - cbn [map String.concat]. pose proof (elementText_length n). simpl. lia.
  - cbn [map]. rewrite concat_cons, !length_append.
    pose proof (elementText_length n). cbn [map] in IH. simpl length in IH |- *. lia.
Qed.

(** [JSON.parse(JSON.stringify(a))] on an array of exactly written
    numbers: the integers come back, the others come back as [null]. *)
Lemma JSON_parse_stringify_numbers (a : list number) text :
  JSON_stringify_numbers a = Some text ->
  JSON_parse text = Some (VArray (map json_of_number a)).
Proof.
  unfold JSON_parse, JSON_stringify_numbers.
  destruct (forallb exactlyWritten a) eqn:Hwritten; [|discriminate].
  intros [= <-].
  change ("[" +:+ ?s)%string with (String "[" s).
  change ("]"%string) with (String "]" EmptyString).
  cbn [skipWhiteSpace]. change (isJSONWhiteSpace "[") with false. cbv iota.
  destruct a as [|n a].
  - reflexivity.
  - set (text := String "[" _).
    assert (length (n :: a) < 2 * String.length text + 1)%nat as Hfuel.
    { subst text. cbn [String.length]. rewrite length_append.
      pose proof (concat_length (n :: a)). lia. }
    replace (2 * String.length text + 2)%nat with (S (2 * String.length text + 1)) by lia.
    subst text. cbn [parseValue]. change (Ascii.eqb "[" "[") with true. cbv iota.
    destruct (parseValue_element 0 n
                (match a with
                 | [] => String "]" EmptyString
                 | m :: a' =>
                     String "," (String.concat "," (map elementText (m :: a'))
                                 +:+ String "]" EmptyString)
                 end)) as (Hskip & _ & c & body & Hhead & Hc).
    { cbn [forallb] in Hwritten. now apply andb_true_iff in Hwritten as [Hn _]. }
    { destruct a; eexists; [now right | now left]. }
    assert (String.concat "," (map elementText (n :: a)) +:+ String "]" EmptyString
            = String c body) as Htext.
    { rewrite <- Hhead. destruct a as [|m a']; [reflexivity|].
      cbn [map]. rewrite concat_cons, !append_assoc. reflexivity. }
    assert (skipWhiteSpace (String c body) = String c body) as Hskip'.
    { rewrite <- Hhead. exact Hskip. }
    rewrite Htext at 1. rewrite Hskip', Hc.
    rewrite parseElements_written by (congruence || exact Hwritten || exact Hfuel).
    reflexivity.
Qed.

(** ** The stat line parser *)

(** A stringified array of numbers is parsed without a call of
    [onError]; a number that is not finite comes back as [null]. *)
Lemma parseStatLine_stringify (a : list number) rawStats :
  JSON_stringify_numbers a = Some rawStats ->
  parseStatLine rawStats = (statLineOfElements (map json_of_number a), []).
Proof.
  intros Hwritten. unfold parseStatLine.
  rewrite (JSON_parse_stringify_numbers a rawStats Hwritten). reflexivity.
Qed.

(** A text that cannot begin a JSON value is rejected. *)
Lemma JSON_parse_cannotBeginValue text : cannotBeginValue text -> JSON_parse text = None.
Proof.
  unfold cannotBeginValue, JSON_parse.
  replace (2 * String.length text + 2)%nat with (S (2 * String.length text + 1)) by lia.
  destruct (skipWhiteSpace text) as [|c rest]; [intros _; reflexivity|].
  intros (H1 & H2 & H3 & H4 & H5 & H6 & H7 & H8).
  cbn [parseValue]. rewrite H1, H2, H3, H4, H5, H6.
  unfold parseNumberLiteral. rewrite H7. unfold parseUnsignedNumber. now rewrite H8.
Qed.


(** ** The type list parser *)

(** The segments of a text whose trimmed lowercased segments are all
    type names are returned as they are, without a call of [onError]. *)
Lemma parseTypeDefinition_valid rawTypes :
  Forall (fun segment => In segment TYPE_NAMES)
    (map (fun x => toLowerCase (trim x)) (split "/" rawTypes)) ->
  parseTypeDefinition rawTypes
  = (map (fun x => toLowerCase (trim x)) (split "/" rawTypes), []).
Proof.
  intros Hall. unfold parseTypeDefinition.
  destruct (List.find _ _) as [segment|] eqn:Hfind; [|reflexivity].
  apply find_some in Hfind as [Hin Hnot]. exfalso.
  rewrite List.Forall_forall in Hall. specialize (Hall segment Hin).
  apply negb_true_iff in Hnot.
  assert (existsb (String.eqb segment) TYPE_NAMES = true) as Hex; [|congruence].
  apply existsb_exists. exists segment. split; [exact Hall | apply String.eqb_refl].
Qed.

(** When the first segment that is no type name is not empty, the result
    is empty and [onError] is called once, with that segment. *)
Lemma parseTypeDefinition_invalid rawTypes c segment :
  List.find (fun segment => negb (existsb (String.eqb segment) TYPE_NAMES))
    (map (fun x => toLowerCase (trim x)) (split "/" rawTypes))
  = Some (String c segment) ->
  parseTypeDefinition rawTypes = ([], [String c segment])
  /\ ~ In (String c segment) TYPE_NAMES.
Proof.
  intros Hfind. unfold parseTypeDefinition. rewrite Hfind. split; [reflexivity|].
  apply find_some in Hfind as [_ Hnot]. apply negb_true_iff in Hnot.
  intros Hin.
  assert (existsb (String.eqb (String c segment)) TYPE_NAMES = true) as Hex; [|congruence].
  apply existsb_exists. exists (String c segment). split; [exact Hin | apply String.eqb_refl].
Qed.

(** C8, at the failing input. The empty text has one segment, the empty
    string; whatever the type names are, [parseTypeDefinition] returns
    that segment as a type name and does not call [onError]: the empty
    string found by [find] is falsy. *)
Theorem parseTypeDefinition_empty_segment :
  parseTypeDefinition EmptyString = ([EmptyString], []).
Proof.
  unfold parseTypeDefinition. cbn [split map trim trimStart trimEnd toLowerCase List.find].
  destruct (negb _); reflexivity.
Qed.

(** * Further properties *)

(** ** The hidden IV is never narrowed away *)

Lemma strict_eq_refl x : x <> NaN -> strict_eq x x = true.
Proof. destruct x; simpl; try congruence; intros _; apply Z.eqb_refl. Qed.

Lemma falsy_false_not_NaN x : falsy x = false -> x <> NaN.
Proof. intros Hx ->. discriminate. Qed.

Lemma narrowObservation_keeps stat tracker baseStat modifier acc level
    (statLine : option StatLine) iv :
  wellFormed acc -> contains acc iv ->
  match statLine with
  | Some statLine =>
      falsy (statLine stat) = false ->
      calculateStatOrHP stat level baseStat (Num iv) (evAt tracker level stat) modifier
        (generation tracker) = statLine stat
  | None => True
  end ->
  contains (narrowObservation stat tracker baseStat modifier acc (level, statLine)) iv.
Proof.
  intros [(a & b & -> & Ha & Hab & Hb)| ->] Hiv Hmatch; [|destruct Hiv; congruence].
  apply contains_bounds in Hiv; [|exact Ha].
  destruct statLine as [statLine|];
    [|rewrite narrowObservation_skip by (lia || exact I); apply contains_bounds; lia].
  destruct (falsy (statLine stat)) eqn:Htruthy;
    [rewrite narrowObservation_skip by (lia || exact Htruthy); apply contains_bounds; lia|].
  assert (In (Num iv)
            (matchingStatsOf stat tracker baseStat modifier (Num a) (Num b) level statLine))
    as Hin.
  { unfold matchingStatsOf. apply filter_In. split; [apply range_complete; lia|].
    rewrite (Hmatch eq_refl). apply strict_eq_refl, falsy_false_not_NaN, Htruthy. }
  destruct (narrowObservation_match stat tracker baseStat modifier a b level statLine)
    as (m & M & -> & ? & ? & ? & _ & _ & Hbound); [lia | exact Htruthy | |].
  { intros Hnone. rewrite Hnone in Hin. contradiction. }
  apply Hbound in Hin. apply contains_bounds; lia.
Qed.

Lemma fold_narrowObservation_keeps stat tracker baseStat modifier observations acc iv :
  wellFormed acc -> contains acc iv ->
  (forall level (statLine : StatLine),
      In (level, Some statLine) observations ->
      falsy (statLine stat) = false ->
      calculateStatOrHP stat level baseStat (Num iv) (evAt tracker level stat) modifier
        (generation tracker) = statLine stat) ->
  contains (fold_left (narrowObservation stat tracker baseStat modifier) observations acc) iv.
Proof.
  revert acc.
  induction observations as [|[level statLine] observations IH]; intros acc Hwf Hiv Hmatch;
    [exact Hiv|].
  cbn [fold_left]. apply IH.
  - apply narrowObservation_wellFormed, Hwf.
  - apply narrowObservation_keeps; [exact Hwf | exact Hiv |].
    destruct statLine as [statLine|]; [|exact I].
    apply Hmatch. now left.
  - intros level' statLine' Hin. apply Hmatch. now right.
Qed.

Lemma fold_narrowEvolution_keeps stat tracker modifier stages acc iv interval :
  wellFormed acc -> contains acc iv ->
  (forall evo statSegments row level (statLine : StatLine),
      In (evo, statSegments) stages ->
      array_get (baseStats tracker) evo = Some row ->
      In (level, Some statLine) statSegments ->
      falsy (statLine stat) = false ->
      calculateStatOrHP stat level (row stat) (Num iv) (evAt tracker level stat) modifier
        (generation tracker) = statLine stat) ->
  fold_left (narrowEvolution stat tracker modifier) stages (Some acc) = Some interval ->
  contains interval iv.
Proof.
  revert acc.
  induction stages as [|[evo statSegments] stages IH]; intros acc Hwf Hiv Hmatch.
  - simpl. now intros [= <-].
  - cbn [fold_left]. unfold narrowEvolution at 2. simpl.
    destruct (array_get (baseStats tracker) evo) as [row|] eqn:Hrow; simpl.
    + apply IH.
      * apply fold_narrowObservation_wellFormed, Hwf.
      * apply fold_narrowObservation_keeps; [exact Hwf | exact Hiv |].
        intros level statLine Hin. apply (Hmatch evo statSegments row); [now left | exact Hrow | exact Hin].
      * intros evo' segs' row' level statLine Hin. apply (Hmatch evo' segs' row'). now right.
    + rewrite fold_narrowEvolution_None. discriminate.
Qed.

(** X1. Narrowing is sound: in the observed-data branch, an IV between
    0 and 31 whose stat value under the modifier of a regime equals
    every recorded value of the stat lies in the interval
    [calculatePossibleIVRange] returns for that regime; the regime is
    then not the sentinel. *)
Theorem consistent_IV_is_kept stat tracker ranges key modifier iv :
  staticIVs tracker stat = Num (-1) ->
  directInput tracker = false ->
  In (key, modifier) NATURE_MODIFIERS ->
  0 <= iv <= 31 ->
  (forall evo statSegments row level (statLine : StatLine),
      In (evo, statSegments) (recordedStats tracker) ->
      array_get (baseStats tracker) evo = Some row ->
      In (level, Some statLine) statSegments ->
      falsy (statLine stat) = false ->
      calculateStatOrHP stat level (row stat) (Num iv) (evAt tracker level stat) modifier
        (generation tracker) = statLine stat) ->
  calculatePossibleIVRange stat tracker = Some ranges ->
  contains (regimeOf ranges key) iv.
Proof.
  intros Hstatic Hdirect Hkey Hiv Hmatch. unfold calculatePossibleIVRange.
  rewrite Hstatic, Hdirect. simpl.
  destruct (modifierSetOf stat tracker) as [modifierSet|] eqn:Hset; [|discriminate].
  apply modifierSetOf_Some in Hset
    as (negative & neutral & positive & Hn & Hu & Hp & Hkn & Hku & Hkp).
  simpl. rewrite Hkn, Hku, Hkp. simpl. intros [= <-].
  assert (wellFormed (Num 0, Num 31)) as Hwf by (left; exists 0, 31; repeat split; lia).
  assert (contains (Num 0, Num 31) iv) as Hfull by (apply contains_bounds; lia).
  unfold NATURE_MODIFIERS in Hkey. simpl in Hkey.
  destruct Hkey as [[= <- <-]|[[= <- <-]|[[= <- <-]|[]]]]; simpl;
    eapply fold_narrowEvolution_keeps; eauto.
Qed.

(** ** No observation of the stat *)

Lemma fold_narrowObservation_unrecorded stat tracker baseStat modifier observations a b :
  a <> -1 ->
  (forall level (statLine : StatLine),
      In (level, Some statLine) observations -> falsy (statLine stat) = true) ->
  fold_left (narrowObservation stat tracker baseStat modifier) observations (Num a, Num b)
  = (Num a, Num b).
Proof.
  intros Ha. induction observations as [|[level statLine] observations IH]; intros Hskip;
    [reflexivity|].
  cbn [fold_left]. rewrite narrowObservation_skip.
  - apply IH. intros level' statLine' Hin. apply (Hskip level'). now right.
  - exact Ha.
  - destruct statLine as [statLine|]; [|exact I]. apply (Hskip level). now left.
Qed.

Lemma narrowRegime_unrecorded stat tracker modifier :
  (forall evo statSegments,
      In (evo, statSegments) (recordedStats tracker) ->
      is_Some (array_get (baseStats tracker) evo)
      /\ forall level (statLine : StatLine),
           In (level, Some statLine) statSegments -> falsy (statLine stat) = true) ->
  narrowRegime stat tracker modifier = Some (Num 0, Num 31).
Proof.
  unfold narrowRegime.
  induction (recordedStats tracker) as [|[evo statSegments] stages IH]; intros Hstages;
    [reflexivity|].
  cbn [fold_left]. unfold narrowEvolution at 2. simpl.
  destruct (Hstages evo statSegments (or_introl eq_refl)) as [[row ->] Hskip]. simpl.
  rewrite fold_narrowObservation_unrecorded by (discriminate || exact Hskip).
  apply IH. intros evo' segs' Hin. apply Hstages. now right.
Qed.

(** X2. Without data nothing is excluded: in the observed-data branch,
    when no recorded stat line holds a value for the stat (none
    recorded, or a zero), the three regime intervals and the combined
    interval are [[0, 31]]. *)
Theorem unrecorded_stat_is_unconstrained stat tracker :
  staticIVs tracker stat = Num (-1) ->
  directInput tracker = false ->
  (forall evo statSegments,
      In (evo, statSegments) (recordedStats tracker) ->
      is_Some (array_get (baseStats tracker) evo)
      /\ forall level (statLine : StatLine),
           In (level, Some statLine) statSegments -> falsy (statLine stat) = true) ->
  calculatePossibleIVRange stat tracker
  = Some {| negative := (Num 0, Num 31); neutral := (Num 0, Num 31);
            positive := (Num 0, Num 31); combined := (Num 0, Num 31) |}.
Proof.
  intros Hstatic Hdirect Hstages. unfold calculatePossibleIVRange, modifierSetOf.
  rewrite Hstatic, Hdirect. simpl.
  rewrite !narrowRegime_unrecorded by exact Hstages. reflexivity.
Qed.

(** ** When the calculation fails *)

Lemma fold_narrowEvolution_fails stat tracker modifier stages acc :
  fold_left (narrowEvolution stat tracker modifier) stages (Some acc) = None
  <-> exists evo statSegments,
        In (evo, statSegments) stages /\ array_get (baseStats tracker) evo = None.
Proof.
  revert acc. induction stages as [|[evo statSegments] stages IH]; intros acc.
  - simpl. split; [discriminate | intros (? & ? & [] & _)].
  - cbn [fold_left]. unfold narrowEvolution at 2. simpl.
    destruct (array_get (baseStats tracker) evo) as [row|] eqn:Hrow; simpl.
    + rewrite IH. split.
      * intros (evo' & segs' & Hin & Hnone). exists evo', segs'. split; [now right | exact Hnone].
      * intros (evo' & segs' & [[= <- <-]|Hin] & Hnone); [congruence|].
        exists evo', segs'. split; assumption.
    + rewrite fold_narrowEvolution_None. split; [|reflexivity].
      intros _. exists evo, statSegments. split; [now left | exact Hrow].
Qed.

(** X3. [calculatePossibleIVRange] raises its [TypeError] in one case
    only: the stat has no static IV, the tracker is not in direct-input
    mode, and stats are recorded for an evolution stage the tracker has
    no base stats for. *)
Theorem calculatePossibleIVRange_fails_iff stat tracker :
  calculatePossibleIVRange stat tracker = None
  <-> staticIVs tracker stat = Num (-1)
      /\ directInput tracker = false
      /\ exists evo statSegments,
           In (evo, statSegments) (recordedStats tracker)
           /\ array_get (baseStats tracker) evo = None.
Proof.
  unfold calculatePossibleIVRange.
  destruct (strict_neq (staticIVs tracker stat) (Num (-1))) eqn:Hstatic.
  { split; [discriminate|]. intros (Heq & _). rewrite Heq in Hstatic. discriminate. }
  assert (staticIVs tracker stat = Num (-1)) as Heq.
  { unfold strict_neq in Hstatic. apply negb_false_iff in Hstatic.
    destruct (staticIVs tracker stat) as [z| | |]; simpl in Hstatic; try discriminate.
    apply Z.eqb_eq in Hstatic. now subst. }
  destruct (directInput tracker) eqn:Hdirect.
  { split; [discriminate|]. intros (_ & Hfalse & _). discriminate. }
  assert (forall modifier,
             narrowRegime stat tracker modifier = None
             <-> exists evo statSegments,
                   In (evo, statSegments) (recordedStats tracker)
                   /\ array_get (baseStats tracker) evo = None) as Hregime
      by (intros modifier; apply fold_narrowEvolution_fails).
  unfold modifierSetOf, NATURE_MODIFIERS. cbn [fold_left]. simpl.
  split.
  - intros Hnone. split; [exact Heq|]. split; [reflexivity|].
    destruct (narrowRegime stat tracker (9 # 10)) eqn:H1; [|now apply (Hregime (9 # 10)%Q)].
    destruct (narrowRegime stat tracker (1 # 1)) eqn:H2; [|now apply (Hregime (1 # 1)%Q)].
    destruct (narrowRegime stat tracker (11 # 10)) eqn:H3; [|now apply (Hregime (11 # 10)%Q)].
    simpl in Hnone. discriminate.
  - intros (_ & _ & Hmissing).
    apply (Hregime (9 # 10)%Q) in Hmissing. rewrite Hmissing. reflexivity.
Qed.

(** X4. The intervals keep the invariant of the data model in every
    branch: for a static IV that is unset or between 0 and 31 and, in
    direct-input mode, an entered IV between 0 and 31, each regime
    interval [calculatePossibleIVRange] returns is a sub-range of
    [[0, 31]] with [min <= max] or the sentinel; so is the combined
    interval, unless the three regimes are the sentinel: then it is
    [[Infinity, -Infinity]]. *)
Theorem regime_intervals_are_well_formed stat tracker ranges :
  staticIVs tracker stat = Num (-1) \/ between 0 31 (staticIVs tracker stat) ->
  (directInput tracker = true -> between 0 31 (directInputIVs tracker stat)) ->
  calculatePossibleIVRange stat tracker = Some ranges ->
  (forall key, wellFormed (regimeOf ranges key))
  /\ (wellFormed (combined ranges)
      \/ ((forall key, regimeOf ranges key = sentinel)
          /\ combined ranges = (Infinity, NegInfinity))).
Proof.
  intros Hstatic Hdirect Hranges.
  apply calculatePossibleIVRange_invariant in Hranges
    as (Hn & Hu & Hp & Hcombined); [|assumption..].
  split; [intros [| |]; assumption|].
  destruct Hcombined as [Hvalid|(Hsn & Hsu & Hsp & Hinf)]; [left; exact Hvalid|].
  right. split; [intros [| |]; assumption | exact Hinf].
Qed.

(** ** One more observation, anywhere *)

(** X5. Adding an observation to the recorded stats of a stage, wherever
    its level puts it among the others, never widens a regime: in the
    observed-data branch, when [calculatePossibleIVRange] returns with
    the observation it returns without it, and each regime interval
    with the observation lies inside the one without. *)
Theorem added_observation_narrows stat tracker earlier evo before entry after later ranges' :
  staticIVs tracker stat = Num (-1) ->
  directInput tracker = false ->
  calculatePossibleIVRange stat
    (withRecordedStats tracker (earlier ++ (evo, before ++ entry :: after) :: later))
  = Some ranges' ->
  exists ranges,
    calculatePossibleIVRange stat
      (withRecordedStats tracker (earlier ++ (evo, before ++ after) :: later))
    = Some ranges
    /\ forall key, subinterval (regimeOf ranges' key) (regimeOf ranges key).
Proof.
  intros Hstatic Hdirect. unfold calculatePossibleIVRange.
  cbn [staticIVs directInput withRecordedStats]. rewrite Hstatic, Hdirect. simpl.
  assert (wellFormed (Num 0, Num 31)) as Hwf by (left; exists 0, 31; repeat split; lia).
  assert (forall modifier interval',
             narrowRegime stat
               (withRecordedStats tracker (earlier ++ (evo, before ++ entry :: after) :: later))
               modifier = Some interval' ->
             exists interval,
               narrowRegime stat
                 (withRecordedStats tracker (earlier ++ (evo, before ++ after) :: later))
                 modifier = Some interval
               /\ subinterval interval' interval) as Hregime.
  { intros modifier interval'. unfold narrowRegime. cbn [recordedStats withRecordedStats].
    apply (regime_observation_inserted stat
             (withRecordedStats tracker (earlier ++ (evo, before ++ after) :: later))
             modifier earlier evo before entry after later (Num 0, Num 31) interval' Hwf). }
  destruct (modifierSetOf stat (withRecordedStats tracker
              (earlier ++ (evo, before ++ entry :: after) :: later)))
    as [modifierSet'|] eqn:Hset'; [|discriminate].
  apply modifierSetOf_Some in Hset'
    as (negative' & neutral' & positive' & Hn' & Hu' & Hp' & Hkn' & Hku' & Hkp').
  simpl. rewrite Hkn', Hku', Hkp'. simpl. intros [= <-].
  destruct (Hregime _ _ Hn') as (negative & Hn & Hsn).
  destruct (Hregime _ _ Hu') as (neutral & Hu & Hsu).
  destruct (Hregime _ _ Hp') as (positive & Hp & Hsp).
  unfold modifierSetOf, NATURE_MODIFIERS. cbn [fold_left]. simpl.
  rewrite Hn, Hu, Hp. simpl. eexists. split; [reflexivity|].
  intros [| |]; assumption.
Qed.

(** ** The static branch and the nature multiplier *)

(** X6. With a static IV and a static nature, exactly one regime is
    kept: the regime whose modifier is [getNatureMultiplier] of the
    stat and the nature holds the static IV, and the two other regimes
    are the sentinel. *)
Theorem static_regime_is_the_multiplier stat tracker nature :
  strict_neq (staticIVs tracker stat) (Num (-1)) = true ->
  staticNatureDefinition tracker = Some nature ->
  exists ranges,
    calculatePossibleIVRange stat tracker = Some ranges
    /\ combined ranges = (staticIVs tracker stat, staticIVs tracker stat)
    /\ forall key modifier,
         In (key, modifier) NATURE_MODIFIERS ->
         (modifier = getNatureMultiplier stat nature ->
          regimeOf ranges key = (staticIVs tracker stat, staticIVs tracker stat))
         /\ (modifier <> getNatureMultiplier stat nature -> regimeOf ranges key = sentinel).
Proof.
  intros Hstatic Hnature. unfold calculatePossibleIVRange. rewrite Hstatic, Hnature.
  eexists. split; [reflexivity|]. split; [reflexivity|].
  intros key modifier Hin. unfold NATURE_MODIFIERS in Hin. simpl in Hin.
  unfold getNatureMultiplier, clampPositive, clampNeutral, clampNegative.
  destruct (Stat_eqb (plus nature) stat), (Stat_eqb (minus nature) stat);
    destruct Hin as [[= <- <-]|[[= <- <-]|[[= <- <-]|[]]]]; simpl;
    split; intros Hm; try reflexivity; try discriminate; congruence.
Qed.

(** ** The second pass over the six stats *)

Lemma statRecordOf_None {T} (f : Stat -> option T) :
  statRecordOf f = None <-> exists stat, f stat = None.
Proof.
  unfold statRecordOf. split.
  - destruct (f hp) eqn:?; [|now exists hp].
    destruct (f attack) eqn:?; [|now exists attack].
    destruct (f defense) eqn:?; [|now exists defense].
    destruct (f spAttack) eqn:?; [|now exists spAttack].
    destruct (f spDefense) eqn:?; [|now exists spDefense].
    destruct (f speed) eqn:?; [|now exists speed].
    discriminate.
  - intros [stat Hnone].
    destruct (f hp) eqn:?, (f attack) eqn:?, (f defense) eqn:?, (f spAttack) eqn:?,
      (f spDefense) eqn:?, (f speed) eqn:?; simpl; try reflexivity.
    destruct stat; congruence.
Qed.

(** X7. [calculateAllPossibleIVRanges] changes the combined intervals
    only: it returns exactly when [calculatePossibleIVRange] returns for
    the six stats, with the regime intervals of each stat as
    [calculatePossibleIVRange] gives them. *)
Theorem calculateAllPossibleIVRanges_keeps_regimes tracker :
  (calculateAllPossibleIVRanges tracker = None
   <-> exists stat, calculatePossibleIVRange stat tracker = None)
  /\ (forall allRanges stat,
         calculateAllPossibleIVRanges tracker = Some allRanges ->
         exists ranges,
           calculatePossibleIVRange stat tracker = Some ranges
           /\ forall key, regimeOf (allRanges stat) key = regimeOf ranges key).
Proof.
  unfold calculateAllPossibleIVRanges. split.
  - rewrite <- (statRecordOf_None (fun stat => calculatePossibleIVRange stat tracker)).
    destruct (statRecordOf (fun stat => calculatePossibleIVRange stat tracker))
      as [preliminaryResults|]; simpl; [|split; reflexivity].
    destruct (if generation tracker <=? 2 then _ else _)
      as [confirmedNegative confirmedPositive].
    split; discriminate.
  - intros allRanges stat.
    destruct (statRecordOf (fun stat => calculatePossibleIVRange stat tracker))
      as [preliminaryResults|] eqn:Hpreliminary; [|discriminate].
    simpl.
    destruct (if generation tracker <=? 2 then _ else _)
      as [confirmedNegative confirmedPositive].
    intros Hall.
    apply statRecordOf_Some with (stat := stat) in Hall. injection Hall as <-.
    apply statRecordOf_Some with (stat := stat) in Hpreliminary.
    exists (preliminaryResults stat). split; [exact Hpreliminary|].
    intros [| |]; reflexivity.
Qed.

(** ** Inferred natures *)

(** X8. Inference never names HP: without a static nature definition
    and without pinned stats, neither component of the pair
    [calculatePossibleNature] returns is ['hp']. *)
Theorem inferred_nature_is_never_hp ivRanges tracker :
  staticNatureDefinition tracker = None ->
  manualNegativeNature tracker = None ->
  manualPositiveNature tracker = None ->
  fst (calculatePossibleNature ivRanges tracker) <> Some hp
  /\ snd (calculatePossibleNature ivRanges tracker) <> Some hp.
Proof.
  intros Hstatic Hnegative Hpositive. unfold calculatePossibleNature.
  rewrite Hstatic, Hnegative, Hpositive. cbv zeta.
  assert (forall (test : Stat * IVRangeSet -> bool) (entries : list (Stat * IVRangeSet)),
             (forall entry, test entry = true -> fst entry <> hp) ->
             fst <$> List.find test entries <> Some hp
             /\ fst <$> head (List.filter test entries) <> Some hp) as Hnever.
  { intros test entries Htest. split.
    - destruct (List.find test entries) as [entry|] eqn:Hfind; [|discriminate].
      apply find_some in Hfind as [_ Hentry]. simpl. intros [= Heq].
      now apply (Htest entry).
    - destruct (List.filter test entries) as [|entry rest] eqn:Hfilter; [discriminate|].
      assert (In entry (List.filter test entries)) as Hin by (rewrite Hfilter; now left).
      apply filter_In in Hin as [_ Hentry]. simpl. intros [= Heq].
      now apply (Htest entry). }
  repeat match goal with
  | |- context [fst <$> List.find ?test ?entries] =>
      let Hfound := fresh "Hfound" in
      assert (fst <$> List.find test entries <> Some hp) as Hfound
        by (apply Hnever; intros [[] value] Htest; simpl in Htest |- *;
            (discriminate Htest || discriminate));
      generalize dependent (fst <$> List.find test entries); intros ? ?
  | |- context [fst <$> head (List.filter ?test ?entries)] =>
      let Hfound := fresh "Hfound" in
      assert (fst <$> head (List.filter test entries) <> Some hp) as Hfound
        by (apply Hnever; intros [[] value] Htest; simpl in Htest |- *;
            (discriminate Htest || discriminate));
      generalize dependent (fst <$> head (List.filter test entries)); intros ? ?
  end.
  match goal with
  | |- context [if ?c then (Some attack, Some attack) else _] => destruct c
  end; [split; discriminate|].
  split; simpl;
    repeat match goal with
    | |- match ?o with _ => _ end <> _ => destruct o eqn:?
    | |- (if ?c then _ else _) <> _ => destruct c
    end; congruence.
Qed.

(** ** Sets of values *)

Lemma existsb_number_In x seen :
  existsb (fun y => if number_eq_dec x y then true else false) seen = true <-> In x seen.
Proof.
  rewrite existsb_exists. split.
  - intros (y & Hin & Heq). destruct (number_eq_dec x y) as [->|]; [exact Hin|discriminate].
  - intros Hin. exists x. split; [exact Hin|].
    destruct (number_eq_dec x x); [reflexivity|contradiction].
Qed.

Lemma Set_values_from_In seen l x :
  In x (Set_values_from seen l) <-> In x l /\ ~ In x seen.
Proof.
  revert seen. induction l as [|y l IH]; intros seen; simpl.
  - split; [contradiction | intros [[] _]].
  - destruct (existsb _ seen) eqn:Hseen.
    + apply existsb_number_In in Hseen. rewrite IH. split.
      * intros [Hin Hnot]. split; [now right | exact Hnot].
      * intros [[<-|Hin] Hnot]; [contradiction | now split].
    + assert (~ In y seen) as Hy.
      { intros Hin. apply existsb_number_In in Hin. congruence. }
      simpl. rewrite IH. simpl. split.
      * intros [<-|[Hin Hnot]]; [split; [now left | exact Hy]|].
        split; [now right | intros Hin'; apply Hnot; now right].
      * intros [[<-|Hin] Hnot]; [now left|].
        destruct (number_eq_dec y x) as [->|Hneq]; [now left|].
        right. split; [exact Hin|]. intros [Heq|Hin']; [contradiction | contradiction].
Qed.

Lemma Set_values_from_NoDup seen l : List.NoDup (Set_values_from seen l).
Proof.
  revert seen. induction l as [|y l IH]; intros seen; simpl; [constructor|].
  destruct (existsb _ seen); [apply IH|].
  constructor; [|apply IH].
  rewrite Set_values_from_In. intros [_ Hnot]. apply Hnot. now left.
Qed.

Lemma Set_values_In l x : In x (Set_values l) <-> In x l.
Proof.
  unfold Set_values. rewrite Set_values_from_In. split; [now intros [Hin _]|].
  intros Hin. split; [exact Hin | intros []].
Qed.

Lemma Set_values_from_distinct seen l :
  List.NoDup l -> (forall x, In x l -> ~ In x seen) -> Set_values_from seen l = l.
Proof.
  revert seen. induction l as [|y l IH]; intros seen Hnodup Hseen; [reflexivity|].
  simpl. apply List.NoDup_cons_iff in Hnodup as [Hy Hnodup].
  destruct (existsb _ seen) eqn:Hex.
  - apply existsb_number_In in Hex. exfalso. apply (Hseen y); [now left | exact Hex].
  - f_equal. apply IH; [exact Hnodup|].
    intros x Hin [<-|Hin']; [contradiction|].
    apply (Hseen x); [now right | exact Hin'].
Qed.

Lemma range_NoDup from to : List.NoDup (range from to).
Proof.
  destruct from as [a| | |], to as [b| | |]; simpl; try constructor.
  apply Finite.Injective_map_NoDup; [|apply seq_NoDup].
  intros i j [= Heq]. lia.
Qed.

Lemma getIVValuesInSection_NoDup section : List.NoDup (getIVValuesInSection section).
Proof.
  destruct section as [start end_]. unfold getIVValuesInSection.
  destruct (_ || _); [constructor | apply range_NoDup].
Qed.

Lemma Stat_eqb_true a b : Stat_eqb a b = true <-> a = b.
Proof.
  unfold Stat_eqb. destruct (Stat_eq_dec a b); split; congruence.
Qed.

(** ** One regime per stat under a confirmed nature *)

(** X9. With both stats of the nature confirmed and distinct, the four
    places that choose among the regimes of a stat agree on one regime,
    the decreased one for the lowered stat, the increased one for the
    raised stat and the neutral one otherwise: the combined interval of
    [calculateAllPossibleIVRanges] is taken over that regime alone,
    [calculatePossibleStats] folds over its modifier alone, the hidden
    power calculation counts its IVs alone, and
    [getPossibleNatureAdjustmentsForStat] flags no other regime. *)
Theorem confirmed_nature_selects_one_regime confirmedNegative confirmedPositive stat ranges :
  confirmedNegative <> confirmedPositive ->
  relevantRangesOf (Some confirmedNegative) (Some confirmedPositive) stat ranges
  = [regimeOf ranges (confirmedRegime confirmedNegative confirmedPositive stat)]
  /\ map fst (relevantModifiersOf stat (Some confirmedNegative, Some confirmedPositive))
     = [confirmedRegime confirmedNegative confirmedPositive stat]
  /\ getUniqueIVValuesInRangeSet ranges stat (Some confirmedNegative, Some confirmedPositive)
     = getIVValuesInSection
         (regimeOf ranges (confirmedRegime confirmedNegative confirmedPositive stat))
  /\ forall key,
       adjustmentAt
         (getPossibleNatureAdjustmentsForStat ranges stat
            (Some confirmedNegative, Some confirmedPositive)) key = true ->
       key = confirmedRegime confirmedNegative confirmedPositive stat.
Proof.
  intros Hdistinct.
  unfold relevantRangesOf, relevantModifiersOf, getUniqueIVValuesInRangeSet,
    getPossibleNatureAdjustmentsForStat, confirmedRegime, is_stat, is_Some_b.
  destruct (Stat_eqb confirmedNegative stat) eqn:Hnegative,
    (Stat_eqb confirmedPositive stat) eqn:Hpositive.
  - apply Stat_eqb_true in Hnegative, Hpositive. congruence.
  - cbn. split; [reflexivity|]. split; [reflexivity|]. split; [reflexivity|].
    intros [| |]; simpl; congruence.
  - cbn. split; [reflexivity|]. split; [reflexivity|]. split; [reflexivity|].
    intros [| |]; simpl; congruence.
  - cbn. split; [reflexivity|].
    split; [destruct (Stat_eqb stat hp); reflexivity|].
    split.
    + rewrite app_nil_r. apply Set_values_from_distinct;
        [apply getIVValuesInSection_NoDup | intros x _ []].
    + intros [| |]; simpl; rewrite ?andb_false_r; congruence.
Qed.

(** X10. Whatever is known of the nature, a regime that
    [getPossibleNatureAdjustmentsForStat] flags as possible is one of
    the regimes [calculateAllPossibleIVRanges] takes the combined
    interval over and, for a stat other than HP, one of the regimes
    [calculatePossibleStats] folds over. *)
Theorem possible_adjustments_are_relevant ranges stat confirmedNegative confirmedPositive key :
  adjustmentAt
    (getPossibleNatureAdjustmentsForStat ranges stat (confirmedNegative, confirmedPositive))
    key = true ->
  In (regimeOf ranges key) (relevantRangesOf confirmedNegative confirmedPositive stat ranges)
  /\ (stat <> hp ->
      In key (map fst (relevantModifiersOf stat (confirmedNegative, confirmedPositive)))).
Proof.
  unfold relevantRangesOf, relevantModifiersOf, getPossibleNatureAdjustmentsForStat.
  intros Hflag. split.
  - destruct confirmedNegative as [n|], confirmedPositive as [p|];
      unfold is_stat, is_Some_b in Hflag |- *;
      try destruct (Stat_eqb n stat); try destruct (Stat_eqb p stat);
      destruct key; cbn in Hflag |- *; rewrite ?andb_false_r in Hflag;
      first [discriminate Hflag | now left | right; now left | right; right; now left].
  - intros Hstat.
    assert (Stat_eqb stat hp = false) as ->.
    { destruct (Stat_eqb stat hp) eqn:Heq; [|reflexivity].
      apply Stat_eqb_true in Heq. contradiction. }
    destruct confirmedNegative as [n|], confirmedPositive as [p|];
      unfold is_stat, is_Some_b in Hflag |- *;
      try destruct (Stat_eqb n stat); try destruct (Stat_eqb p stat);
      destruct key; cbn in Hflag |- *; rewrite ?andb_false_r in Hflag;
      first [discriminate Hflag | now left | right; now left | right; right; now left].
Qed.

(** X11. [isIVWithinRange] is the disjunction over the possible
    adjustments: it holds exactly when some regime that
    [getPossibleNatureAdjustmentsForStat] flags has a damage result
    within its interval, its two early returns included. *)
Theorem isIVWithinRange_iff damageResult confirmedNature stat ranges :
  isIVWithinRange damageResult confirmedNature stat ranges = true
  <-> exists key,
        adjustmentAt (getPossibleNatureAdjustmentsForStat ranges stat confirmedNature) key
        = true
        /\ isIVWithinValues (damageResult key) (regimeOf ranges key) = true.
Proof.
  destruct confirmedNature as [confirmedNegative confirmedPositive].
  unfold isIVWithinRange, getPossibleNatureAdjustmentsForStat.
  destruct (is_stat confirmedNegative stat), (is_stat confirmedPositive stat); cbn [andb negb].
  4: destruct (strict_neq (fst (negative ranges)) (Num (-1)) && negb (is_Some_b confirmedNegative)),
       (strict_neq (fst (neutral ranges)) (Num (-1))),
       (strict_neq (fst (positive ranges)) (Num (-1)) && negb (is_Some_b confirmedPositive)).
  1: destruct (strict_neq (fst (negative ranges)) (Num (-1)) && negb (is_Some_b confirmedNegative)),
       (strict_neq (fst (neutral ranges)) (Num (-1))),
       (strict_neq (fst (positive ranges)) (Num (-1)) && negb (is_Some_b confirmedPositive)).
  all: cbn [List.filter existsb adjustmentAt regimeOf]; rewrite ?orb_false_r;
    (split;
     [ intros Hwithin;
       repeat match goal with
       | H : (_ || _) = true |- _ => apply orb_true_iff in H as [H|H]
       end;
       first [discriminate Hwithin
             | exists key_negative; split; [reflexivity | exact Hwithin]
             | exists key_neutral; split; [reflexivity | exact Hwithin]
             | exists key_positive; split; [reflexivity | exact Hwithin] ]
     | intros ([| |] & Hflag & Hwithin); cbn in Hflag, Hwithin;
       first [discriminate Hflag | rewrite Hwithin; rewrite ?orb_true_r; reflexivity] ]).
Qed.

(** ** Possible and valid stat values *)

Lemma statValues_In stat level baseStat ev modifiers gen a b v :
  In v (flat_map
          (fun iv =>
             map (fun modifier => calculateStatOrHP stat level baseStat iv ev modifier gen)
               modifiers)
          (range (Num a) (Num b)))
  <-> exists iv modifier,
        a <= iv <= b /\ In modifier modifiers
        /\ v = calculateStatOrHP stat level baseStat (Num iv) ev modifier gen.
Proof.
  rewrite in_flat_map. split.
  - intros (x & Hx & Hv). apply in_map_iff in Hv as (modifier & <- & Hmodifier).
    apply range_between in Hx as (a' & b' & [= <-] & [= <-] & iv & -> & Hiv).
    now exists iv, modifier.
  - intros (iv & modifier & Hiv & Hmodifier & ->). exists (Num iv).
    split; [now apply range_complete|]. apply in_map_iff. now exists modifier.
Qed.

(** X12. [calculatePossibleStatValues] returns two lists without
    repetition: the valid values are exactly the stat values of the IVs
    from [minIV] to [maxIV] under one of the modifiers, and the possible
    values exactly those of the IVs from 0 to 31. *)
Theorem calculatePossibleStatValues_spec stat level baseStat minIV maxIV ev modifiers gen :
  let values :=
    calculatePossibleStatValues stat level baseStat (Num minIV) (Num maxIV) ev modifiers gen in
  List.NoDup (possible values)
  /\ List.NoDup (valid values)
  /\ (forall v,
        In v (valid values)
        <-> exists iv modifier,
              minIV <= iv <= maxIV /\ In modifier modifiers
              /\ v = calculateStatOrHP stat level baseStat (Num iv) ev modifier gen)
  /\ (forall v,
        In v (possible values)
        <-> exists iv modifier,
              0 <= iv <= 31 /\ In modifier modifiers
              /\ v = calculateStatOrHP stat level baseStat (Num iv) ev modifier gen).
Proof.
  unfold calculatePossibleStatValues. cbn [possible valid].
  split; [apply Set_values_from_NoDup|]. split; [apply Set_values_from_NoDup|].
  split; intros v; rewrite Set_values_In; apply statValues_In.
Qed.

Lemma calculatePossibleStats_In (select : StatValuePossibilitySet -> list number)
    stat level (ivRanges : StatRecord IVRangeSet) tracker stage modifiers start v :
  (forall a b, select {| possible := a; valid := b |} = a)
  \/ (forall a b, select {| possible := a; valid := b |} = b) ->
  In v (select
          (fold_left
             (fun combinedSet '(key, modifier) =>
                let values := regimeOf (ivRanges stat) key in
                if strict_eq (fst values) (Num (-1)) then combinedSet
                else
                  let calculatedValues :=
                    calculatePossibleStatValues stat level (baseStatAt tracker stage stat)
                      (fst values) (snd values) (evAt tracker level stat) [modifier]
                      (generation tracker) in
                  {| possible := possible combinedSet ++ possible calculatedValues;
                     valid := valid combinedSet ++ valid calculatedValues |})
             modifiers start))
  <-> In v (select start)
      \/ exists key modifier,
           In (key, modifier) modifiers
           /\ strict_eq (fst (regimeOf (ivRanges stat) key)) (Num (-1)) = false
           /\ In v (select
                      (calculatePossibleStatValues stat level (baseStatAt tracker stage stat)
                         (fst (regimeOf (ivRanges stat) key))
                         (snd (regimeOf (ivRanges stat) key))
                         (evAt tracker level stat) [modifier] (generation tracker))).
Proof.
  intros Hselect. revert start.
  induction modifiers as [|[key modifier] modifiers IH]; intros start.
  - simpl. split; [now left|]. intros [Hin|(key & modifier & [] & _)]. exact Hin.
  - cbn [fold_left]. rewrite IH. cbv zeta.
    destruct (strict_eq (fst (regimeOf (ivRanges stat) key)) (Num (-1))) eqn:Hskip.
    + split.
      * intros [Hin|(key' & modifier' & Hin & Hkept & Hv)]; [now left|].
        right. exists key', modifier'. split; [now right|]. now split.
      * intros [Hin|(key' & modifier' & [[= <- <-]|Hin] & Hkept & Hv)]; [now left|congruence|].
        right. exists key', modifier'. now split.
    + assert (forall calculated,
                 In v (select {| possible := possible start ++ possible calculated;
                                 valid := valid start ++ valid calculated |})
                 <-> In v (select start) \/ In v (select calculated)) as Hsplit.
      { intros calculated. destruct start as [startPossible startValid],
          calculated as [calculatedPossible calculatedValid]. cbn [possible valid].
        destruct Hselect as [Hselect|Hselect]; rewrite !Hselect; apply in_app_iff. }
      rewrite Hsplit. split.
      * intros [[Hin|Hin]|(key' & modifier' & Hin & Hkept & Hv)]; [now left| |].
        -- right. exists key, modifier. split; [now left|]. now split.
        -- right. exists key', modifier'. split; [now right|]. now split.
      * intros [Hin|(key' & modifier' & [[= <- <-]|Hin] & Hkept & Hv)].
        -- left. now left.
        -- left. now right.
        -- right. exists key', modifier'. now split.
Qed.

(** X13. With well-formed regime intervals, the valid values
    [calculatePossibleStats] returns are exactly the stat values of the
    IVs that the interval of a relevant regime contains, under the
    modifier of that regime; and every valid value is a possible
    value. *)
Theorem calculatePossibleStats_valid stat level (ivRanges : StatRecord IVRangeSet)
    confirmedNature tracker stage :
  (forall key, wellFormed (regimeOf (ivRanges stat) key)) ->
  let values := calculatePossibleStats stat level ivRanges confirmedNature tracker stage in
  (forall v,
      In v (valid values)
      <-> exists key modifier iv,
            In (key, modifier) (relevantModifiersOf stat confirmedNature)
            /\ contains (regimeOf (ivRanges stat) key) iv
            /\ v = calculateStatOrHP stat level (baseStatAt tracker stage stat) (Num iv)
                     (evAt tracker level stat) modifier (generation tracker))
  /\ (forall v, In v (valid values) -> In v (possible values)).
Proof.
  intros Hwf values.
  assert (forall v,
      In v (valid values)
      <-> exists key modifier iv,
            In (key, modifier) (relevantModifiersOf stat confirmedNature)
            /\ contains (regimeOf (ivRanges stat) key) iv
            /\ v = calculateStatOrHP stat level (baseStatAt tracker stage stat) (Num iv)
                     (evAt tracker level stat) modifier (generation tracker)) as Hvalid.
  { intros v. unfold values, calculatePossibleStats.
    rewrite (calculatePossibleStats_In valid); [|right; reflexivity].
    cbn [valid]. split.
    - intros [[]|(key & modifier & Hin & Hkept & Hv)].
      exists key, modifier.
      destruct (Hwf key) as [(a & b & Heq & Ha & Hab & Hb)|Heq];
        rewrite Heq in Hkept, Hv; [|discriminate Hkept].
      cbn [fst snd] in Hv.
      unfold calculatePossibleStatValues in Hv. cbn [valid] in Hv.
      apply Set_values_In, statValues_In in Hv as (iv & modifier' & Hiv & [<-|[]] & ->).
      exists iv. split; [exact Hin|]. split; [|reflexivity].
      rewrite Heq. split; [unfold sentinel; intros [= -> ->]; lia|].
      now exists a, b.
    - intros (key & modifier & iv & Hin & (Hsentinel & a & b & Heq & Hiv) & ->).
      right. exists key, modifier. split; [exact Hin|]. rewrite Heq. cbn [fst snd].
      destruct (Hwf key) as [(a' & b' & Heq' & Ha & Hab & Hb)|Heq']; [|congruence].
      rewrite Heq in Heq'. injection Heq' as <- <-.
      split; [simpl; apply Z.eqb_neq; lia|].
      unfold calculatePossibleStatValues. cbn [valid].
      apply Set_values_In, statValues_In. exists iv, modifier.
      split; [exact Hiv|]. split; [now left | reflexivity]. }
  split; [exact Hvalid|].
  intros v Hv. apply Hvalid in Hv
    as (key & modifier & iv & Hin & (Hsentinel & a & b & Heq & Hiv) & ->).
  unfold values, calculatePossibleStats.
  apply (calculatePossibleStats_In possible); [left; reflexivity|].
  right. exists key, modifier. split; [exact Hin|]. rewrite Heq. cbn [fst snd].
  destruct (Hwf key) as [(a' & b' & Heq' & Ha & Hab & Hb)|Heq']; [|congruence].
  rewrite Heq in Heq'. injection Heq' as <- <-.
  split; [simpl; apply Z.eqb_neq; lia|].
  unfold calculatePossibleStatValues. cbn [possible].
  apply Set_values_In, statValues_In. exists iv, modifier.
  split; [lia|]. split; [now left | reflexivity].
Qed.

(** ** Stats computed without a nature modifier *)

Lemma fold_left_pointwise {A B} (f g : A -> B -> A) (l : list B) (start : A) :
  (forall acc x, f acc x = g acc x) -> fold_left f l start = fold_left g l start.
Proof.
  intros Hfg. revert start. induction l as [|x l IH]; intros start; [reflexivity|].
  cbn [fold_left]. rewrite Hfg. apply IH.
Qed.

Lemma narrowObservation_modifier stat tracker baseStat modifier1 modifier2 acc entry :
  stat = hp \/ generation tracker <= 2 ->
  narrowObservation stat tracker baseStat modifier1 acc entry
  = narrowObservation stat tracker baseStat modifier2 acc entry.
Proof.
  intros Hplain.
  assert (forall min max level (statLine : StatLine),
             matchingStatsOf stat tracker baseStat modifier1 min max level statLine
             = matchingStatsOf stat tracker baseStat modifier2 min max level statLine)
    as Hmatching.
  { intros min max level statLine. unfold matchingStatsOf.
    apply List.filter_ext. intros possibleIV. f_equal. unfold calculateStatOrHP.
    destruct Hplain as [->|Hgeneration]; [reflexivity|].
    destruct (Stat_eqb stat hp); [reflexivity|].
    apply Z.leb_le in Hgeneration. now rewrite Hgeneration. }
  unfold narrowObservation. destruct acc as [min max], entry as [level [statLine|]];
    [|reflexivity].
  now rewrite Hmatching.
Qed.

Lemma narrowRegime_modifier stat tracker modifier1 modifier2 :
  stat = hp \/ generation tracker <= 2 ->
  narrowRegime stat tracker modifier1 = narrowRegime stat tracker modifier2.
Proof.
  intros Hplain. unfold narrowRegime. apply fold_left_pointwise.
  intros acc [evo statSegments]. unfold narrowEvolution.
  destruct acc as [acc|]; [|reflexivity]. simpl.
  destruct (array_get (baseStats tracker) evo) as [row|]; [|reflexivity]. simpl.
  f_equal. apply fold_left_pointwise. intros acc' entry.
  now apply narrowObservation_modifier.
Qed.

(** X14. For HP in every generation, and for every stat in generations
    1 and 2, the stat formula does not read the nature modifier, so the
    observed-data branch gives the three regimes the same interval. *)
Theorem regimes_coincide_without_modifier stat tracker ranges :
  stat = hp \/ generation tracker <= 2 ->
  staticIVs tracker stat = Num (-1) ->
  directInput tracker = false ->
  calculatePossibleIVRange stat tracker = Some ranges ->
  negative ranges = neutral ranges /\ positive ranges = neutral ranges.
Proof.
  intros Hplain Hstatic Hdirect. unfold calculatePossibleIVRange.
  rewrite Hstatic, Hdirect. simpl.
  destruct (modifierSetOf stat tracker) as [modifierSet|] eqn:Hset; [|discriminate].
  apply modifierSetOf_Some in Hset
    as (negative & neutral & positive & Hn & Hu & Hp & Hkn & Hku & Hkp).
  simpl. rewrite Hkn, Hku, Hkp. simpl. intros [= <-]. simpl.
  rewrite (narrowRegime_modifier stat tracker (9 # 10) (1 # 1) Hplain) in Hn.
  rewrite (narrowRegime_modifier stat tracker (11 # 10) (1 # 1) Hplain) in Hp.
  split; congruence.
Qed.

(** ** Hidden power from the admissible IVs *)

Lemma filter_all {A} (f : A -> bool) (l : list A) :
  (forall x, In x l -> f x = true) -> List.filter f l = l.
Proof.
  induction l as [|x l IH]; intros Hall; [reflexivity|].
  simpl. rewrite (Hall x) by now left. f_equal. apply IH. intros y Hy. apply Hall. now right.
Qed.

Lemma filter_none {A} (f : A -> bool) (l : list A) :
  (forall x, In x l -> f x = false) -> List.filter f l = [].
Proof.
  induction l as [|x l IH]; intros Hall; [reflexivity|].
  simpl. rewrite (Hall x) by now left. apply IH. intros y Hy. apply Hall. now right.
Qed.

Lemma rem2_is_parity z (odd : bool) :
  0 <= z -> rem2_is (Num z) (if odd then 1 else 0) = Bool.eqb odd (Z.odd z).
Proof.
  intros Hz. unfold rem2_is. rewrite Z.rem_mod_nonneg by lia. rewrite Zmod_odd.
  destruct odd, (Z.odd z); reflexivity.
Qed.

(** The probability of a parity is 1 or 0 when every admissible value of
    the stat has the same parity. *)
Lemma calculateOddnessProbababilityOfStat_certain ivRange stat confirmedNature parity odd :
  getUniqueIVValuesInRangeSet ivRange stat confirmedNature <> [] ->
  (forall x, In x (getUniqueIVValuesInRangeSet ivRange stat confirmedNature) ->
             exists z, x = Num z /\ 0 <= z /\ Z.odd z = parity) ->
  (calculateOddnessProbababilityOfStat ivRange stat confirmedNature odd
   == if Bool.eqb odd parity then 1 else 0)%Q.
Proof.
  intros Hnonempty Hparity. unfold calculateOddnessProbababilityOfStat.
  destruct (getUniqueIVValuesInRangeSet ivRange stat confirmedNature) as [|x values] eqn:Hvalues;
    [contradiction|].
  cbn [length Nat.eqb].
  destruct (Bool.eqb odd parity) eqn:Hodd.
  - rewrite filter_all.
    + unfold Qeq. cbn [Qnum Qden length]. lia.
    + intros y Hy. destruct (Hparity y Hy) as (z & -> & Hz & <-).
      now rewrite rem2_is_parity.
  - rewrite filter_none; [reflexivity|].
    intros y Hy. destruct (Hparity y Hy) as (z & -> & Hz & <-).
    now rewrite rem2_is_parity.
Qed.

(** X15. When the admissible IVs of each stat all have one parity, the
    hidden power type is the one of that combination of parities: the
    name [HIDDEN_POWER_TYPES] holds at its index. *)
Theorem calculateHiddenPowerType_of_known_parities ivs confirmedNature (parity : Stat -> bool) :
  (forall stat,
      getUniqueIVValuesInRangeSet (ivs stat) stat confirmedNature <> []
      /\ forall x, In x (getUniqueIVValuesInRangeSet (ivs stat) stat confirmedNature) ->
                   exists z, x = Num z /\ 0 <= z /\ Z.odd z = parity stat) ->
  calculateHiddenPowerType ivs confirmedNature
  = Some (array_get HIDDEN_POWER_TYPES
            (hiddenPowerIndex
               (parity hp, parity attack, parity defense,
                parity spAttack, parity spDefense, parity speed))).
Proof.
  intros Hparity.
  assert (forall a b c d e f,
             (probabilityOf ivs confirmedNature (a, b, c, d, e, f)
              == (if Bool.eqb a (parity hp) then 1 else 0)
                 * (if Bool.eqb b (parity attack) then 1 else 0)
                 * (if Bool.eqb c (parity defense) then 1 else 0)
                 * (if Bool.eqb d (parity spAttack) then 1 else 0)
                 * (if Bool.eqb e (parity spDefense) then 1 else 0)
                 * (if Bool.eqb f (parity speed) then 1 else 0))%Q) as Hprobability.
  { intros a b c d e f. unfold probabilityOf, calculateHiddenPowerProbability.
    rewrite (calculateOddnessProbababilityOfStat_certain (ivs hp) hp confirmedNature
               (parity hp) a (proj1 (Hparity hp)) (proj2 (Hparity hp))).
    rewrite (calculateOddnessProbababilityOfStat_certain (ivs attack) attack confirmedNature
               (parity attack) b (proj1 (Hparity attack)) (proj2 (Hparity attack))).
    rewrite (calculateOddnessProbababilityOfStat_certain (ivs defense) defense confirmedNature
               (parity defense) c (proj1 (Hparity defense)) (proj2 (Hparity defense))).
    rewrite (calculateOddnessProbababilityOfStat_certain (ivs spAttack) spAttack
               confirmedNature (parity spAttack) d
               (proj1 (Hparity spAttack)) (proj2 (Hparity spAttack))).
    rewrite (calculateOddnessProbababilityOfStat_certain (ivs spDefense) spDefense
               confirmedNature (parity spDefense) e
               (proj1 (Hparity spDefense)) (proj2 (Hparity spDefense))).
    rewrite (calculateOddnessProbababilityOfStat_certain (ivs speed) speed confirmedNature
               (parity speed) f (proj1 (Hparity speed)) (proj2 (Hparity speed))).
    reflexivity. }
  unfold calculateHiddenPowerType, mostProbableCombination.
  set (values := map _ CartesianProduct).
  set (known := (parity hp, parity attack, parity defense,
                 parity spAttack, parity spDefense, parity speed)).
  destruct (fold_mostProbable_max values (0%Q, None)) as (Hin & _ & Hmax).
  assert (1 <= fst (fold_left mostProbable values (0%Q, None)))%Q as Hone.
  { pose proof (Hprobability (parity hp) (parity attack) (parity defense)
                  (parity spAttack) (parity spDefense) (parity speed)) as Hknown.
    rewrite !Bool.eqb_reflx in Hknown. fold known in Hknown.
    apply Qle_trans with (probabilityOf ivs confirmedNature known).
    - rewrite Hknown. apply Qle_lteq. right. reflexivity.
    - apply (Hmax (probabilityOf ivs confirmedNature known, Some known)).
      apply in_map_iff. exists known.
      split; [reflexivity | apply CartesianProduct_complete]. }
  destruct Hin as [Heq|Hin].
  - rewrite Heq in Hone. exfalso. revert Hone. apply Qlt_not_le. reflexivity.
  - apply in_map_iff in Hin as ([[[[[a b] c] d] e] f] & Heq & _).
    rewrite <- Heq in Hone |- *. cbn [fst snd] in Hone |- *.
    pose proof (Hprobability a b c d e f) as Hcombination.
    rewrite Hcombination in Hone. clear Hcombination.
    destruct (Bool.eqb a (parity hp)) eqn:Ha, (Bool.eqb b (parity attack)) eqn:Hb,
      (Bool.eqb c (parity defense)) eqn:Hc, (Bool.eqb d (parity spAttack)) eqn:Hd,
      (Bool.eqb e (parity spDefense)) eqn:He, (Bool.eqb f (parity speed)) eqn:Hf;
      try (exfalso; revert Hone; apply Qlt_not_le; reflexivity).
    apply Bool.eqb_prop in Ha, Hb, Hc, Hd, He, Hf. subst a b c d e f. reflexivity.
Qed.

Lemma getIVValuesInSection_between section x :
  wellFormed section -> In x (getIVValuesInSection section) -> between 0 31 x.
Proof.
  intros [(a & b & -> & Ha & Hab & Hb)| ->]; [|intros []].
  unfold getIVValuesInSection.
  destruct (_ || _); [intros []|]. intros Hin.
  apply range_between in Hin as (a' & b' & [= <-] & [= <-] & z & -> & Hz).
  exists z. split; [reflexivity | lia].
Qed.

Lemma getUniqueIVValuesInRangeSet_between ivRange stat confirmedNature x :
  (forall key, wellFormed (regimeOf ivRange key)) ->
  In x (getUniqueIVValuesInRangeSet ivRange stat confirmedNature) -> between 0 31 x.
Proof.
  intros Hwf. destruct confirmedNature as [negativeNature positiveNature].
  unfold getUniqueIVValuesInRangeSet.
  destruct (is_stat negativeNature stat);
    [apply getIVValuesInSection_between, (Hwf key_negative)|].
  destruct (is_stat positiveNature stat);
    [apply getIVValuesInSection_between, (Hwf key_positive)|].
  rewrite Set_values_In, !in_app_iff.
  intros [Hin|[Hin|Hin]].
  - destruct (is_Some_b negativeNature); [destruct Hin|].
    now apply (getIVValuesInSection_between _ _ (Hwf key_negative)).
  - now apply (getIVValuesInSection_between _ _ (Hwf key_neutral)).
  - destruct (is_Some_b positiveNature); [destruct Hin|].
    now apply (getIVValuesInSection_between _ _ (Hwf key_positive)).
Qed.

(** A stat with an admissible value has a parity of positive
    probability. *)
Lemma calculateOddnessProbababilityOfStat_positive ivRange stat confirmedNature :
  (forall key, wellFormed (regimeOf ivRange key)) ->
  getUniqueIVValuesInRangeSet ivRange stat confirmedNature <> [] ->
  exists odd, (0 < calculateOddnessProbababilityOfStat ivRange stat confirmedNature odd)%Q.
Proof.
  intros Hwf Hnonempty.
  pose proof (getUniqueIVValuesInRangeSet_between ivRange stat confirmedNature) as Hbetween.
  unfold calculateOddnessProbababilityOfStat.
  destruct (getUniqueIVValuesInRangeSet ivRange stat confirmedNature) as [|x values];
    [contradiction|].
  destruct (Hbetween x Hwf) as (z & -> & Hz); [now left|].
  exists (Z.odd z). cbn [length Nat.eqb List.filter].
  rewrite rem2_is_parity by lia. rewrite Bool.eqb_reflx.
  unfold Qlt. cbn [Qnum Qden length]. lia.
Qed.

Lemma calculateOddnessProbababilityOfStat_empty ivRange stat confirmedNature odd :
  getUniqueIVValuesInRangeSet ivRange stat confirmedNature = [] ->
  calculateOddnessProbababilityOfStat ivRange stat confirmedNature odd = 0%Q.
Proof.
  intros Hempty. unfold calculateOddnessProbababilityOfStat. now rewrite Hempty.
Qed.

(** X16. With well-formed regime intervals, [calculateHiddenPowerType]
    returns [null] exactly when some stat has no admissible IV left. *)
Theorem calculateHiddenPowerType_null_iff_no_value (ivs : StatRecord IVRangeSet) confirmedNature :
  (forall stat key, wellFormed (regimeOf (ivs stat) key)) ->
  calculateHiddenPowerType ivs confirmedNature = None
  <-> exists stat, getUniqueIVValuesInRangeSet (ivs stat) stat confirmedNature = [].
Proof.
  intros Hwf. unfold calculateHiddenPowerType, mostProbableCombination.
  set (values := map _ CartesianProduct).
  split.
  - intros Hnull.
    destruct (getUniqueIVValuesInRangeSet (ivs hp) hp confirmedNature) eqn:H1;
      [now exists hp|].
    destruct (getUniqueIVValuesInRangeSet (ivs attack) attack confirmedNature) eqn:H2;
      [now exists attack|].
    destruct (getUniqueIVValuesInRangeSet (ivs defense) defense confirmedNature) eqn:H3;
      [now exists defense|].
    destruct (getUniqueIVValuesInRangeSet (ivs spAttack) spAttack confirmedNature) eqn:H4;
      [now exists spAttack|].
    destruct (getUniqueIVValuesInRangeSet (ivs spDefense) spDefense confirmedNature) eqn:H5;
      [now exists spDefense|].
    destruct (getUniqueIVValuesInRangeSet (ivs speed) speed confirmedNature) eqn:H6;
      [now exists speed|].
    exfalso.
    destruct (calculateOddnessProbababilityOfStat_positive (ivs hp) hp confirmedNature
                (Hwf hp)) as [a Ha]; [now rewrite H1|].
    destruct (calculateOddnessProbababilityOfStat_positive (ivs attack) attack confirmedNature
                (Hwf attack)) as [b Hb]; [now rewrite H2|].
    destruct (calculateOddnessProbababilityOfStat_positive (ivs defense) defense
                confirmedNature (Hwf defense)) as [c Hc]; [now rewrite H3|].
    destruct (calculateOddnessProbababilityOfStat_positive (ivs spAttack) spAttack
                confirmedNature (Hwf spAttack)) as [d Hd]; [now rewrite H4|].
    destruct (calculateOddnessProbababilityOfStat_positive (ivs spDefense) spDefense
                confirmedNature (Hwf spDefense)) as [e He]; [now rewrite H5|].
    destruct (calculateOddnessProbababilityOfStat_positive (ivs speed) speed confirmedNature
                (Hwf speed)) as [f Hf]; [now rewrite H6|].
    assert (0 < probabilityOf ivs confirmedNature (a, b, c, d, e, f))%Q as Hpositive.
    { unfold probabilityOf, calculateHiddenPowerProbability.
      repeat apply Qmult_lt_0_compat; assumption. }
    destruct (fold_mostProbable_max values (0%Q, None)) as (Hin & _ & Hmax).
    destruct Hin as [Heq|Hin].
    + specialize (Hmax (probabilityOf ivs confirmedNature (a, b, c, d, e, f),
                        Some (a, b, c, d, e, f))).
      rewrite Heq in Hmax. cbn [fst] in Hmax.
      eapply Qlt_not_le; [exact Hpositive|]. apply Hmax.
      apply in_map_iff. exists (a, b, c, d, e, f).
      split; [reflexivity | apply CartesianProduct_complete].
    + apply in_map_iff in Hin as (combination & Heq & _).
      rewrite <- Heq in Hnull. discriminate.
  - intros [stat Hempty]. rewrite fold_mostProbable_keeps; [reflexivity|].
    intros value Hin. apply in_map_iff in Hin as ([[[[[a b] c] d] e] f] & <- & _).
    cbn [fst]. unfold probabilityOf, calculateHiddenPowerProbability.
    destruct stat;
      rewrite (calculateOddnessProbababilityOfStat_empty _ _ _ _ Hempty);
      repeat (rewrite Qmult_0_l || rewrite Qmult_0_r); apply Qle_refl.
Qed.

(** ** Calculation sets *)

Lemma find_entries_ext {T} (test : Stat * T -> bool) (r1 r2 : StatRecord T) :
  (forall stat, test (stat, r1 stat) = test (stat, r2 stat)) ->
  fst <$> List.find test (Object_entries r1) = fst <$> List.find test (Object_entries r2).
Proof.
  intros Hext. unfold Object_entries.
  induction STATS as [|stat stats IH]; [reflexivity|].
  cbn [map List.find]. rewrite Hext. destruct (test (stat, r2 stat)); [reflexivity | exact IH].
Qed.

Lemma filter_entries_ext {T} (test : Stat * T -> bool) (r1 r2 : StatRecord T) :
  (forall stat, test (stat, r1 stat) = test (stat, r2 stat)) ->
  map fst (List.filter test (Object_entries r1))
  = map fst (List.filter test (Object_entries r2)).
Proof.
  intros Hext. unfold Object_entries.
  induction STATS as [|stat stats IH]; [reflexivity|].
  cbn [map List.filter]. rewrite Hext. destruct (test (stat, r2 stat)); [|exact IH].
  cbn [map fst]. now rewrite IH.
Qed.

Lemma map_fst_length_head {T} (l1 l2 : list (Stat * T)) :
  map fst l1 = map fst l2 ->
  length l1 = length l2 /\ fst <$> head l1 = fst <$> head l2.
Proof.
  intros Heq. split.
  - now rewrite <- (length_map fst l1), <- (length_map fst l2), Heq.
  - destruct l1, l2; try discriminate; [reflexivity|].
    injection Heq as Heq _. simpl. now rewrite Heq.
Qed.

(** [calculatePossibleNature] reads the regime intervals only. *)
Lemma calculatePossibleNature_regimes (ranges1 ranges2 : StatRecord IVRangeSet) tracker :
  (forall stat key, regimeOf (ranges1 stat) key = regimeOf (ranges2 stat) key) ->
  calculatePossibleNature ranges1 tracker = calculatePossibleNature ranges2 tracker.
Proof.
  intros Hregimes.
  assert (forall stat, negative (ranges1 stat) = negative (ranges2 stat)) as Hnegative
      by (intros stat; exact (Hregimes stat key_negative)).
  assert (forall stat, neutral (ranges1 stat) = neutral (ranges2 stat)) as Hneutral
      by (intros stat; exact (Hregimes stat key_neutral)).
  assert (forall stat, positive (ranges1 stat) = positive (ranges2 stat)) as Hpositive
      by (intros stat; exact (Hregimes stat key_positive)).
  unfold calculatePossibleNature.
  destruct (staticNatureDefinition tracker); [reflexivity|]. cbv zeta.
  repeat match goal with
  | |- context [fst <$> List.find ?test (Object_entries ranges1)] =>
      rewrite (find_entries_ext test ranges1 ranges2)
        by (intros stat; cbv beta iota; now rewrite ?Hnegative, ?Hneutral, ?Hpositive)
  end.
  repeat match goal with
  | |- context [List.filter ?test (Object_entries ranges1)] =>
      let Hfilter := fresh "Hfilter" in
      assert (map fst (List.filter test (Object_entries ranges1))
              = map fst (List.filter test (Object_entries ranges2))) as Hfilter
        by (apply filter_entries_ext; intros stat; cbv beta iota;
            now rewrite ?Hnegative, ?Hneutral, ?Hpositive);
      apply map_fst_length_head in Hfilter as [Hlength Hhead];
      rewrite Hlength, Hhead; clear Hlength Hhead
  end.
  reflexivity.
Qed.

(** X17. The nature [buildTrackerCalculationSet] stores is the one the
    stored combined intervals were computed with: each stored
    [IVRangeSet] is the result of [calculatePossibleIVRange] with its
    combined interval retaken over the regimes that stored nature
    leaves, although the two are computed apart, the nature a second
    time from the finished ranges. *)
Theorem calculation_set_nature_is_consistent state tracker calculationSet :
  buildTrackerCalculationSet state tracker = Some calculationSet ->
  forall stat,
  exists ranges,
    calculatePossibleIVRange stat tracker = Some ranges
    /\ ivRanges calculationSet stat
       = recombine (fst (confirmedNature calculationSet))
           (snd (confirmedNature calculationSet)) stat ranges.
Proof.
  unfold buildTrackerCalculationSet.
  destruct (calculateAllPossibleIVRanges tracker) as [allRanges|] eqn:Hall; [|discriminate].
  simpl. intros [= <-] stat. cbn [ivRanges confirmedNature].
  revert Hall. unfold calculateAllPossibleIVRanges.
  destruct (statRecordOf (fun stat => calculatePossibleIVRange stat tracker))
    as [preliminaryResults|] eqn:Hpreliminary; [|discriminate].
  simpl.
  destruct (if generation tracker <=? 2 then _ else _)
    as [confirmedNegative confirmedPositive] eqn:Hnature.
  intros Hall.
  pose proof (statRecordOf_Some _ _ Hall) as Hrecombined.
  exists (preliminaryResults stat).
  split; [exact (statRecordOf_Some _ _ Hpreliminary stat)|].
  specialize (Hrecombined stat) as Hstat. injection Hstat as <-.
  destruct (generation tracker <=? 2).
  - injection Hnature as <- <-. reflexivity.
  - rewrite (calculatePossibleNature_regimes allRanges preliminaryResults), Hnature;
      [reflexivity|].
    intros stat' key. specialize (Hrecombined stat'). injection Hrecombined as <-.
    destruct key; reflexivity.
Qed.

Lemma fold_variables_lookup (entries : list (string * (string * option string)))
    (acc : gmap string JSValue) key :
  List.NoDup (map fst entries) ->
  fold_left
    (fun acc '(key, (type, value)) => <[key := castRouteVariableAsType type value]> acc)
    entries acc !! key
  = match (list_to_map entries : gmap string (string * option string)) !! key with
    | Some (type, value) => Some (castRouteVariableAsType type value)
    | None => acc !! key
    end.
Proof.
  revert acc. induction entries as [|[key' [type value]] entries IH]; intros acc Hnodup.
  - simpl. now rewrite lookup_empty.
  - apply List.NoDup_cons_iff in Hnodup as [Hfresh Hnodup].
    cbn [fold_left]. rewrite IH by exact Hnodup. rewrite list_to_map_cons.
    destruct (decide (key = key')) as [->|Hneq].
    + assert ((list_to_map entries : gmap string (string * option string)) !! key' = None)
        as ->.
      { apply not_elem_of_list_to_map_1. intros Hin. apply Hfresh.
        apply list_elem_of_In. exact Hin. }
      now rewrite !lookup_insert_eq.
    + rewrite (lookup_insert_ne (list_to_map entries)) by congruence.
      destruct (list_to_map entries !! key) as [[type' value']|]; [reflexivity|].
      now rewrite lookup_insert_ne by congruence.
Qed.

(** X18. The variables of a calculation set are the route variables,
    each cast by [castRouteVariableAsType] under its own type tag: the
    same keys, none added and none lost. *)
Theorem calculation_set_variables state tracker calculationSet key :
  buildTrackerCalculationSet state tracker = Some calculationSet ->
  variables calculationSet !! key
  = (fun '(type, value) => castRouteVariableAsType type value)
      <$> RouteState.variables state !! key.
Proof.
  unfold buildTrackerCalculationSet.
  destruct (calculateAllPossibleIVRanges tracker) as [allRanges|]; [|discriminate].
  simpl. intros [= <-]. cbn [variables].
  rewrite fold_variables_lookup.
  - rewrite list_to_map_to_list, lookup_empty.
    destruct (RouteState.variables state !! key) as [[type value]|]; reflexivity.
  - apply NoDup_ListNoDup, NoDup_fst_map_to_list.
Qed.

Lemma fold_buildTrackerCalculationSet_None state (trackers : list (string * Tracker)) :
  fold_left
    (fun (acc : option (gmap string TrackerCalculations)) '(name, tracker) =>
       acc ← acc;
       calculationSet ← buildTrackerCalculationSet state tracker;
       Some (<[name := calculationSet]> acc))
    trackers None = None.
Proof. induction trackers as [|[name tracker] trackers IH]; [reflexivity | exact IH]. Qed.

Lemma buildTrackerCalculationSet_None state tracker :
  buildTrackerCalculationSet state tracker = None
  <-> calculateAllPossibleIVRanges tracker = None.
Proof.
  unfold buildTrackerCalculationSet.
  destruct (calculateAllPossibleIVRanges tracker); simpl; split; congruence.
Qed.

Lemma fold_buildTrackerCalculationSet_fails state (trackers : list (string * Tracker)) acc :
  fold_left
    (fun (acc : option (gmap string TrackerCalculations)) '(name, tracker) =>
       acc ← acc;
       calculationSet ← buildTrackerCalculationSet state tracker;
       Some (<[name := calculationSet]> acc))
    trackers (Some acc) = None
  <-> exists name tracker,
        In (name, tracker) trackers /\ calculateAllPossibleIVRanges tracker = None.
Proof.
  revert acc. induction trackers as [|[name tracker] trackers IH]; intros acc.
  - simpl. split; [discriminate | intros (name & tracker & [] & _)].
  - cbn [fold_left]. simpl.
    destruct (buildTrackerCalculationSet state tracker) as [calculationSet|] eqn:Hbuild; simpl.
    + rewrite IH. split.
      * intros (name' & tracker' & Hin & Hnone). exists name', tracker'.
        split; [now right | exact Hnone].
      * intros (name' & tracker' & [[= <- <-]|Hin] & Hnone).
        -- apply (buildTrackerCalculationSet_None state) in Hnone. congruence.
        -- now exists name', tracker'.
    + split; [|intros _; apply fold_buildTrackerCalculationSet_None].
      intros _. exists name, tracker. split; [now left|].
      exact (proj1 (buildTrackerCalculationSet_None state tracker) Hbuild).
Qed.

Lemma fold_buildTrackerCalculationSet_lookup state (trackers : list (string * Tracker)) acc
    calculationSets name :
  fold_left
    (fun (acc : option (gmap string TrackerCalculations)) '(name, tracker) =>
       acc ← acc;
       calculationSet ← buildTrackerCalculationSet state tracker;
       Some (<[name := calculationSet]> acc))
    trackers (Some acc) = Some calculationSets ->
  (~ In name (map fst trackers) -> calculationSets !! name = acc !! name)
  /\ (List.NoDup (map fst trackers) ->
      forall tracker, In (name, tracker) trackers ->
        calculationSets !! name = buildTrackerCalculationSet state tracker).
Proof.
  revert acc. induction trackers as [|[name' tracker'] trackers IH]; intros acc.
  - simpl. intros [= <-]. split; [reflexivity | intros _ tracker []].
  - cbn [fold_left]. simpl.
    destruct (buildTrackerCalculationSet state tracker') as [calculationSet|] eqn:Hbuild;
      simpl; [|now rewrite fold_buildTrackerCalculationSet_None].
    intros Hfold. destruct (IH _ Hfold) as [Hfresh Hfound]. split.
    + intros Hnot. rewrite Hfresh by (intros Hin; apply Hnot; now right).
      apply lookup_insert_ne. intros ->. apply Hnot. now left.
    + intros Hnodup tracker Hin. apply List.NoDup_cons_iff in Hnodup as [Hfirst Hnodup].
      destruct Hin as [[= -> ->]|Hin].
      * rewrite Hfresh by exact Hfirst. rewrite Hbuild.
        apply lookup_insert_eq.
      * now apply Hfound.
Qed.

(** X19. [buildAllTrackerCalculationSets] raises exactly when
    [calculateAllPossibleIVRanges] raises for one of the trackers of the
    route. *)
Theorem buildAllTrackerCalculationSets_fails_iff state :
  buildAllTrackerCalculationSets state = None
  <-> exists name tracker,
        In (name, tracker) (RouteState.trackers state)
        /\ calculateAllPossibleIVRanges tracker = None.
Proof. apply fold_buildTrackerCalculationSet_fails. Qed.

(** X20. With trackers of distinct names, [useCalculationSet] on the
    sets of [buildAllTrackerCalculationSets] gives, for the non-empty
    name of a tracker of the route, the calculation set of that
    tracker.  For a name no tracker has it gives [null], unless
    [Object.prototype] has a member of that name ([constructor],
    [toString], ...): then it gives that member, which is neither
    [null] nor a calculation set. *)
Theorem useCalculationSet_of_built_sets state calculationSets :
  List.NoDup (map fst (RouteState.trackers state)) ->
  buildAllTrackerCalculationSets state = Some calculationSets ->
  (forall name tracker,
      In (name, tracker) (RouteState.trackers state) ->
      name <> EmptyString ->
      exists calculationSet,
        buildTrackerCalculationSet state tracker = Some calculationSet
        /\ useCalculationSet (Some <$> calculationSets) (Some name) = ReadSet calculationSet)
  /\ (forall name,
        ~ In name (map fst (RouteState.trackers state)) ->
        (~ In name Object_prototype_names ->
         useCalculationSet (Some <$> calculationSets) (Some name) = ReadNull)
        /\ (In name Object_prototype_names ->
            useCalculationSet (Some <$> calculationSets) (Some name) = ReadInherited name)).
Proof.
  intros Hnodup Hbuilt. split.
  - intros name tracker Hin Hname.
    destruct (fold_buildTrackerCalculationSet_lookup _ _ _ _ name Hbuilt) as [_ Hfound].
    specialize (Hfound Hnodup tracker Hin).
    destruct (buildTrackerCalculationSet state tracker) as [calculationSet|] eqn:Hset.
    + exists calculationSet. split; [reflexivity|].
      unfold useCalculationSet. destruct name as [|c name]; [contradiction|].
      now rewrite lookup_fmap, Hfound.
    + exfalso.
      assert (buildAllTrackerCalculationSets state = None) as Hnone; [|congruence].
      apply fold_buildTrackerCalculationSet_fails. exists name, tracker.
      split; [exact Hin|]. exact (proj1 (buildTrackerCalculationSet_None state tracker) Hset).
  - intros name Hnot.
    destruct (fold_buildTrackerCalculationSet_lookup _ _ _ _ name Hbuilt) as [Hfresh _].
    specialize (Hfresh Hnot). rewrite lookup_empty in Hfresh.
    assert (name <> EmptyString ->
            useCalculationSet (Some <$> calculationSets) (Some name)
            = if existsb (String.eqb name) Object_prototype_names
              then ReadInherited name else ReadNull) as Hread.
    { intros Hname. unfold useCalculationSet. destruct name as [|c name]; [contradiction|].
      now rewrite lookup_fmap, Hfresh. }
    split.
    + intros Hown. destruct name as [|c name]; [reflexivity|].
      rewrite Hread by discriminate.
      destruct (existsb _ Object_prototype_names) eqn:Hinherited; [|reflexivity].
      exfalso. apply Hown. apply existsb_exists in Hinherited as (member & Hmember & Heq).
      apply String.eqb_eq in Heq. now subst member.
    + intros Hinherited.
      assert (name <> EmptyString) as Hname.
      { intros ->. simpl in Hinherited.
        repeat (destruct Hinherited as [Heq|Hinherited]; [discriminate Heq|]).
        exact Hinherited. }
      rewrite Hread by exact Hname.
      assert (existsb (String.eqb name) Object_prototype_names = true) as ->; [|reflexivity].
      apply existsb_exists. exists name. split; [exact Hinherited | apply String.eqb_refl].
Qed.

(** ** Type definitions *)

(** X21. [parseTypeDefinition] calls [onError] at most once.  When it
    does, the result is empty and the argument is a segment of the text,
    not empty and no type name.  When it does not, the result is the
    list of the trimmed, lowercased segments, and these are all type
    names unless the empty string is one of them. *)
Theorem parseTypeDefinition_outcomes rawTypes :
  let typeSegments := map (fun x => toLowerCase (trim x)) (split "/" rawTypes) in
  (parseTypeDefinition rawTypes = (typeSegments, [])
   /\ (Forall (fun segment => In segment TYPE_NAMES) typeSegments
       \/ In EmptyString typeSegments))
  \/ exists invalidSegment,
       parseTypeDefinition rawTypes = ([], [invalidSegment])
       /\ invalidSegment <> EmptyString
       /\ In invalidSegment typeSegments
       /\ ~ In invalidSegment TYPE_NAMES.
Proof.
  intros typeSegments. unfold parseTypeDefinition. fold typeSegments.
  destruct (List.find _ typeSegments) as [[|c invalidSegment]|] eqn:Hfind.
  - left. split; [reflexivity|]. right. now apply find_some in Hfind as [Hin _].
  - right. exists (String c invalidSegment). split; [reflexivity|].
    split; [discriminate|]. apply find_some in Hfind as [Hin Hnot].
    split; [exact Hin|]. intros Hname. apply negb_true_iff in Hnot.
    assert (existsb (String.eqb (String c invalidSegment)) TYPE_NAMES = true) as Hex;
      [|congruence].
    apply existsb_exists. exists (String c invalidSegment).
    split; [exact Hname | apply String.eqb_refl].
  - left. split; [reflexivity|]. left. apply List.Forall_forall. intros segment Hin.
    pose proof (find_none _ _ Hfind segment Hin) as Hnot. cbv beta in Hnot.
    apply negb_false_iff, existsb_exists in Hnot as (name & Hname & Heq).
    apply String.eqb_eq in Heq. now subst name.
Qed.

(** ** The combined interval as a hull *)

(** The interval taken over a list of well-formed intervals contains
    each of them, and its bounds are bounds of two of them. *)
Lemma combined_is_hull (ranges : list Interval) :
  Forall wellFormed ranges ->
  let combined :=
    (Math_min (List.filter (fun value => strict_neq value (Num (-1))) (map fst ranges)),
     Math_max (List.filter (fun value => strict_neq value (Num (-1))) (map snd ranges))) in
  (forall interval, In interval ranges -> subinterval interval combined)
  /\ (forall a b,
        combined = (Num a, Num b) ->
        exists b' a',
          In (Num a, Num b') ranges /\ In (Num a', Num b) ranges
          /\ 0 <= a <= b' /\ 0 <= a' <= b).
Proof.
  induction 1 as [|interval ranges Hwf Hall IH].
  - cbv zeta. split; [intros interval []|]. discriminate.
  - pose proof (combined_of_wellFormed ranges Hall) as Hrest.
    cbv zeta in IH, Hrest |- *. destruct IH as [IHin IHbounds].
    destruct Hwf as [(a & b & -> & Ha & Hab & Hb)| ->].
    + cbn [map fst snd List.filter].
      assert (strict_neq (Num a) (Num (-1)) = true) as ->
          by (unfold strict_neq; simpl; destruct (Z.eqb_spec a (-1)); [lia | reflexivity]).
      assert (strict_neq (Num b) (Num (-1)) = true) as ->
          by (unfold strict_neq; simpl; destruct (Z.eqb_spec b (-1)); [lia | reflexivity]).
      unfold Math_min, Math_max in IHin, IHbounds, Hrest |- *. cbn [fold_right].
      destruct Hrest as [(a' & b' & Hrest & Ha' & Hab' & Hb')|[Hsentinel Hrest]].
      * injection Hrest as Hmin Hmax. rewrite Hmin, Hmax in IHin, IHbounds |- *.
        cbn [Math_min2 Math_max2]. split.
        -- intros interval [<-|Hin] iv Hiv.
           ++ apply contains_bounds in Hiv; [|lia]. apply contains_bounds; lia.
           ++ apply (IHin interval Hin), contains_bounds in Hiv; [|lia].
              apply contains_bounds; lia.
        -- intros low high [= <- <-].
           destruct (IHbounds a' b' eq_refl) as (bl & ah & Hlow & Hhigh & Hbl & Hah).
           assert (exists b0, In (Num (Z.min a a'), Num b0) ((Num a, Num b) :: ranges)
                              /\ 0 <= Z.min a a' <= b0) as (b0 & Hb0 & Hb0').
           { destruct (Z.min_spec a a') as [[_ ->]|[_ ->]];
               [exists b; split; [now left | lia] | exists bl; split; [now right | lia]]. }
           assert (exists a0, In (Num a0, Num (Z.max b b')) ((Num a, Num b) :: ranges)
                              /\ 0 <= a0 <= Z.max b b') as (a0 & Ha0 & Ha0').
           { destruct (Z.max_spec b b') as [[_ ->]|[_ ->]];
               [exists ah; split; [now right | lia] | exists a; split; [now left | lia]]. }
           exists b0, a0. repeat split; try assumption; lia.
      * injection Hrest as Hmin Hmax. rewrite Hmin, Hmax. cbn [Math_min2 Math_max2]. split.
        -- intros interval [<-|Hin] iv Hiv; [exact Hiv|].
           rewrite List.Forall_forall in Hsentinel. rewrite (Hsentinel interval Hin) in Hiv.
           destruct Hiv as [Hiv _]. contradiction.
        -- intros low high [= <- <-]. exists b, a.
           repeat split; try (now left); lia.
    + cbn [map fst snd List.filter sentinel]. simpl strict_neq. cbn iota. split.
      * intros interval [<-|Hin] iv Hiv; [destruct Hiv as [Hiv _]; contradiction|].
        now apply (IHin interval Hin).
      * intros a b Heq.
        destruct (IHbounds a b Heq) as (b' & a' & Hlow & Hhigh & Hbounds).
        exists b', a'. split; [now right|]. split; [now right | exact Hbounds].
Qed.

Lemma relevantRangesOf_In confirmedNegative confirmedPositive stat ranges interval :
  In interval (relevantRangesOf confirmedNegative confirmedPositive stat ranges) ->
  exists key, interval = regimeOf ranges key.
Proof.
  unfold relevantRangesOf. rewrite !in_app_iff.
  intros [Hin|[Hin|Hin]];
    match type of Hin with In _ (if ?c then _ else _) => destruct c end;
    try (now destruct Hin); destruct Hin as [<-|[]];
    first [now exists key_positive | now exists key_neutral | now exists key_negative].
Qed.

Lemma regime_within_combined stat tracker ranges key :
  calculatePossibleIVRange stat tracker = Some ranges ->
  subinterval (regimeOf ranges key) (combined ranges).
Proof.
  assert (forall (c : bool) x,
             subinterval (if c then (x, x) else (Num (-1), Num (-1))) (x, x)) as Hclamped.
  { intros [|] x iv Hiv; [exact Hiv|]. destruct Hiv as [Hiv _]. now contradiction Hiv. }
  unfold calculatePossibleIVRange.
  destruct (strict_neq (staticIVs tracker stat) (Num (-1)));
    [intros [= <-]; destruct key; apply Hclamped|].
  destruct (directInput tracker); [intros [= <-]; destruct key; apply Hclamped|].
  destruct (modifierSetOf stat tracker) as [modifierSet|] eqn:Hset; [|discriminate].
  apply modifierSetOf_Some in Hset
    as (lowered & unchanged & raised & Hn & Hu & Hp & Hkn & Hku & Hkp).
  simpl. rewrite Hkn, Hku, Hkp. simpl. intros [= <-].
  apply narrowRegime_wellFormed in Hn, Hu, Hp.
  assert (Forall wellFormed [raised; lowered; unchanged]) as Hregimes
      by (repeat (apply List.Forall_cons; [assumption|]); apply List.Forall_nil).
  destruct (combined_is_hull _ Hregimes) as [Hin _].
  destruct key; cbn [regimeOf negative neutral positive combined];
    apply Hin; simpl; auto.
Qed.

(** X22. The combined interval is a hull.  Every regime interval
    [calculatePossibleIVRange] returns lies within the combined interval
    it returns; and, for static and direct-input IVs between 0 and 31,
    the combined interval [calculateAllPossibleIVRanges] retakes over
    the regimes the nature leaves lies within that first one:
    knowledge of the nature never widens it. *)
Theorem combined_interval_is_a_hull stat tracker ranges allRanges :
  staticIVs tracker stat = Num (-1) \/ between 0 31 (staticIVs tracker stat) ->
  (directInput tracker = true -> between 0 31 (directInputIVs tracker stat)) ->
  calculatePossibleIVRange stat tracker = Some ranges ->
  calculateAllPossibleIVRanges tracker = Some allRanges ->
  (forall key, subinterval (regimeOf ranges key) (combined ranges))
  /\ subinterval (combined (allRanges stat)) (combined ranges).
Proof.
  intros Hstatic Hdirect Hranges Hall.
  split; [intros key; now apply (regime_within_combined stat tracker)|].
  destruct (calculatePossibleIVRange_invariant stat tracker ranges Hstatic Hdirect Hranges)
    as (Hn & Hu & Hp & _).
  revert Hall. unfold calculateAllPossibleIVRanges.
  destruct (statRecordOf (fun stat => calculatePossibleIVRange stat tracker))
    as [preliminaryResults|] eqn:Hpreliminary; [|discriminate].
  simpl.
  destruct (if generation tracker <=? 2 then _ else _)
    as [confirmedNegative confirmedPositive].
  intros Hall.
  apply statRecordOf_Some with (stat := stat) in Hall. injection Hall as <-.
  apply statRecordOf_Some with (stat := stat) in Hpreliminary.
  rewrite Hranges in Hpreliminary. injection Hpreliminary as <-.
  assert (Forall wellFormed (relevantRangesOf confirmedNegative confirmedPositive stat ranges))
    as Hrelevant.
  { unfold relevantRangesOf.
    repeat (apply Forall_app; split);
      match goal with |- Forall _ (if ?c then _ else _) => destruct c end;
      repeat (apply List.Forall_cons; [assumption|]); apply List.Forall_nil. }
  destruct (combined_is_hull _ Hrelevant) as [_ Hbounds].
  intros iv (_ & a & b & Hcombined & Hiv).
  unfold recombine in Hcombined. cbn [combined] in Hcombined.
  destruct (Hbounds a b Hcombined) as (b' & a' & Hlow & Hhigh & Hab' & Ha'b).
  apply relevantRangesOf_In in Hlow as [keyLow Hlow], Hhigh as [keyHigh Hhigh].
  assert (contains (combined ranges) a) as Hlower.
  { apply (regime_within_combined stat tracker ranges keyLow Hranges). rewrite <- Hlow.
    split; [unfold sentinel; intros [= Heq _]; lia|]. exists a, b'. split; [reflexivity|lia]. }
  assert (contains (combined ranges) b) as Hupper.
  { apply (regime_within_combined stat tracker ranges keyHigh Hranges). rewrite <- Hhigh.
    split; [unfold sentinel; intros [= _ Heq]; lia|]. exists a', b. split; [reflexivity|lia]. }
  destruct Hlower as (Hsentinel & a0 & b0 & Heq & Ha0).
  destruct Hupper as (_ & a1 & b1 & Heq' & Hb1).
  rewrite Heq in Heq'. injection Heq' as <- <-.
  split; [exact Hsentinel|]. exists a0, b0. split; [exact Heq | lia].
Qed.

(** ** Values filtered by the possible adjustments *)

(** X23. [filterByPossibleNatureAdjustmentsForStat] returns exactly the
    defined values of the regimes [getPossibleNatureAdjustmentsForStat]
    flags; with both stats of the nature confirmed and distinct, at
    most one value. *)
Theorem filterByPossibleNatureAdjustmentsForStat_spec {T} ranges stat confirmedNature
    (values : option T * option T * option T) :
  (forall v,
      In v (filterByPossibleNatureAdjustmentsForStat ranges stat confirmedNature values)
      <-> exists key,
            adjustmentAt (getPossibleNatureAdjustmentsForStat ranges stat confirmedNature) key
            = true
            /\ valueAt values key = Some v)
  /\ (forall confirmedNegative confirmedPositive,
        confirmedNature = (Some confirmedNegative, Some confirmedPositive) ->
        confirmedNegative <> confirmedPositive ->
        (length (filterByPossibleNatureAdjustmentsForStat ranges stat confirmedNature values)
         <= 1)%nat).
Proof.
  split.
  - intros v. unfold filterByPossibleNatureAdjustmentsForStat.
    destruct (getPossibleNatureAdjustmentsForStat ranges stat confirmedNature)
      as [[lowered unchanged] raised].
    destruct values as [[value0 value1] value2]. split.
    + intros Hin.
      destruct lowered, unchanged, raised, value0, value1, value2; simpl in Hin;
        repeat (destruct Hin as [<-|Hin];
                [first [ exists key_negative; split; reflexivity
                       | exists key_neutral; split; reflexivity
                       | exists key_positive; split; reflexivity ]|]);
        contradiction.
    + intros ([| |] & Hflag & Hvalue); simpl in Hflag, Hvalue;
        rewrite Hflag, Hvalue;
        destruct lowered, unchanged, raised, value0, value1, value2;
        try discriminate; simpl; auto.
  - intros confirmedNegative confirmedPositive -> Hdistinct.
    unfold filterByPossibleNatureAdjustmentsForStat, getPossibleNatureAdjustmentsForStat,
      is_stat, is_Some_b.
    destruct values as [[value0 value1] value2].
    destruct (Stat_eqb confirmedNegative stat) eqn:Hnegative,
      (Stat_eqb confirmedPositive stat) eqn:Hpositive.
    + apply Stat_eqb_true in Hnegative, Hpositive. congruence.
    + cbn. destruct value0; simpl; lia.
    + cbn. destruct value2; simpl; lia.
    + cbn. rewrite !andb_false_r.
      destruct (strict_neq (fst (neutral ranges)) (Num (-1))), value1; simpl; lia.
Qed.

(** ** Generations without natures *)

(** X24. In generations 1 and 2 the nature is taken as
    [('attack', 'attack')], so for every stat the combined interval of
    [calculateAllPossibleIVRanges] is the neutral interval, or
    [[Infinity, -Infinity]] when that one is the sentinel. *)
Theorem early_generations_combine_the_neutral_regime tracker allRanges stat :
  generation tracker <= 2 ->
  staticIVs tracker stat = Num (-1) \/ between 0 31 (staticIVs tracker stat) ->
  (directInput tracker = true -> between 0 31 (directInputIVs tracker stat)) ->
  calculateAllPossibleIVRanges tracker = Some allRanges ->
  combined (allRanges stat) = neutral (allRanges stat)
  \/ (neutral (allRanges stat) = sentinel
      /\ combined (allRanges stat) = (Infinity, NegInfinity)).
Proof.
  intros Hgeneration Hstatic Hdirect. unfold calculateAllPossibleIVRanges.
  destruct (statRecordOf (fun stat => calculatePossibleIVRange stat tracker))
    as [preliminaryResults|] eqn:Hpreliminary; [|discriminate].
  simpl. apply Z.leb_le in Hgeneration. rewrite Hgeneration.
  intros Hall.
  apply statRecordOf_Some with (stat := stat) in Hall. injection Hall as <-.
  apply statRecordOf_Some with (stat := stat) in Hpreliminary.
  destruct (calculatePossibleIVRange_invariant stat tracker _ Hstatic Hdirect Hpreliminary)
    as (_ & Hu & _).
  unfold recombine, relevantRangesOf, is_stat, is_Some_b. cbn [combined neutral].
  destruct Hu as [(a & b & -> & Ha & Hab & Hb)| ->].
  - left. destruct (Stat_eqb attack stat); cbn [andb orb negb app map fst snd List.filter];
      unfold strict_neq; simpl;
      (destruct (Z.eqb_spec a (-1)); [lia|]); (destruct (Z.eqb_spec b (-1)); [lia|]);
      reflexivity.
  - right. split; [reflexivity|]. destruct (Stat_eqb attack stat); reflexivity.
Qed.

(** ** Parities *)

Lemma parity_partition (values : list number) :
  (forall x, In x values -> between 0 31 x) ->
  (length (List.filter (fun x => rem2_is x 1) values)
   + length (List.filter (fun x => rem2_is x 0) values))%nat
  = length values.
Proof.
  induction values as [|x values IH]; intros Hbetween; [reflexivity|].
  destruct (Hbetween x) as (z & -> & Hz); [now left|].
  cbn [List.filter].
  rewrite (rem2_is_parity z true), (rem2_is_parity z false) by lia.
  specialize (IH (fun y Hy => Hbetween y (or_intror Hy))).
  destruct (Z.odd z); simpl; lia.
Qed.

(** X25. For a stat with well-formed regime intervals and an admissible
    IV, the probabilities of an odd and of an even IV add up to one:
    every admissible value is counted by one of the two remainder
    tests. *)
Theorem parity_probabilities_add_up ivRange stat confirmedNature :
  (forall key, wellFormed (regimeOf ivRange key)) ->
  getUniqueIVValuesInRangeSet ivRange stat confirmedNature <> [] ->
  (calculateOddnessProbababilityOfStat ivRange stat confirmedNature true
   + calculateOddnessProbababilityOfStat ivRange stat confirmedNature false == 1)%Q.
Proof.
  intros Hwf Hnonempty.
  pose proof (parity_partition (getUniqueIVValuesInRangeSet ivRange stat confirmedNature)
                (fun x => getUniqueIVValuesInRangeSet_between ivRange stat confirmedNature x Hwf))
    as Hpartition.
  unfold calculateOddnessProbababilityOfStat.
  destruct (getUniqueIVValuesInRangeSet ivRange stat confirmedNature) as [|x values];
    [contradiction|].
  cbn [length Nat.eqb] in Hpartition |- *.
  unfold Qeq, Qplus. cbn [Qnum Qden]. nia.
Qed.

End TrackerCalculations.

(** * The properties on the example data *)

(** ** The combined interval of a contradicted stat *)

(** C1, at the failing input. An HP of 25 recorded at level 5 matches no
    IV under any regime: the three regime intervals are the sentinel,
    and the combined interval is [[Infinity, -Infinity]], neither a
    sub-range of [[0, 31]] nor the sentinel, from
    [calculatePossibleIVRange] as from [calculateAllPossibleIVRanges]. *)
Theorem combined_of_contradicted_stat :
  let tracker := observedTracker [(0, [(5, Some (statLineOf [25; 11; 9; 7; 9; 10]))])] in
  calculatePossibleIVRange exampleHP exampleGen1Stat exampleStat exampleNATURES hp tracker
  = Some {| negative := sentinel; neutral := sentinel; positive := sentinel;
            combined := (Infinity, NegInfinity) |}
  /\ (fun ranges : StatRecord IVRangeSet => combined (ranges hp))
       <$> calculateAllPossibleIVRanges exampleHP exampleGen1Stat exampleStat exampleNATURES
             tracker
     = Some (Infinity, NegInfinity)
  /\ ~ wellFormed (Infinity, NegInfinity).
Proof.
  split; [vm_compute; reflexivity|]. split; [vm_compute; reflexivity|].
  intros [(a & b & Heq & _)|Heq]; discriminate.
Qed.

(** ** The theorems at concrete inputs *)

Lemma directInput_ignores_pinned_stats_witness :
  let tracker := directInputTracker (Some defense) None in
  staticIVs tracker attack = Num (-1)
  /\ directInput tracker = true
  /\ staticNature tracker = None
  /\ restrictPositive tracker attack = true
  /\ positive <$> calculatePossibleIVRange exampleHP exampleGen1Stat exampleStat exampleNATURES
                    attack tracker
     = Some (Num 20, Num 20).
Proof.
  intros tracker.
  split; [reflexivity|]. split; [reflexivity|]. split; [reflexivity|]. split; [reflexivity|].
  rewrite (directInput_ignores_pinned_stats exampleHP exampleGen1Stat exampleStat exampleNATURES
             attack tracker eq_refl eq_refl eq_refl).
  reflexivity.
Defined.

Lemma sentinel_is_permanent_witness :
  let tracker := observedTracker [] in
  let statLine := statLineOf [25; 11; 9; 7; 9; 10] in
  0 <> -1
  /\ falsy (statLine hp) = false
  /\ matchingStatsOf exampleHP exampleGen1Stat exampleStat hp tracker (Num 45) (1 # 1)
       (Num 0) (Num 31) 5 statLine = []
  /\ narrowObservation exampleHP exampleGen1Stat exampleStat hp tracker (Num 45) (1 # 1)
       (Num 0, Num 31) (5, Some statLine) = sentinel
  /\ fold_left (narrowEvolution exampleHP exampleGen1Stat exampleStat hp tracker (1 # 1))
       [(0, [(6, Some statLine)]); (1, [(7, Some statLine)])] (Some sentinel)
     = Some sentinel.
Proof.
  intros tracker statLine.
  assert (0 <> -1) as Hne by discriminate.
  assert (matchingStatsOf exampleHP exampleGen1Stat exampleStat hp tracker (Num 45) (1 # 1)
            (Num 0) (Num 31) 5 statLine = []) as Hnone by (vm_compute; reflexivity).
  destruct (sentinel_is_permanent exampleHP exampleGen1Stat exampleStat hp tracker (1 # 1))
    as (Hstep & _ & Hstages & _).
  split; [exact Hne|]. split; [reflexivity|]. split; [exact Hnone|]. split.
  - exact (Hstep (Num 45) 0 31 5 statLine Hne eq_refl Hnone).
  - apply Hstages. intros evo statSegments [[= <- _]|[[= <- _]|[]]]; vm_compute; eauto.
Defined.

Lemma narrowing_is_monotonic_witness :
  let tracker := observedTracker [] in
  let statLine := statLineOf [20; 11; 9; 7; 9; 10] in
  narrowObservation exampleHP exampleGen1Stat exampleStat hp tracker (Num 45) (1 # 1)
    (Num 0, Num 31) (5, Some statLine) = (Num 10, Num 29)
  /\ (contains
        (narrowObservation exampleHP exampleGen1Stat exampleStat hp tracker (Num 45) (1 # 1)
           (Num 0, Num 31) (5, Some statLine)) 12 ->
      contains (Num 0, Num 31) 12).
Proof.
  intros tracker statLine. split; [vm_compute; reflexivity|].
  apply (narrowing_is_monotonic exampleHP exampleGen1Stat exampleStat hp tracker (Num 45)
           (1 # 1) (Num 0, Num 31) (5, Some statLine)).
Defined.

Lemma calculatePossibleNature_fallback_witness :
  let tracker := observedTracker [] in
  let ivRanges : StatRecord IVRangeSet :=
    fun _ => {| negative := sentinel; neutral := (Num 0, Num 31);
                positive := (Num 0, Num 31); combined := (Num 0, Num 31) |} in
  staticNatureDefinition exampleNATURES tracker = None
  /\ (forall stat, stat <> hp -> fst (negative (ivRanges stat)) = Num (-1))
  /\ calculatePossibleNature exampleNATURES ivRanges tracker = (Some attack, Some attack).
Proof.
  intros tracker ivRanges.
  assert (forall stat, stat <> hp -> fst (negative (ivRanges stat)) = Num (-1)) as Hnone
      by (intros; reflexivity).
  split; [reflexivity|]. split; [exact Hnone|].
  exact (calculatePossibleNature_fallback exampleNATURES ivRanges tracker eq_refl
           (or_introl Hnone)).
Defined.

Lemma calculateHiddenPowerType_null_iff_witness :
  let contradicted : StatRecord IVRangeSet :=
    fun _ => {| negative := sentinel; neutral := sentinel; positive := sentinel;
                combined := (Infinity, NegInfinity) |} in
  (forall a b c d e f,
      (calculateHiddenPowerProbability contradicted (None, None) a b c d e f == 0)%Q)
  /\ calculateHiddenPowerType contradicted (None, None) = None.
Proof.
  intros contradicted.
  assert (forall a b c d e f,
             (calculateHiddenPowerProbability contradicted (None, None) a b c d e f == 0)%Q)
    as Hzero by (intros; reflexivity).
  split; [exact Hzero|].
  destruct (calculateHiddenPowerType_null_iff contradicted (None, None))
    as (_ & [_ Hnull] & _).
  exact (Hnull Hzero).
Defined.

Lemma castRouteVariableAsType_spec_witness :
  "text"%string <> "number"%string
  /\ "text"%string <> "boolean"%string
  /\ castRouteVariableAsType "text" (Some "12"%string) = VString "12"
  /\ Z.abs 12 <= 2 ^ 53
  /\ decimalText 12 = "12"%string
  /\ castRouteVariableAsType "number" (Some (decimalText 12)) = VNumber (Num 12)
  /\ castRouteVariableAsType "boolean" (Some "TRUE"%string) = VBoolean false.
Proof.
  destruct castRouteVariableAsType_spec as (_ & _ & Hnumber & _ & Hboolean & Hother).
  assert ("text"%string <> "number"%string) as H1 by discriminate.
  assert ("text"%string <> "boolean"%string) as H2 by discriminate.
  assert (Z.abs 12 <= 2 ^ 53) as H3 by (vm_compute; discriminate).
  split; [exact H1|]. split; [exact H2|]. split; [exact (Hother _ _ H1 H2)|].
  split; [exact H3|]. split; [reflexivity|].
  split; [exact (Hnumber 12 H3)|]. apply Hboolean. discriminate.
Defined.

Lemma castRouteVariableAsType_NaN_witness :
  ~ hasLeadingInteger "abc"
  /\ castRouteVariableAsType "number" (Some "abc"%string) = VNumber NaN
  /\ ~ hasLeadingInteger EmptyString
  /\ castRouteVariableAsType "number" (Some EmptyString) = VNumber NaN.
Proof.
  assert (~ hasLeadingInteger "abc") as Habc by (apply parseInt_10_NaN; reflexivity).
  assert (~ hasLeadingInteger EmptyString) as Hempty by (apply parseInt_10_NaN; reflexivity).
  split; [exact Habc|]. split; [exact (castRouteVariableAsType_NaN _ Habc)|].
  split; [exact Hempty|]. exact (castRouteVariableAsType_NaN _ Hempty).
Defined.


(** ** Where the round trip and the fallback stop *)


(** ** Examples *)

Example parseInt_10_rounds :
  parseInt_10 "9007199254740993" = Num 9007199254740992
  /\ parseInt_10 " -42abc" = Num (-42)
  /\ roundToDouble (10 ^ 23) = Num 99999999999999991611392.
Proof. repeat split; vm_compute; reflexivity. Qed.

Example JSON_parse_numbers :
  JSON_parse "[1e2,1.5,0.1,9007199254740993,1e400,1e-400]"
  = Some (VArray [VNumber (Num 100); VFraction 3 (-1); VFraction 3602879701896397 (-55);
                  VNumber (Num 9007199254740992); VNumber Infinity; VNumber (Num 0)]).
Proof. vm_compute. reflexivity. Qed.

Example JSON_stringify_numbers_domain :
  JSON_stringify_numbers [Num 1; NaN; Num (2 ^ 53)] = Some "[1,null,9007199254740992]"%string
  /\ JSON_stringify_numbers [Num (2 ^ 53 + 2)] = None.
Proof. split; vm_compute; reflexivity. Qed.

Example parseStatLine_string :
  Object_entries (fst (parseStatLine (String quotationMark (String "a" (String "b"
                                        (String quotationMark EmptyString))))))
  = [(hp, VString "a"); (attack, VString "b"); (defense, VUndefined);
     (spAttack, VUndefined); (spDefense, VUndefined); (speed, VUndefined)].
Proof. vm_compute. reflexivity. Qed.

Example parseTypeDefinition_Fire_Flying :
  parseTypeDefinition exampleTYPE_NAMES "Fire/Flying" = (["fire"; "flying"]%string, []).
Proof. vm_compute. reflexivity. Qed.

Example parseTypeDefinition_unknown_type :
  parseTypeDefinition exampleTYPE_NAMES "Fire/ Sound /Light" = ([], ["sound"%string]).
Proof. vm_compute. reflexivity. Qed.

Example parseTypeDefinition_trailing_slash :
  ~ In EmptyString exampleTYPE_NAMES
  /\ parseTypeDefinition exampleTYPE_NAMES "Fire/" = (["fire"%string; EmptyString], []).
Proof.
  split; [|vm_compute; reflexivity].
  simpl. intros H. repeat (destruct H as [H|H]; [discriminate|]). exact H.
Qed.

Example calculateHiddenPowerType_unconstrained :
  calculateHiddenPowerType
    (fun _ => {| negative := (Num 0, Num 31); neutral := (Num 0, Num 31);
                 positive := (Num 0, Num 31); combined := (Num 0, Num 31) |})
    (None, None)
  = Some (Some "Fighting"%string).
Proof. vm_compute. reflexivity. Qed.

Example calculatePossibleIVRange_observed :
  calculatePossibleIVRange exampleHP exampleGen1Stat exampleStat exampleNATURES attack
    (observedTracker [(0, [(5, Some (statLineOf [20; 12; 9; 7; 9; 10]))])])
  = Some {| negative := sentinel; neutral := (Num 20, Num 31);
            positive := (Num 0, Num 19); combined := (Num 0, Num 31) |}.
Proof. vm_compute. reflexivity. Qed.

(** ** The further properties at concrete inputs *)

Lemma consistent_IV_is_kept_witness :
  let tracker := observedTracker [(0, [(5, Some (statLineOf [20; 11; 9; 7; 9; 10]))])] in
  let ranges := uniformRanges (Num 10, Num 29) in
  calculatePossibleIVRange exampleHP exampleGen1Stat exampleStat exampleNATURES hp tracker
  = Some ranges
  /\ contains (regimeOf ranges key_neutral) 12.
Proof.
  intros tracker ranges.
  assert (calculatePossibleIVRange exampleHP exampleGen1Stat exampleStat exampleNATURES
            hp tracker = Some ranges) as Hranges by (vm_compute; reflexivity).
  split; [exact Hranges|].
  apply (consistent_IV_is_kept exampleHP exampleGen1Stat exampleStat exampleNATURES
           hp tracker ranges key_neutral (1 # 1) 12 eq_refl eq_refl).
  - right. left. reflexivity.
  - lia.
  - intros evo statSegments row level statLine [[= <- <-]|[]] Hrow [[= <- <-]|[]] _.
    vm_compute in Hrow. injection Hrow as <-. vm_compute. reflexivity.
  - exact Hranges.
Defined.

Lemma unrecorded_stat_is_unconstrained_witness :
  let statLine := statLineOf [20; 0; 9; 7; 9; 10] in
  let tracker := observedTracker [(0, [(5, Some statLine)])] in
  falsy (statLine attack) = true
  /\ calculatePossibleIVRange exampleHP exampleGen1Stat exampleStat exampleNATURES attack tracker
     = Some (uniformRanges (Num 0, Num 31)).
Proof.
  intros statLine tracker. split; [reflexivity|].
  apply (unrecorded_stat_is_unconstrained exampleHP exampleGen1Stat exampleStat exampleNATURES
           attack tracker eq_refl eq_refl).
  intros evo statSegments [[= <- <-]|[]]. split; [eexists; reflexivity|].
  intros level line [[= <- <-]|[]]. reflexivity.
Defined.

Lemma regime_intervals_are_well_formed_witness :
  let tracker := observedTracker [(0, [(5, Some (statLineOf [20; 11; 9; 7; 9; 10]))])] in
  let ranges :=
    {| negative := sentinel; neutral := (Num 0, Num 19); positive := sentinel;
       combined := (Num 0, Num 19) |} in
  calculatePossibleIVRange exampleHP exampleGen1Stat exampleStat exampleNATURES attack tracker
  = Some ranges
  /\ (forall key, wellFormed (regimeOf ranges key))
  /\ (wellFormed (combined ranges)
      \/ ((forall key, regimeOf ranges key = sentinel)
          /\ combined ranges = (Infinity, NegInfinity))).
Proof.
  intros tracker ranges.
  assert (calculatePossibleIVRange exampleHP exampleGen1Stat exampleStat exampleNATURES
            attack tracker = Some ranges) as Hranges by (vm_compute; reflexivity).
  split; [exact Hranges|].
  apply (regime_intervals_are_well_formed exampleHP exampleGen1Stat exampleStat exampleNATURES
           attack tracker ranges).
  - left. reflexivity.
  - intros Hmode. discriminate Hmode.
  - exact Hranges.
Defined.

Lemma added_observation_narrows_witness :
  let tracker := observedTracker [] in
  let entry : Z * option StatLine := (5, Some (statLineOf [20; 11; 9; 7; 9; 10])) in
  let ranges' := uniformRanges (Num 10, Num 29) in
  calculatePossibleIVRange exampleHP exampleGen1Stat exampleStat exampleNATURES hp
    (withRecordedStats tracker [(0, [entry])]) = Some ranges'
  /\ exists ranges,
       calculatePossibleIVRange exampleHP exampleGen1Stat exampleStat exampleNATURES hp
         (withRecordedStats tracker [(0, [])]) = Some ranges
       /\ forall key, subinterval (regimeOf ranges' key) (regimeOf ranges key).
Proof.
  intros tracker entry ranges'.
  assert (calculatePossibleIVRange exampleHP exampleGen1Stat exampleStat exampleNATURES hp
            (withRecordedStats tracker [(0, [entry])]) = Some ranges') as Hranges
      by (vm_compute; reflexivity).
  split; [exact Hranges|].
  exact (added_observation_narrows exampleHP exampleGen1Stat exampleStat exampleNATURES
           hp tracker [] 0 [] entry [] [] ranges' eq_refl eq_refl Hranges).
Defined.

Lemma static_regime_is_the_multiplier_witness :
  let nature := {| plus := attack; minus := spAttack |} in
  strict_neq (staticIVs staticTracker attack) (Num (-1)) = true
  /\ staticNatureDefinition exampleNATURES staticTracker = Some nature
  /\ getNatureMultiplier attack nature = (11 # 10)%Q
  /\ exists ranges,
       calculatePossibleIVRange exampleHP exampleGen1Stat exampleStat exampleNATURES
         attack staticTracker = Some ranges
       /\ combined ranges = (Num 31, Num 31)
       /\ forall key modifier,
            In (key, modifier) NATURE_MODIFIERS ->
            (modifier = getNatureMultiplier attack nature ->
             regimeOf ranges key = (Num 31, Num 31))
            /\ (modifier <> getNatureMultiplier attack nature ->
                regimeOf ranges key = sentinel).
Proof.
  intros nature. split; [reflexivity|]. split; [reflexivity|]. split; [reflexivity|].
  exact (static_regime_is_the_multiplier exampleHP exampleGen1Stat exampleStat exampleNATURES
           attack staticTracker nature eq_refl eq_refl).
Defined.

Lemma inferred_nature_is_never_hp_witness :
  let tracker := observedTracker [] in
  let ivRanges : StatRecord IVRangeSet := fun _ => uniformRanges (Num 0, Num 31) in
  fst (calculatePossibleNature exampleNATURES ivRanges tracker) <> Some hp
  /\ snd (calculatePossibleNature exampleNATURES ivRanges tracker) <> Some hp.
Proof.
  intros tracker ivRanges.
  exact (inferred_nature_is_never_hp exampleNATURES ivRanges tracker eq_refl eq_refl eq_refl).
Defined.

Lemma confirmed_nature_selects_one_regime_witness :
  let ranges :=
    {| negative := (Num 0, Num 9); neutral := (Num 10, Num 19); positive := (Num 20, Num 31);
       combined := (Num 0, Num 31) |} in
  spAttack <> attack
  /\ relevantRangesOf (Some spAttack) (Some attack) attack ranges = [(Num 20, Num 31)]
  /\ getUniqueIVValuesInRangeSet ranges spAttack (Some spAttack, Some attack)
     = range (Num 0) (Num 9).
Proof.
  intros ranges.
  assert (spAttack <> attack) as Hdistinct by discriminate.
  split; [exact Hdistinct|]. split.
  - exact (proj1 (confirmed_nature_selects_one_regime spAttack attack attack ranges
                    Hdistinct)).
  - exact (proj1 (proj2 (proj2 (confirmed_nature_selects_one_regime spAttack attack spAttack
                                  ranges Hdistinct)))).
Defined.

Lemma possible_adjustments_are_relevant_witness :
  let ranges := uniformRanges (Num 0, Num 31) in
  adjustmentAt (getPossibleNatureAdjustmentsForStat ranges attack (None, None)) key_positive
  = true
  /\ In (positive ranges) (relevantRangesOf None None attack ranges)
  /\ (attack <> hp -> In key_positive (map fst (relevantModifiersOf attack (None, None)))).
Proof.
  intros ranges. split; [reflexivity|].
  exact (possible_adjustments_are_relevant ranges attack None None key_positive eq_refl).
Defined.

Lemma calculatePossibleStats_valid_witness :
  let tracker := observedTracker [] in
  let ivRanges : StatRecord IVRangeSet :=
    fun _ => {| negative := sentinel; neutral := (Num 0, Num 19); positive := sentinel;
                combined := (Num 0, Num 19) |} in
  (forall key, wellFormed (regimeOf (ivRanges attack) key))
  /\ forall v,
       In v (valid (calculatePossibleStats exampleHP exampleGen1Stat exampleStat attack 5
                      ivRanges (None, None) tracker None)) ->
       In v (possible (calculatePossibleStats exampleHP exampleGen1Stat exampleStat attack 5
                         ivRanges (None, None) tracker None)).
Proof.
  intros tracker ivRanges.
  assert (forall key, wellFormed (regimeOf (ivRanges attack) key)) as Hwf.
  { intros [| |]; [right; reflexivity | | right; reflexivity].
    left. exists 0, 19. split; [reflexivity | lia]. }
  split; [exact Hwf|].
  exact (proj2 (calculatePossibleStats_valid exampleHP exampleGen1Stat exampleStat attack 5
                  ivRanges (None, None) tracker None Hwf)).
Defined.

Lemma regimes_coincide_without_modifier_witness :
  let ranges := uniformRanges (Num 0, Num 9) in
  generation earlyTracker <= 2
  /\ calculatePossibleIVRange exampleHP exampleGen1Stat exampleStat exampleNATURES
       attack earlyTracker = Some ranges
  /\ negative ranges = neutral ranges
  /\ positive ranges = neutral ranges.
Proof.
  intros ranges.
  assert (generation earlyTracker <= 2) as Hgeneration by (simpl; lia).
  assert (calculatePossibleIVRange exampleHP exampleGen1Stat exampleStat exampleNATURES
            attack earlyTracker = Some ranges) as Hranges by (vm_compute; reflexivity).
  split; [exact Hgeneration|]. split; [exact Hranges|].
  exact (regimes_coincide_without_modifier exampleHP exampleGen1Stat exampleStat exampleNATURES
           attack earlyTracker ranges (or_intror Hgeneration) eq_refl eq_refl Hranges).
Defined.

Lemma calculateHiddenPowerType_of_known_parities_witness :
  let ivs : StatRecord IVRangeSet := fun _ => uniformRanges (Num 31, Num 31) in
  (forall stat, getUniqueIVValuesInRangeSet (ivs stat) stat (None, None) = [Num 31])
  /\ calculateHiddenPowerType ivs (None, None) = Some (Some "Dark"%string).
Proof.
  intros ivs.
  assert (forall stat, getUniqueIVValuesInRangeSet (ivs stat) stat (None, None) = [Num 31])
    as Hvalues by (intros []; vm_compute; reflexivity).
  split; [exact Hvalues|].
  apply (calculateHiddenPowerType_of_known_parities ivs (None, None) (fun _ => true)).
  intros stat. rewrite Hvalues. split; [discriminate|].
  intros x [<-|[]]. exists 31. split; [reflexivity|]. split; [lia | reflexivity].
Defined.

Lemma calculateHiddenPowerType_null_iff_no_value_witness :
  let ivs : StatRecord IVRangeSet := fun _ => uniformRanges (Num 0, Num 31) in
  (forall stat key, wellFormed (regimeOf (ivs stat) key))
  /\ (calculateHiddenPowerType ivs (None, None) = None
      <-> exists stat, getUniqueIVValuesInRangeSet (ivs stat) stat (None, None) = []).
Proof.
  intros ivs.
  assert (forall stat key, wellFormed (regimeOf (ivs stat) key)) as Hwf.
  { intros stat [| |]; left; exists 0, 31; (split; [reflexivity | lia]). }
  split; [exact Hwf|].
  exact (calculateHiddenPowerType_null_iff_no_value ivs (None, None) Hwf).
Defined.

Lemma calculation_set_nature_is_consistent_witness :
  exists calculationSet,
    buildTrackerCalculationSet exampleHP exampleGen1Stat exampleStat exampleNATURES
      exampleState (observedTracker []) = Some calculationSet
    /\ forall stat,
       exists ranges,
         calculatePossibleIVRange exampleHP exampleGen1Stat exampleStat exampleNATURES
           stat (observedTracker []) = Some ranges
         /\ ivRanges calculationSet stat
            = recombine (fst (confirmedNature calculationSet))
                (snd (confirmedNature calculationSet)) stat ranges.
Proof.
  eexists. split; [reflexivity|].
  exact (calculation_set_nature_is_consistent exampleHP exampleGen1Stat exampleStat
           exampleNATURES exampleState (observedTracker []) _ eq_refl).
Defined.

Lemma calculation_set_variables_witness :
  exists calculationSet,
    buildTrackerCalculationSet exampleHP exampleGen1Stat exampleStat exampleNATURES
      exampleState (observedTracker []) = Some calculationSet
    /\ variables calculationSet !! "badges"%string = Some (VNumber (Num 3)).
Proof.
  eexists. split; [reflexivity|].
  refine (eq_trans
            (calculation_set_variables exampleHP exampleGen1Stat exampleStat exampleNATURES
               exampleState (observedTracker []) _ "badges" eq_refl) _).
  vm_compute. reflexivity.
Defined.

Lemma useCalculationSet_of_built_sets_witness :
  exists calculationSets calculationSet,
    List.NoDup (map fst (RouteState.trackers exampleState))
    /\ buildAllTrackerCalculationSets exampleHP exampleGen1Stat exampleStat exampleNATURES
         exampleState = Some calculationSets
    /\ buildTrackerCalculationSet exampleHP exampleGen1Stat exampleStat exampleNATURES
         exampleState (observedTracker []) = Some calculationSet
    /\ useCalculationSet (Some <$> calculationSets) (Some "starter"%string)
       = ReadSet calculationSet
    /\ useCalculationSet (Some <$> calculationSets) (Some "rival"%string) = ReadNull
    /\ useCalculationSet (Some <$> calculationSets) (Some "constructor"%string)
       = ReadInherited "constructor".
Proof.
  assert (List.NoDup (map fst (RouteState.trackers exampleState))) as Hnodup.
  { simpl. constructor; [intros [] | constructor]. }
  assert (forall name,
             name <> "starter"%string ->
             ~ In name (map fst (RouteState.trackers exampleState))) as Hother.
  { intros name Hname [Heq|[]]. apply Hname. now rewrite <- Heq. }
  destruct (buildAllTrackerCalculationSets exampleHP exampleGen1Stat exampleStat
              exampleNATURES exampleState) as [calculationSets|] eqn:Hbuilt;
    [|discriminate Hbuilt].
  destruct (useCalculationSet_of_built_sets exampleHP exampleGen1Stat exampleStat
              exampleNATURES exampleState calculationSets Hnodup Hbuilt)
    as [Hfound Hmissing].
  destruct (Hfound "starter"%string (observedTracker []))
    as (calculationSet & Hset & Hread); [left; reflexivity | discriminate|].
  exists calculationSets, calculationSet.
  split; [exact Hnodup|]. split; [reflexivity|]. split; [exact Hset|].
  split; [exact Hread|]. split.
  - apply (Hmissing "rival"%string); [apply Hother; discriminate|].
    simpl. intros Hin. repeat (destruct Hin as [Heq|Hin]; [discriminate Heq|]). exact Hin.
  - apply (Hmissing "constructor"%string); [apply Hother; discriminate|].
    left. reflexivity.
Defined.

Lemma combined_interval_is_a_hull_witness :
  let tracker := observedTracker [(0, [(5, Some (statLineOf [20; 11; 9; 7; 9; 10]))])] in
  let ranges :=
    {| negative := sentinel; neutral := (Num 0, Num 19); positive := sentinel;
       combined := (Num 0, Num 19) |} in
  exists allRanges,
    calculatePossibleIVRange exampleHP exampleGen1Stat exampleStat exampleNATURES attack tracker
    = Some ranges
    /\ calculateAllPossibleIVRanges exampleHP exampleGen1Stat exampleStat exampleNATURES tracker
       = Some allRanges
    /\ (forall key, subinterval (regimeOf ranges key) (combined ranges))
    /\ subinterval (combined (allRanges attack)) (combined ranges).
Proof.
  intros tracker ranges.
  assert (calculatePossibleIVRange exampleHP exampleGen1Stat exampleStat exampleNATURES
            attack tracker = Some ranges) as Hranges by (vm_compute; reflexivity).
  eexists. split; [exact Hranges|]. split; [reflexivity|].
  apply (combined_interval_is_a_hull exampleHP exampleGen1Stat exampleStat exampleNATURES
           attack tracker ranges).
  - left. reflexivity.
  - intros Hmode. discriminate Hmode.
  - exact Hranges.
  - reflexivity.
Defined.

Lemma early_generations_combine_the_neutral_regime_witness :
  exists allRanges,
    generation earlyTracker <= 2
    /\ calculateAllPossibleIVRanges exampleHP exampleGen1Stat exampleStat exampleNATURES
         earlyTracker = Some allRanges
    /\ (combined (allRanges attack) = neutral (allRanges attack)
        \/ (neutral (allRanges attack) = sentinel
            /\ combined (allRanges attack) = (Infinity, NegInfinity))).
Proof.
  assert (generation earlyTracker <= 2) as Hgeneration by (simpl; lia).
  eexists. split; [exact Hgeneration|]. split; [reflexivity|].
  apply (early_generations_combine_the_neutral_regime exampleHP exampleGen1Stat exampleStat
           exampleNATURES earlyTracker _ attack Hgeneration).
  - left. reflexivity.
  - intros Hmode. discriminate Hmode.
  - reflexivity.
Defined.

Lemma parity_probabilities_add_up_witness :
  let ivRange := uniformRanges (Num 0, Num 31) in
  (forall key, wellFormed (regimeOf ivRange key))
  /\ getUniqueIVValuesInRangeSet ivRange attack (None, None) <> []
  /\ (calculateOddnessProbababilityOfStat ivRange attack (None, None) true
      + calculateOddnessProbababilityOfStat ivRange attack (None, None) false == 1)%Q.
Proof.
  intros ivRange.
  assert (forall key, wellFormed (regimeOf ivRange key)) as Hwf.
  { intros [| |]; left; exists 0, 31; (split; [reflexivity | lia]). }
  assert (getUniqueIVValuesInRangeSet ivRange attack (None, None) <> []) as Hnonempty
      by (vm_compute; discriminate).
  split; [exact Hwf|]. split; [exact Hnonempty|].
  exact (parity_probabilities_add_up ivRange attack (None, None) Hwf Hnonempty).
Defined.
